(** * absorption-bot: a shallow embedding of the analytics pipeline

    The repository holds two versions of the swing and absorption
    detectors, a single-level one and the later pool-based one; the
    pool-based version is the one modelled.  The development follows the
    JavaScript sources module by module:
    - [RollingStats]        utils/rollingStats.js
    - [FootprintEngine]     engines/FootprintEngine.js
    - [CandleBuilder]       engines/CandleBuilder.js
    - [SwingDetector]       detectors/SwingDetector.js      (pool-based version)
    - [AbsorptionDetector]  detectors/AbsorptionDetector.js (pool-based version)
    - [AlertService]        services/AlertService.js        (pool-based version)
    - [WebSocketManager]    services/WebSocketManager.js
    - [CandlePipeline]      the 15mClose listener of services/Bot.js
    - [Orchestrator]        the confirmation step over the pool-based
                            detectors, which is not among the sources and
                            follows the specification

    Numbers.  JavaScript numbers are IEEE 754 doubles.  A finite double
    is a rational, and prices, volumes and deltas are kept as their
    rational value ([Q]).  Comparisons, [Math.abs], [Math.max],
    [Math.min], [Math.round] and negation are exact on doubles and are
    the ones of [Q]; [+], [-], [*] and [/] return the exact result rounded
    to a double, and are modelled as the exact operation followed by a
    rounding function [rnd], over which the development is parametric.
    [binary64] is the rounding of doubles (to nearest, ties to even),
    [exact] is no rounding.  NaN, the infinities and overflow are outside
    the model.  Timestamps are integers ([Z]), lengths, counters and
    indexes are naturals.  Objects are records, [null] is [None], arrays
    are lists, and the logger calls are kept as a trace of events because
    several properties are about which branch executed. *)

From Stdlib Require Import String DecimalString.
From Stdlib Require Import QArith Qminmax Qround Qabs Lqa ZArith Lia.
From Stdlib Require Import Floats Uint63.
From Stdlib Require Import List Bool Permutation Sorted.
Import ListNotations.

Open Scope Q_scope.

(** ** Numbers *)

(** [a < b] on JavaScript numbers, as a boolean. *)
Definition Qltb (a b : Q) : bool := negb (Qle_bool b a).

(** [ToNumber] of a nullable number: [null] converts to [0]. *)
Definition toNumber (o : option Q) : Q :=
  match o with Some q => q | None => 0 end.


(** *** Rounded arithmetic *)

(** The rounding of the results of [+], [-], [*] and [/]. *)
Class Rounding := mkRounding { rnd : Q -> Q }.

Section Operations.
Context {ar : Rounding}.

Definition fadd (a b : Q) : Q := rnd (a + b).
Definition fsub (a b : Q) : Q := rnd (a - b).
Definition fmul (a b : Q) : Q := rnd (a * b).
Definition fdiv (a b : Q) : Q := rnd (a / b).

(** [arr.reduce((a, b) => a + b, 0)] *)
Definition fsum (l : list Q) : Q := fold_left fadd l 0.

End Operations.

(** No rounding: the arithmetic of the rationals. *)
Definition exact : Rounding := {| rnd := fun q => q |}.

(** The nearest integer to [n / d], ties to the even one. *)
Definition roundHalfEven (n : Z) (d : positive) : Z :=
  let q := (n / Zpos d)%Z in
  match (2 * (n mod Zpos d) ?= Zpos d)%Z with
  | Lt => q
  | Gt => (q + 1)%Z
  | Eq => if Z.even q then q else (q + 1)%Z
  end.

(** [floor (log2 (n / d))] for a positive [n]. *)
Definition binade (n : Z) (d : positive) : Z :=
  let k := (Z.log2 n - Z.log2 (Zpos d))%Z in
  let above := if (0 <=? k)%Z then (Zpos d * 2 ^ k <=? n)%Z
               else (Zpos d <=? n * 2 ^ (- k))%Z in
  if above then k else (k - 1)%Z.

(** [m * 2 ^ e], in lowest terms. *)
Definition scale (m e : Z) : Q :=
  Qred (if (0 <=? e)%Z then inject_Z (m * 2 ^ e)
        else Qmake m (Z.to_pos (2 ^ (- e)))).

(** The double nearest to the positive [n / d]: a 53-bit significand at
    the exponent of the binade, or at the least exponent for a subnormal;
    ties go to the even significand. *)
Definition round64 (n : Z) (d : positive) : Q :=
  let e := Z.max (binade n d - 52) (-1074) in
  let m := if (0 <=? e)%Z then roundHalfEven n (d * Z.to_pos (2 ^ e))
           else roundHalfEven (n * 2 ^ (- e)) d in
  scale m e.

Definition rnd64 (q : Q) : Q :=
  match Qnum q with
  | Z0 => 0
  | Zpos p => round64 (Zpos p) (Qden q)
  | Zneg p => - round64 (Zpos p) (Qden q)
  end.

(** The arithmetic of JavaScript numbers. *)
Definition binary64 : Rounding := {| rnd := rnd64 |}.

(** The double a decimal literal stands for. *)
Definition double (q : Q) : Q := rnd64 q.

(** The value of a double of the kernel, and the double of a decimal
    literal whose numerator and denominator are below [2 ^ 53]; they
    serve to compare [rnd64] with the kernel's binary64 operations. *)
Definition F2Q (f : float) : Q :=
  match Prim2SF f with
  | S754_finite s m e => scale (if s then Z.neg m else Z.pos m) e
  | _ => 0
  end.

Definition Z2F (z : Z) : float :=
  match z with
  | Z0 => 0%float
  | Zpos p => PrimFloat.of_uint63 (Uint63.of_Z (Zpos p))
  | Zneg p => PrimFloat.opp (PrimFloat.of_uint63 (Uint63.of_Z (Zpos p)))
  end.

Definition lit (q : Q) : float :=
  PrimFloat.div (Z2F (Qnum q)) (Z2F (Zpos (Qden q))).

(** [op] on the doubles of two literals gives what [rnd64] gives on the
    exact result. *)
Definition agrees (op : float -> float -> float) (qop : Q -> Q -> Q)
           (a b : Q) : bool :=
  Qeq_bool (F2Q (lit a)) (rnd64 a) && Qeq_bool (F2Q (lit b)) (rnd64 b)
  && Qeq_bool (F2Q (op (lit a) (lit b))) (rnd64 (qop (rnd64 a) (rnd64 b))).

(** [Math.max(...l)] and [Math.min(...l)] on a list the caller has checked
    to be non-empty; the empty case is the caller's [null]. *)
Definition maxOf (l : list Q) : option Q :=
  match l with
  | [] => None
  | x :: xs => Some (fold_left Qmax xs x)
  end.

Definition minOf (l : list Q) : option Q :=
  match l with
  | [] => None
  | x :: xs => Some (fold_left Qmin xs x)
  end.

(** [arr.sort(cmp)]: the sort is stable, so its result is the one of
    insertion sort; [leb a b] stands for [cmp(a, b) <= 0]. *)
Section SortBy.
Context {A : Type} (leb : A -> A -> bool).

Fixpoint insertBy (x : A) (l : list A) : list A :=
  match l with
  | [] => [x]
  | y :: l' => if leb x y then x :: y :: l'
               else y :: insertBy x l'
  end.

Fixpoint sortBy (l : list A) : list A :=
  match l with
  | [] => []
  | x :: l' => insertBy x (sortBy l')
  end.
End SortBy.

(** ** Shared data *)

(** A 1m candle as built by [CandleBuilder.handleKlineMessage]. *)
Record Candle := mkCandle {
  openTime : Z;
  closeTime : Z;
  open : Q;
  high : Q;
  low : Q;
  close : Q;
  volume : Q;
  isClosed : bool
}.

(** One price cluster of the footprint. *)
Record Cluster := mkCluster {
  cl_price : Q;
  buyVolume : Q;
  sellVolume : Q;
  cl_totalVolume : Q;
  cl_delta : Q
}.

(** The object returned by [FootprintEngine.calculate]. *)
Record Footprint := mkFootprint {
  clusters : list Cluster;
  poc : Q;
  pocVolume : Q;
  totalBuyVolume : Q;
  totalSellVolume : Q;
  totalVolume : Q;
  delta : Q;
  topClusterVolume : Q;
  bottomClusterVolume : Q;
  tradeCount : nat
}.

(** A confirmed swing: [{ price, time, idx }]. *)
Record Swing := mkSwing {
  price : Q;
  time : Z;
  idx : nat
}.

(** The object returned by [SwingDetector.getSweptLows]. *)
Record SweptLows := mkSweptLows {
  sl_swept : list Swing;
  sl_count : nat;
  highestSweptLevel : option Q;
  deepestLevel : option Q
}.

(** The object returned by [SwingDetector.getSweptHighs]. *)
Record SweptHighs := mkSweptHighs {
  sh_swept : list Swing;
  sh_count : nat;
  lowestSweptLevel : option Q;
  highestLevel : option Q
}.

(** The part of [config] the analytics read: [config.alert], [config.footprint]
    and [config.swing]. *)
Record Config := mkConfig {
  alert_deltaMultiplier : Q;
  alert_volumeMultiplier : Q;
  alert_rollingWindow : nat;
  footprint_priceClusterSize : Q;
  swing_lookback : nat;
  swing_maxPoolSize : nat;
  swing_minLevelsSwept : nat
}.

(** The defaults of config/index.js. *)
Definition defaultConfig : Config :=
  {| alert_deltaMultiplier := 2;
     alert_volumeMultiplier := 3 # 2;
     alert_rollingWindow := 20;
     footprint_priceClusterSize := 1 # 2;
     swing_lookback := 2;
     swing_maxPoolSize := 8;
     swing_minLevelsSwept := 2 |}.

(** ** utils/rollingStats.js *)
Module RollingStats.

Record t := mk {
  windowSize : nat;
  volumes : list Q;
  absDeltaValues : list Q;
  deltaValues : list Q
}.

Definition new (windowSize : nat) : t :=
  {| windowSize := windowSize;
     volumes := [];
     absDeltaValues := [];
     deltaValues := [] |}.

Definition push (s : t) (totalVolume delta : Q) : t :=
  let vs := volumes s ++ [totalVolume] in
  let ads := absDeltaValues s ++ [Qabs delta] in
  let ds := deltaValues s ++ [delta] in
  if (windowSize s <? length vs)%nat
  then {| windowSize := windowSize s;
          volumes := tl vs;
          absDeltaValues := tl ads;
          deltaValues := tl ds |}
  else {| windowSize := windowSize s;
          volumes := vs;
          absDeltaValues := ads;
          deltaValues := ds |}.

Section WithRounding.
Context {ar : Rounding}.

(** [l.reduce((a, b) => a + b, 0) / l.length], or [0] on an empty
    array. *)
Definition mean (l : list Q) : Q :=
  match l with
  | [] => 0
  | _ => fdiv (fsum l) (inject_Z (Z.of_nat (length l)))
  end.

Definition avgVolume (s : t) : Q := mean (volumes s).
Definition avgAbsDelta (s : t) : Q := mean (absDeltaValues s).
Definition avgDelta (s : t) : Q := mean (deltaValues s).

End WithRounding.

Definition isReady (s : t) : bool :=
  (windowSize s / 2 <=? length (volumes s))%nat.

Definition reset (s : t) : t := new (windowSize s).

End RollingStats.

(** ** detectors/AbsorptionDetector.js (pool-based version) *)
Module AbsorptionDetector.

Inductive PendingState := NONE | SHORT | LONG.

Definition PendingState_eqb (a b : PendingState) : bool :=
  match a, b with
  | NONE, NONE | SHORT, SHORT | LONG, LONG => true
  | _, _ => false
  end.

(** The ['SHORT'] and ['LONG'] tags of a result. *)
Inductive SignalType := SHORT_SIGNAL | LONG_SIGNAL.

Record Pending := mkPending {
  state : PendingState;
  candle : option Candle;
  footprint : option Footprint;
  sweptLows : option SweptLows;
  sweptHighs : option SweptHighs;
  sweepPrice : option Q;
  confirmCount : nat
}.

Definition _emptyPending : Pending :=
  {| state := NONE;
     candle := None;
     footprint := None;
     sweptLows := None;
     sweptHighs := None;
     sweepPrice := None;
     confirmCount := 0 |}.

Record t := mk {
  stats : RollingStats.t;
  minLevelsSwept : nat;
  pending : Pending;
  maxConfirmCandles : nat
}.

Definition new (cfg : Config) : t :=
  {| stats := RollingStats.new (alert_rollingWindow cfg);
     minLevelsSwept := swing_minLevelsSwept cfg;
     pending := _emptyPending;
     maxConfirmCandles := 2 |}.

Definition setPending (d : t) (p : Pending) : t :=
  {| stats := stats d;
     minLevelsSwept := minLevelsSwept d;
     pending := p;
     maxConfirmCandles := maxConfirmCandles d |}.

Definition updateStats (d : t) (totalVolume delta : Q) : t :=
  {| stats := RollingStats.push (stats d) totalVolume delta;
     minLevelsSwept := minLevelsSwept d;
     pending := pending d;
     maxConfirmCandles := maxConfirmCandles d |}.

(** The [data] object of a confirmed result.  The two [toFixed(2)]
    strings are kept as the quotient they print, [None] where the
    divisor is zero. *)
Record SignalData := mkSignalData {
  sweptLevels : list Q;
  sweptCount : nat;
  swingLevel : option Q;
  sd_sweepPrice : option Q;
  sd_delta : Q;
  sd_totalVolume : Q;
  sd_avgVolume : Q;
  sd_avgAbsDelta : Q;
  sd_poc : Q;
  candleClose : Q;
  volumeMultiple : option Q;
  deltaMultiple : option Q;
  sd_candle : Candle;
  sd_footprint : Footprint;
  sweptLowsInfo : option SweptLows;
  sweptHighsInfo : option SweptHighs
}.

(** [{ type: null }] or [{ type, data }]. *)
Inductive Result :=
| NoSignal
| Signal (type : SignalType) (data : SignalData).

(** The logger calls of the two methods, in the order they are made. *)
Inductive LogEvent :=
| DebugShortCandidate (count : nat)
| InfoShortCandidate (levels : list Q)
| DebugLongCandidate (count : nat)
| InfoLongCandidate (levels : list Q)
| InfoShortCancelled (high : Q)
| InfoLongCancelled (low : Q)
| InfoLimitCancelled.

(** What a call leaves behind: the detector, the value returned, the
    log lines written. *)
Record Outcome := mkOutcome {
  det : t;
  result : Result;
  log : list LogEvent
}.

(** A call either returns or throws a [TypeError] (a property read on
    [null]); the detector is kept as it was at the throw. *)
Inductive Completion :=
| Return (o : Outcome)
| TypeError (d : t).

Definition shortCandidate (c : Candle) (fp : Footprint) (sh : SweptHighs)
  : Pending :=
  {| state := SHORT;
     candle := Some c;
     footprint := Some fp;
     sweptLows := None;
     sweptHighs := Some sh;
     sweepPrice := Some (high c);
     confirmCount := 0 |}.

Definition longCandidate (c : Candle) (fp : Footprint) (sl : SweptLows)
  : Pending :=
  {| state := LONG;
     candle := Some c;
     footprint := Some fp;
     sweptLows := Some sl;
     sweptHighs := None;
     sweepPrice := Some (low c);
     confirmCount := 0 |}.

Section WithRounding.
Context {ar : Rounding}.

Section WithConfig.
Variable cfg : Config.

Definition checkCandle (d : t) (c : Candle) (fpo : option Footprint)
           (sl : SweptLows) (sh : SweptHighs) : Outcome :=
  match fpo with
  | None => mkOutcome d NoSignal []
  | Some fp =>
    if negb (RollingStats.isReady (stats d)) then mkOutcome d NoSignal []
    else
      let avgVol := RollingStats.avgVolume (stats d) in
      let avgAbsDelta := RollingStats.avgAbsDelta (stats d) in
      let shortSweep := (minLevelsSwept d <=? sh_count sh)%nat in
      let deltaThreshold := fmul avgAbsDelta (alert_deltaMultiplier cfg) in
      let volThreshold := fmul avgVol (alert_volumeMultiplier cfg) in
      let deltaSpikeS := Qltb deltaThreshold (delta fp) in
      let volSpike := Qltb volThreshold (totalVolume fp) in
      let closeBelowPOC := Qltb (close c) (poc fp) in
      if shortSweep && (deltaSpikeS && volSpike && closeBelowPOC) then
        mkOutcome (setPending d (shortCandidate c fp sh)) NoSignal
                  [DebugShortCandidate (sh_count sh);
                   InfoShortCandidate (map price (sh_swept sh))]
      else
        let logS := if shortSweep then [DebugShortCandidate (sh_count sh)]
                    else [] in
        let longSweep := (minLevelsSwept d <=? sl_count sl)%nat in
        let deltaSpikeL := Qltb (delta fp) (- deltaThreshold) in
        let closeAbovePOC := Qltb (poc fp) (close c) in
        if longSweep && (deltaSpikeL && volSpike && closeAbovePOC) then
          mkOutcome (setPending d (longCandidate c fp sl)) NoSignal
                    (logS ++ [DebugLongCandidate (sl_count sl);
                              InfoLongCandidate (map price (sl_swept sl))])
        else
          mkOutcome d NoSignal
                    (logS ++ if longSweep
                             then [DebugLongCandidate (sl_count sl)]
                             else [])
  end.

End WithConfig.

Definition ratio (a b : Q) : option Q :=
  if Qeq_bool b 0 then None else Some (fdiv a b).

(** [_buildResult(type)]; [None] is the [TypeError] of reading a property
    of a [null] field of [pending]. *)
Definition _buildResult (d : t) (type : SignalType) : option Result :=
  let p := pending d in
  let sweptInfo :=
    match type with
    | SHORT_SIGNAL =>
        option_map (fun sh => (sh_swept sh, sh_count sh, highestLevel sh))
                   (sweptHighs p)
    | LONG_SIGNAL =>
        option_map (fun sl => (sl_swept sl, sl_count sl, highestSweptLevel sl))
                   (sweptLows p)
    end in
  match sweptInfo, footprint p, candle p with
  | Some (swept, count, level), Some fp, Some c =>
      Some (Signal type
        {| sweptLevels := sortBy Qle_bool (map price swept);
           sweptCount := count;
           swingLevel := level;
           sd_sweepPrice := sweepPrice p;
           sd_delta := delta fp;
           sd_totalVolume := totalVolume fp;
           sd_avgVolume := RollingStats.avgVolume (stats d);
           sd_avgAbsDelta := RollingStats.avgAbsDelta (stats d);
           sd_poc := poc fp;
           candleClose := close c;
           volumeMultiple :=
             ratio (totalVolume fp) (RollingStats.avgVolume (stats d));
           deltaMultiple :=
             ratio (Qabs (delta fp)) (RollingStats.avgAbsDelta (stats d));
           sd_candle := c;
           sd_footprint := fp;
           sweptLowsInfo := sweptLows p;
           sweptHighsInfo := sweptHighs p |})
  | _, _, _ => None
  end.

Definition _clearPending (d : t) : t := setPending d _emptyPending.

(** [this.pending.confirmCount++] *)
Definition bumpConfirmCount (d : t) : t :=
  let p := pending d in
  setPending d {| state := state p;
                  candle := candle p;
                  footprint := footprint p;
                  sweptLows := sweptLows p;
                  sweptHighs := sweptHighs p;
                  sweepPrice := sweepPrice p;
                  confirmCount := S (confirmCount p) |}.

(** The body of [checkConfirmation] after the counter is incremented. *)
Definition resolvePending (d1 : t) (c : Candle) : Completion :=
  if PendingState_eqb (state (pending d1)) SHORT then
    if Qltb (toNumber (sweepPrice (pending d1))) (high c) then
      Return (mkOutcome (_clearPending d1) NoSignal
                        [InfoShortCancelled (high c)])
    else
      match _buildResult d1 SHORT_SIGNAL with
      | Some r => Return (mkOutcome (_clearPending d1) r [])
      | None => TypeError d1
      end
  else if PendingState_eqb (state (pending d1)) LONG then
    if Qltb (low c) (toNumber (sweepPrice (pending d1))) then
      Return (mkOutcome (_clearPending d1) NoSignal
                        [InfoLongCancelled (low c)])
    else
      match _buildResult d1 LONG_SIGNAL with
      | Some r => Return (mkOutcome (_clearPending d1) r [])
      | None => TypeError d1
      end
  else if (maxConfirmCandles d1 <=? confirmCount (pending d1))%nat then
    Return (mkOutcome (_clearPending d1) NoSignal [InfoLimitCancelled])
  else
    Return (mkOutcome d1 NoSignal []).

Definition checkConfirmation (d : t) (c : Candle) (fpo : option Footprint)
  : Completion :=
  if PendingState_eqb (state (pending d)) NONE
  then Return (mkOutcome d NoSignal [])
  else resolvePending (bumpConfirmCount d) c.

Definition hasPending (d : t) : bool :=
  negb (PendingState_eqb (state (pending d)) NONE).

(** States the detector can be in: any interleaving of the public
    methods, with any arguments, starting from the constructor. *)
Inductive reachable (cfg : Config) : t -> Prop :=
| reach_new : reachable cfg (new cfg)
| reach_updateStats d v dl :
    reachable cfg d -> reachable cfg (updateStats d v dl)
| reach_checkCandle d c fpo sl sh :
    reachable cfg d -> reachable cfg (det (checkCandle cfg d c fpo sl sh))
| reach_checkConfirmation d c fpo o :
    reachable cfg d -> checkConfirmation d c fpo = Return o ->
    reachable cfg (det o).

End WithRounding.

End AbsorptionDetector.

(** ** engines/FootprintEngine.js *)
Module FootprintEngine.

(** The fields of an aggTrade message the engine reads, [p] and [q]
    already through [parseFloat]. *)
Record AggTrade := mkAggTrade {
  e : string;
  p : Q;
  q : Q;
  m : bool
}.

(** [clusters] is the [Map] from price level to cluster, as the list of
    its values in insertion order; a cluster carries its key in
    [cl_price]. *)
Record t := mk {
  e_clusters : list Cluster;
  e_totalBuyVolume : Q;
  e_totalSellVolume : Q;
  e_tradeCount : nat;
  candleOpenTime : option Z
}.

Definition new : t :=
  {| e_clusters := [];
     e_totalBuyVolume := 0;
     e_totalSellVolume := 0;
     e_tradeCount := 0;
     candleOpenTime := None |}.

Definition reset (s : t) : t := new.

(** [Math.round(x)]: the nearest integer, halves going up. *)
Definition round (x : Q) : Q := inject_Z (Qfloor (x + (1 # 2))).

Section WithRounding.
Context {ar : Rounding}.

(** [Math.round(price / size) * size] *)
Definition _snapToCluster (cfg : Config) (price : Q) : Q :=
  fmul (round (fdiv price (footprint_priceClusterSize cfg)))
       (footprint_priceClusterSize cfg).

(** [clusters.has(level)] *)
Definition has (cs : list Cluster) (level : Q) : bool :=
  existsb (fun c => Qeq_bool (cl_price c) level) cs.

(** The mutation of the object [clusters.get(level)]. *)
Fixpoint updateAt (level : Q) (f : Cluster -> Cluster) (cs : list Cluster)
  : list Cluster :=
  match cs with
  | [] => []
  | c :: cs' => if Qeq_bool (cl_price c) level then f c :: cs'
                else c :: updateAt level f cs'
  end.

Definition addTrade (isBuyerMaker : bool) (qty : Q) (c : Cluster) : Cluster :=
  let sell := if isBuyerMaker then fadd (sellVolume c) qty
              else sellVolume c in
  let buy := if isBuyerMaker then buyVolume c else fadd (buyVolume c) qty in
  {| cl_price := cl_price c;
     buyVolume := buy;
     sellVolume := sell;
     cl_totalVolume := fadd buy sell;
     cl_delta := fsub buy sell |}.

Definition handleTrade (cfg : Config) (s : t) (msg : AggTrade) : t :=
  if negb (String.eqb (e msg) "aggTrade") then s
  else
    let level := _snapToCluster cfg (p msg) in
    let cs := if has (e_clusters s) level then e_clusters s
              else e_clusters s ++ [mkCluster level 0 0 0 0] in
    {| e_clusters := updateAt level (addTrade (m msg) (q msg)) cs;
       e_totalBuyVolume := if m msg then e_totalBuyVolume s
                           else fadd (e_totalBuyVolume s) (q msg);
       e_totalSellVolume := if m msg then fadd (e_totalSellVolume s) (q msg)
                            else e_totalSellVolume s;
       e_tradeCount := S (e_tradeCount s);
       candleOpenTime := candleOpenTime s |}.

(** [(a, b) => a.price - b.price] *)
Definition byPrice (a b : Cluster) : bool :=
  Qle_bool (cl_price a) (cl_price b).

(** [(max, c) => c.totalVolume > max.totalVolume ? c : max] *)
Definition pickPoc (max c : Cluster) : Cluster :=
  if Qltb (cl_totalVolume max) (cl_totalVolume c) then c else max.

Definition calculate (s : t) : option Footprint :=
  match e_clusters s with
  | [] => None
  | _ :: _ =>
    match sortBy byPrice (e_clusters s) with
    | [] => None
    | first :: rest =>
      let clusterArray := first :: rest in
      let poc := fold_left pickPoc clusterArray first in
      let topCluster := last clusterArray first in
      let bottomCluster := first in
      Some {| clusters := clusterArray;
              poc := cl_price poc;
              pocVolume := cl_totalVolume poc;
              totalBuyVolume := e_totalBuyVolume s;
              totalSellVolume := e_totalSellVolume s;
              totalVolume := fadd (e_totalBuyVolume s) (e_totalSellVolume s);
              delta := fsub (e_totalBuyVolume s) (e_totalSellVolume s);
              topClusterVolume := cl_totalVolume topCluster;
              bottomClusterVolume := cl_totalVolume bottomCluster;
              tradeCount := e_tradeCount s |}
    end
  end.

(** Engine states: any sequence of [handleTrade] and [reset] after the
    constructor. *)
Inductive reachable (cfg : Config) : t -> Prop :=
| reach_new : reachable cfg new
| reach_handleTrade s msg :
    reachable cfg s -> reachable cfg (handleTrade cfg s msg)
| reach_reset s : reachable cfg s -> reachable cfg (reset s).

End WithRounding.

End FootprintEngine.

(** ** engines/CandleBuilder.js *)

(** The 15m candle built by [_create15mFrom1m]. *)
Module Candle15m.
Record t := mk {
  windowId : Z;
  openTime : Z;
  open : Q;
  high : Q;
  low : Q;
  close : Q;
  volume : Q;
  count : nat
}.
End Candle15m.

Module CandleBuilder.

Record t := mk {
  current1m : option Candle;
  closed1mBuffer : list Candle;
  closed15m : list Candle15m.t;
  max15mHistory : nat;
  current15m : option Candle15m.t
}.

Definition new : t :=
  {| current1m := None;
     closed1mBuffer := [];
     closed15m := [];
     max15mHistory := 60;
     current15m := None |}.

(** The events given to [emit], with their payload. *)
Inductive Event :=
| Close1m (c : Candle)
| Close15m (c : Candle15m.t).

Definition windowIdOf (c : Candle) : Z :=
  (openTime c / (15 * 60 * 1000))%Z.

Definition _create15mFrom1m (c : Candle) (windowId : Z) : Candle15m.t :=
  {| Candle15m.windowId := windowId;
     Candle15m.openTime := openTime c;
     Candle15m.open := open c;
     Candle15m.high := high c;
     Candle15m.low := low c;
     Candle15m.close := close c;
     Candle15m.volume := volume c;
     Candle15m.count := 1 |}.

Section WithRounding.
Context {ar : Rounding}.

Definition _update15m (b : Candle15m.t) (c : Candle) : Candle15m.t :=
  {| Candle15m.windowId := Candle15m.windowId b;
     Candle15m.openTime := Candle15m.openTime b;
     Candle15m.open := Candle15m.open b;
     Candle15m.high := Qmax (Candle15m.high b) (high c);
     Candle15m.low := Qmin (Candle15m.low b) (low c);
     Candle15m.close := close c;
     Candle15m.volume := fadd (Candle15m.volume b) (volume c);
     Candle15m.count := S (Candle15m.count b) |}.

(** [_close15m]: the history after the push and the trim ([shift] drops
    the oldest entry), and the event emitted. *)
Definition _close15m (s : t) (b : Candle15m.t) : t * list Event :=
  let pushed := closed15m s ++ [b] in
  let trimmed := if (max15mHistory s <? length pushed)%nat
                 then tl pushed else pushed in
  ({| current1m := current1m s;
      closed1mBuffer := closed1mBuffer s;
      closed15m := trimmed;
      max15mHistory := max15mHistory s;
      current15m := current15m s |},
   [Close15m b]).

Definition setCurrent15m (s : t) (b : Candle15m.t) : t :=
  {| current1m := current1m s;
     closed1mBuffer := closed1mBuffer s;
     closed15m := closed15m s;
     max15mHistory := max15mHistory s;
     current15m := Some b |}.

Definition _on1mClose (s : t) (c : Candle) : t * list Event :=
  let windowId := windowIdOf c in
  match current15m s with
  | None => (setCurrent15m s (_create15mFrom1m c windowId), [Close1m c])
  | Some b =>
    if (windowId =? Candle15m.windowId b)%Z then
      (setCurrent15m s (_update15m b c), [Close1m c])
    else
      let '(s1, ev) := _close15m s b in
      (setCurrent15m s1 (_create15mFrom1m c windowId), Close1m c :: ev)
  end.

(** [handleKlineMessage], with [msg.k] already turned into the candle. *)
Definition handleKlineMessage (s : t) (e : string) (k : Candle)
  : t * list Event :=
  if negb (String.eqb e "kline") then (s, [])
  else
    let s1 := {| current1m := Some k;
                 closed1mBuffer := closed1mBuffer s;
                 closed15m := closed15m s;
                 max15mHistory := max15mHistory s;
                 current15m := current15m s |} in
    if isClosed k then _on1mClose s1 k else (s1, []).

Definition getClosed15m (s : t) : list Candle15m.t := closed15m s.

(** Feeding a sequence of closed 1m candles, events in emission order. *)
Fixpoint feed (s : t) (cs : list Candle) : t * list Event :=
  match cs with
  | [] => (s, [])
  | c :: cs' =>
    let '(s1, ev1) := _on1mClose s c in
    let '(s2, ev2) := feed s1 cs' in
    (s2, ev1 ++ ev2)
  end.

End WithRounding.

(** The payloads of the 15mClose events of a trace. *)
Fixpoint closes15m (ev : list Event) : list Candle15m.t :=
  match ev with
  | [] => []
  | Close15m b :: ev' => b :: closes15m ev'
  | Close1m _ :: ev' => closes15m ev'
  end.

End CandleBuilder.

(** ** detectors/SwingDetector.js (pool-based version) *)
Module SwingDetector.

Record t := mk {
  lookback : nat;
  maxPoolSize : nat;
  swingHighPool : list Swing;
  swingLowPool : list Swing
}.

Definition new (cfg : Config) : t :=
  {| lookback := swing_lookback cfg;
     maxPoolSize := swing_maxPoolSize cfg;
     swingHighPool := [];
     swingLowPool := [] |}.

(** The [logger.info] lines of [update]. *)
Inductive LogEvent :=
| InfoSwingHigh (entry : Swing)
| InfoSwingLow (entry : Swing).

(** [(a, b) => a.time - b.time] *)
Definition byTime (a b : Swing) : bool := (time a <=? time b)%Z.

(** [_addToPool]: push, sort by time, shift while over the bound. *)
Definition _addToPool (maxPool : nat) (pool : list Swing) (entry : Swing)
  : list Swing :=
  let sorted := sortBy byTime (pool ++ [entry]) in
  skipn (length sorted - maxPool) sorted.

(** [pool.some(s => s.time === t)] *)
Definition already (pool : list Swing) (t : Z) : bool :=
  existsb (fun s => (time s =? t)%Z) pool.

(** The body of a [for (let i = 1; i <= lookback; i++)] loop whose
    iterations either break with [false] or go on: [viol i] tells whether
    iteration [i] breaks, [None] when it reads a candle that is not
    there. *)
Fixpoint scan (viol : nat -> option bool) (ixs : list nat) : option bool :=
  match ixs with
  | [] => Some true
  | i :: ixs' =>
    match viol i with
    | None => None
    | Some true => Some false
    | Some false => scan viol ixs'
    end
  end.

(** [candles15m[idx - i].f >= x || candles15m[idx + i].f >= x], with the
    order of [>=] given by [geb].  [update] runs the loop only after its
    test [idx < lookback] failed, so [idx - i] is not negative there. *)
Definition violates (candles15m : list Candle15m.t) (f : Candle15m.t -> Q)
           (geb : Q -> Q -> bool) (idx : nat) (x : Q) (i : nat)
  : option bool :=
  match nth_error candles15m (idx - i) with
  | None => None
  | Some l =>
    if geb (f l) x then Some true
    else match nth_error candles15m (idx + i) with
         | None => None
         | Some r => Some (geb (f r) x)
         end
  end.

(** [a >= b] and [a <= b] *)
Definition Qgeb (a b : Q) : bool := Qle_bool b a.
Definition Qleb (a b : Q) : bool := Qle_bool a b.

Definition isSwingHigh (candles15m : list Candle15m.t) (L idx : nat)
           (candidate : Candle15m.t) : option bool :=
  scan (violates candles15m Candle15m.high Qgeb idx
                 (Candle15m.high candidate))
       (seq 1 L).

Definition isSwingLow (candles15m : list Candle15m.t) (L idx : nat)
           (candidate : Candle15m.t) : option bool :=
  scan (violates candles15m Candle15m.low Qleb idx
                 (Candle15m.low candidate))
       (seq 1 L).

Definition highEntry (candidate : Candle15m.t) (idx : nat) : Swing :=
  {| price := Candle15m.high candidate;
     time := Candle15m.openTime candidate;
     idx := idx |}.

Definition lowEntry (candidate : Candle15m.t) (idx : nat) : Swing :=
  {| price := Candle15m.low candidate;
     time := Candle15m.openTime candidate;
     idx := idx |}.

(** [update]; [None] is a [TypeError] (a candle read outside the
    array). *)
Definition update (s : t) (candles15m : list Candle15m.t)
  : option (t * list LogEvent) :=
  let len := length candles15m in
  if (len <? lookback s * 2 + 1)%nat then Some (s, [])
  else
    let idx := (len - 1 - lookback s)%nat in
    if (idx <? lookback s)%nat then Some (s, [])
    else
      match nth_error candles15m idx with
      | None => None
      | Some candidate =>
        let alreadyHigh :=
          already (swingHighPool s) (Candle15m.openTime candidate) in
        let alreadyLow :=
          already (swingLowPool s) (Candle15m.openTime candidate) in
        let highStep :=
          if alreadyHigh then Some (swingHighPool s, [])
          else
            match isSwingHigh candles15m (lookback s) idx candidate with
            | None => None
            | Some true =>
                Some (_addToPool (maxPoolSize s) (swingHighPool s)
                                 (highEntry candidate idx),
                      [InfoSwingHigh (highEntry candidate idx)])
            | Some false => Some (swingHighPool s, [])
            end in
        match highStep with
        | None => None
        | Some (highPool, logH) =>
          let lowStep :=
            if alreadyLow then Some (swingLowPool s, [])
            else
              match isSwingLow candles15m (lookback s) idx candidate with
              | None => None
              | Some true =>
                  Some (_addToPool (maxPoolSize s) (swingLowPool s)
                                   (lowEntry candidate idx),
                        [InfoSwingLow (lowEntry candidate idx)])
              | Some false => Some (swingLowPool s, [])
              end in
          match lowStep with
          | None => None
          | Some (lowPool, logL) =>
            Some ({| lookback := lookback s;
                     maxPoolSize := maxPoolSize s;
                     swingHighPool := highPool;
                     swingLowPool := lowPool |},
                  logH ++ logL)
          end
        end
      end.

Definition getSweptLows (s : t) (candleLow : Q) : SweptLows :=
  let swept := filter (fun x => Qltb candleLow (price x)) (swingLowPool s) in
  {| sl_swept := swept;
     sl_count := length swept;
     highestSweptLevel := maxOf (map price swept);
     deepestLevel := minOf (map price swept) |}.

Definition getSweptHighs (s : t) (candleHigh : Q) : SweptHighs :=
  let swept := filter (fun x => Qltb (price x) candleHigh) (swingHighPool s) in
  {| sh_swept := swept;
     sh_count := length swept;
     lowestSweptLevel := minOf (map price swept);
     highestLevel := maxOf (map price swept) |}.

(** [sweptTimes.has(t)] for [sweptTimes = new Set(sweptLevels.map(s =>
    s.time))]. *)
Definition sweptTimesHas (sweptLevels : list Swing) (t : Z) : bool :=
  existsb (fun x => (time x =? t)%Z) sweptLevels.

Definition clearSweptLevels (s : t) (type : string)
           (sweptLevels : list Swing) : t :=
  let keep := fun x => negb (sweptTimesHas sweptLevels (time x)) in
  if String.eqb type "high" then
    {| lookback := lookback s;
       maxPoolSize := maxPoolSize s;
       swingHighPool := filter keep (swingHighPool s);
       swingLowPool := swingLowPool s |}
  else
    {| lookback := lookback s;
       maxPoolSize := maxPoolSize s;
       swingHighPool := swingHighPool s;
       swingLowPool := filter keep (swingLowPool s) |}.

Definition getStatus (s : t) : list Q * list Q :=
  (map price (swingHighPool s), map price (swingLowPool s)).

End SwingDetector.

(** ** The orchestrator of the pool-based detectors *)
Module Orchestrator.

(** The detectors the confirmation step works on. *)
Record t := mk {
  swingDetector : SwingDetector.t;
  absorptionDetector : AbsorptionDetector.t
}.


Section WithRounding.
Context {ar : Rounding}.


End WithRounding.

End Orchestrator.

(** ** services/AlertService.js (pool-based version) *)
Module AlertService.

(** The fields of the service: the time of the last alert sent, the
    cooldown, and the [Set] of recent hashes as the list of its values in
    insertion order.  The Telegram client is outside the model: whether
    [sendMessage] resolved is an input, and so is [Date.now()].
    [_sendAlert] is [async]: it reads the fields, awaits [sendMessage],
    and writes the fields after the await, so other calls can run in
    between; it is modelled in its two halves. *)
Record t := mk {
  lastAlertTime : Z;
  cooldownMs : Z;
  recentAlertHashes : list string;
  maxRecentHashes : nat
}.

(** The constructor, [cooldown] being [config.alert.cooldownMs]. *)
Definition new (cooldown : Z) : t :=
  {| lastAlertTime := 0;
     cooldownMs := cooldown;
     recentAlertHashes := [];
     maxRecentHashes := 20 |}.

(** [set.has(h)] and [set.add(h)] *)
Definition has (set : list string) (h : string) : bool :=
  existsb (String.eqb h) set.

Definition add (set : list string) (h : string) : list string :=
  if has set h then set else set ++ [h].

(** What a call holds across its [await]. *)
Record Suspended := mkSuspended {
  s_now : Z;
  s_hash : string
}.

Definition typeName (type : AbsorptionDetector.SignalType) : string :=
  match type with
  | AbsorptionDetector.SHORT_SIGNAL => "SHORT"
  | AbsorptionDetector.LONG_SIGNAL => "LONG"
  end.

Section WithNumberToString.
(** How a number is written in a template literal and by [join]. *)
Variable numberToString : Q -> string.

(** [`${type}_${data.sweptLevels.join('_')}`] *)
Definition alertHash (type : AbsorptionDetector.SignalType)
           (data : AbsorptionDetector.SignalData) : string :=
  String.append (typeName type)
    (String.append "_"
       (String.concat "_"
          (map numberToString (AbsorptionDetector.sweptLevels data)))).

(** [_sendAlert(type, data)] at time [now], up to its [await]: [None]
    when it returns [false] at the cooldown test or at the duplicate
    test; otherwise the message is handed to [sendMessage] and the call
    is suspended, holding its [now] and its [alertHash]. *)
Definition _sendAlert_begin (s : t) (now : Z)
           (type : AbsorptionDetector.SignalType)
           (data : AbsorptionDetector.SignalData) : option Suspended :=
  let timeSinceLast := (now - lastAlertTime s)%Z in
  if (timeSinceLast <? cooldownMs s)%Z then None
  else
    let h := alertHash type data in
    if has (recentAlertHashes s) h then None
    else Some {| s_now := now; s_hash := h |}.

(** A suspended call past its [await], on the service as it is then;
    [delivered] tells whether [sendMessage] resolved. *)
Definition _sendAlert_resume (s : t) (k : Suspended) (delivered : bool)
  : t * bool :=
  if delivered then
    let added := add (recentAlertHashes s) (s_hash k) in
    let trimmed := if (maxRecentHashes s <? length added)%nat
                   then tl added else added in
    ({| lastAlertTime := s_now k;
        cooldownMs := cooldownMs s;
        recentAlertHashes := trimmed;
        maxRecentHashes := maxRecentHashes s |}, true)
  else (s, false).

(** A call during whose [await] no other call runs. *)
Definition _sendAlert (s : t) (now : Z)
           (type : AbsorptionDetector.SignalType)
           (data : AbsorptionDetector.SignalData) (delivered : bool)
  : t * bool :=
  match _sendAlert_begin s now type data with
  | None => (s, false)
  | Some k => _sendAlert_resume s k delivered
  end.

Definition sendShortAlert (s : t) (now : Z)
           (data : AbsorptionDetector.SignalData) (delivered : bool)
  : t * bool :=
  _sendAlert s now AbsorptionDetector.SHORT_SIGNAL data delivered.

Definition sendLongAlert (s : t) (now : Z)
           (data : AbsorptionDetector.SignalData) (delivered : bool)
  : t * bool :=
  _sendAlert s now AbsorptionDetector.LONG_SIGNAL data delivered.

End WithNumberToString.

End AlertService.

(** ** services/Bot.js: from the kline stream to the pivot pools *)
Module CandlePipeline.

(** The candle builder and the swing detector of the bot.  The 15mClose
    listener of [_bindCandleEvents] is the one that writes to the swing
    detector; it runs inside [emit], when the history is already
    updated. *)
Record t := mk {
  candleBuilder : CandleBuilder.t;
  swingDetector : SwingDetector.t
}.

Definition new (cfg : Config) : t :=
  {| candleBuilder := CandleBuilder.new;
     swingDetector := SwingDetector.new cfg |}.

(** One call of [swingDetector.update] by the listener. *)
Record UpdateCall := mkUpdateCall {
  before : SwingDetector.t;
  candles : list Candle15m.t;
  after : SwingDetector.t;
  log : list SwingDetector.LogEvent
}.

(** The 15mClose listener on the events of one step:
    [swingDetector.update(candleBuilder.getClosed15m())] for each
    15mClose; [None] is a [TypeError] of [update]. *)
Fixpoint listen (cb : CandleBuilder.t) (sd : SwingDetector.t)
         (ev : list CandleBuilder.Event)
  : option (SwingDetector.t * list UpdateCall) :=
  match ev with
  | [] => Some (sd, [])
  | CandleBuilder.Close1m _ :: ev' => listen cb sd ev'
  | CandleBuilder.Close15m _ :: ev' =>
    match SwingDetector.update sd (CandleBuilder.getClosed15m cb) with
    | None => None
    | Some (sd1, lg) =>
      match listen cb sd1 ev' with
      | None => None
      | Some (sd2, calls) =>
        Some (sd2,
              mkUpdateCall sd (CandleBuilder.getClosed15m cb) sd1 lg :: calls)
      end
    end
  end.

Section WithRounding.
Context {ar : Rounding}.

(** A closed 1m candle through [CandleBuilder._on1mClose] and the
    listener. *)
Definition step (p : t) (c : Candle) : option (t * list UpdateCall) :=
  let '(cb, ev) := CandleBuilder._on1mClose (candleBuilder p) c in
  match listen cb (swingDetector p) ev with
  | None => None
  | Some (sd, calls) =>
    Some ({| candleBuilder := cb; swingDetector := sd |}, calls)
  end.

Fixpoint runAll (p : t) (cs : list Candle) : option (t * list UpdateCall) :=
  match cs with
  | [] => Some (p, [])
  | c :: cs' =>
    match step p c with
    | None => None
    | Some (p1, calls1) =>
      match runAll p1 cs' with
      | None => None
      | Some (p2, calls2) => Some (p2, calls1 ++ calls2)
      end
    end
  end.

End WithRounding.

End CandlePipeline.

(** ** services/WebSocketManager.js *)
Module WebSocketManager.

(** [config.websocket], as [parseInt] leaves it. *)
Record WsConfig := mkWsConfig {
  reconnectDelayMs : Z;
  maxReconnectAttempts : Z
}.

(** The fields the handlers branch on; the socket and the ping interval
    belong to the environment. *)
Record t := mk {
  isConnected : bool;
  reconnectAttempts : nat;
  shouldReconnect : bool
}.

Definition new : t :=
  {| isConnected := false; reconnectAttempts := 0; shouldReconnect := true |}.

(** What the manager emits, and the timers it sets. *)
Inductive Event :=
| Connected
| Disconnected
| MaxReconnectReached
| SetTimeout (delay : Z).

Section WithConfig.
Variable cfg : WsConfig.

Definition _scheduleReconnect (s : t) : t * list Event :=
  if (maxReconnectAttempts cfg <=? Z.of_nat (reconnectAttempts s))%Z
  then (s, [MaxReconnectReached])
  else
    let delay := Z.min (reconnectDelayMs cfg
                        * 2 ^ Z.of_nat (reconnectAttempts s)) 60000 in
    ({| isConnected := isConnected s;
        reconnectAttempts := S (reconnectAttempts s);
        shouldReconnect := shouldReconnect s |},
     [SetTimeout delay]).

(** [connect]; [throws] tells whether [new WebSocket(url)] throws. *)
Definition connect (s : t) (throws : bool) : t * list Event :=
  if throws then _scheduleReconnect s else (s, []).

Definition disconnect (s : t) : t * list Event :=
  ({| isConnected := false;
      reconnectAttempts := reconnectAttempts s;
      shouldReconnect := false |}, []).

Definition _onOpen (s : t) : t * list Event :=
  ({| isConnected := true;
      reconnectAttempts := 0;
      shouldReconnect := shouldReconnect s |}, [Connected]).

Definition _onClose (s : t) : t * list Event :=
  let s1 := {| isConnected := false;
               reconnectAttempts := reconnectAttempts s;
               shouldReconnect := shouldReconnect s |} in
  if shouldReconnect s then
    let '(s2, ev) := _scheduleReconnect s1 in (s2, Disconnected :: ev)
  else (s1, [Disconnected]).

(** The callback given to [setTimeout]. *)
Definition timerFires (s : t) (throws : bool) : t * list Event :=
  if shouldReconnect s then connect s throws else (s, []).

(** The calls the manager receives: from its user, from the socket and
    from its timers. *)
Inductive Call :=
| CallConnect (throws : bool)
| CallDisconnect
| CallOnOpen
| CallOnClose
| CallTimer (throws : bool).

Definition handle (s : t) (c : Call) : t * list Event :=
  match c with
  | CallConnect throws => connect s throws
  | CallDisconnect => disconnect s
  | CallOnOpen => _onOpen s
  | CallOnClose => _onClose s
  | CallTimer throws => timerFires s throws
  end.

Fixpoint run (s : t) (cs : list Call) : t * list Event :=
  match cs with
  | [] => (s, [])
  | c :: cs' =>
    let '(s1, ev1) := handle s c in
    let '(s2, ev2) := run s1 cs' in
    (s2, ev1 ++ ev2)
  end.

End WithConfig.

End WebSocketManager.

(** * Specifications *)

(** ** Selections of a list *)

(** [keeps P l out]: [out] is [l] without its elements that do not
    satisfy [P]; the others stay, in their order and as many times as
    they occur in [l]. *)
Inductive keeps {A : Type} (P : A -> Prop) : list A -> list A -> Prop :=
| keeps_nil : keeps P [] []
| keeps_take a l out : P a -> keeps P l out -> keeps P (a :: l) (a :: out)
| keeps_drop a l out : ~ P a -> keeps P l out -> keeps P (a :: l) out.

(** ** Extremes of a list *)

(** [None] on the empty list, else the greatest (least) element. *)
Definition isMaxOf (l : list Q) (r : option Q) : Prop :=
  match r with
  | None => l = []
  | Some m => In m l /\ forall x, In x l -> x <= m
  end.

Definition isMinOf (l : list Q) (r : option Q) : Prop :=
  match r with
  | None => l = []
  | Some m => In m l /\ forall x, In x l -> m <= x
  end.

(** ** Candidacy conditions of [AbsorptionDetector.checkCandle] *)
Module Candidacy.
Import AbsorptionDetector.

Section WithConfig.
Context {ar : Rounding}.
Variable cfg : Config.

(** The two thresholds: the mean times the multiplier, as JavaScript
    computes the product. *)
Definition deltaThreshold (d : t) : Q :=
  fmul (RollingStats.avgAbsDelta (stats d)) (alert_deltaMultiplier cfg).

Definition volumeThreshold (d : t) : Q :=
  fmul (RollingStats.avgVolume (stats d)) (alert_volumeMultiplier cfg).

Definition upper (d : t) (c : Candle) (fp : Footprint) (sh : SweptHighs)
  : Prop :=
  (minLevelsSwept d <= sh_count sh)%nat /\
  deltaThreshold d < delta fp /\
  volumeThreshold d < totalVolume fp /\
  close c < poc fp.

Definition lower (d : t) (c : Candle) (fp : Footprint) (sl : SweptLows)
  : Prop :=
  (minLevelsSwept d <= sl_count sl)%nat /\
  delta fp < - deltaThreshold d /\
  volumeThreshold d < totalVolume fp /\
  poc fp < close c.
End WithConfig.

(** The call wrote a new SHORT (LONG) candidate: the branch that assigns
    [this.pending] is the one that logs the candidate line. *)
Definition registersShort (o : Outcome) : Prop :=
  exists levels, In (InfoShortCandidate levels) (log o).

Definition registersLong (o : Outcome) : Prop :=
  exists levels, In (InfoLongCandidate levels) (log o).

(** The LONG branch was entered: its debug line was written. *)
Definition evaluatesLong (o : Outcome) : Prop :=
  exists n, In (DebugLongCandidate n) (log o).

(** The pending record of an upper-sweep (lower-sweep) candidate. *)
Definition pendingUpper (c0 : Candle) (fp0 : Footprint) (sh : SweptHighs)
           (sweep : Q) (n : nat) : Pending :=
  {| state := SHORT;
     candle := Some c0;
     footprint := Some fp0;
     sweptLows := None;
     sweptHighs := Some sh;
     sweepPrice := Some sweep;
     confirmCount := n |}.

Definition pendingLower (c0 : Candle) (fp0 : Footprint) (sl : SweptLows)
           (sweep : Q) (n : nat) : Pending :=
  {| state := LONG;
     candle := Some c0;
     footprint := Some fp0;
     sweptLows := Some sl;
     sweptHighs := None;
     sweepPrice := Some sweep;
     confirmCount := n |}.

(** The detector [d] with [p] as its pending record. *)
Definition withPending (d : t) (p : Pending) : t :=
  {| stats := stats d;
     minLevelsSwept := minLevelsSwept d;
     pending := p;
     maxConfirmCandles := maxConfirmCandles d |}.

(** The pending record with no candidate. *)
Definition idle : Pending :=
  {| state := NONE;
     candle := None;
     footprint := None;
     sweptLows := None;
     sweptHighs := None;
     sweepPrice := None;
     confirmCount := 0 |}.

(** Shape of the pending record in every state the methods produce:
    idle, or a candidate whose sweep price is the high (low) of its
    candle and whose counter is 0. *)
Definition wellFormed (p : Pending) : Prop :=
  p = idle \/
  (exists c0 fp0 sh, p = pendingUpper c0 fp0 sh (high c0) 0) \/
  (exists c0 fp0 sl, p = pendingLower c0 fp0 sl (low c0) 0).
End Candidacy.

(** ** Coarse buckets as folds of their members *)
Module CoarseSpec.

Section WithRounding.
Context {ar : Rounding}.

(** The coarse bucket of a run of base buckets: first member [f], later
    members [ms] in arrival order. *)
Definition aggregate (g : Candle * list Candle) : Candle15m.t :=
  let '(f, ms) := g in
  {| Candle15m.windowId := CandleBuilder.windowIdOf f;
     Candle15m.openTime := openTime f;
     Candle15m.open := open f;
     Candle15m.high := fold_left Qmax (map high ms) (high f);
     Candle15m.low := fold_left Qmin (map low ms) (low f);
     Candle15m.close := close (last ms f);
     Candle15m.volume := fold_left fadd (map volume ms) (volume f);
     Candle15m.count := S (length ms) |}.

(** Splitting a stream into maximal runs of consecutive buckets with the
    window id of the run's first bucket; [g] is the run being read. *)
Fixpoint runsFrom (g : Candle * list Candle) (cs : list Candle)
  : list (Candle * list Candle) :=
  match cs with
  | [] => [g]
  | c :: cs' =>
    if (CandleBuilder.windowIdOf c =? CandleBuilder.windowIdOf (fst g))%Z
    then runsFrom (fst g, snd g ++ [c]) cs'
    else g :: runsFrom (c, []) cs'
  end.

Definition runs (cs : list Candle) : list (Candle * list Candle) :=
  match cs with
  | [] => []
  | c :: cs' => runsFrom (c, []) cs'
  end.

Definition members (g : Candle * list Candle) : list Candle :=
  fst g :: snd g.

(** Every member of the run has the window id of its first bucket. *)
Definition sameWindow (g : Candle * list Candle) : Prop :=
  Forall (fun c => CandleBuilder.windowIdOf c
                   = CandleBuilder.windowIdOf (fst g)) (snd g).

(** Neighbouring runs have different window ids. *)
Fixpoint maximal (rs : list (Candle * list Candle)) : Prop :=
  match rs with
  | g1 :: rs' =>
    match rs' with
    | g2 :: _ => CandleBuilder.windowIdOf (fst g2)
                 <> CandleBuilder.windowIdOf (fst g1) /\ maximal rs'
    | [] => True
    end
  | [] => True
  end.

(** What the fields of a coarse bucket are, in terms of the members: the
    volume is the volume of the first member with the volumes of the
    later ones added in arrival order. *)
Definition foldOf (g : Candle * list Candle) (b : Candle15m.t) : Prop :=
  Candle15m.windowId b = (openTime (fst g) / 900000)%Z /\
  Candle15m.openTime b = openTime (fst g) /\
  Candle15m.open b = open (fst g) /\
  isMaxOf (map high (members g)) (Some (Candle15m.high b)) /\
  isMinOf (map low (members g)) (Some (Candle15m.low b)) /\
  Candle15m.close b = close (last (snd g) (fst g)) /\
  Candle15m.volume b
  = fold_left fadd (map volume (snd g)) (volume (fst g)) /\
  Candle15m.count b = length (members g).

End WithRounding.

End CoarseSpec.

(** ** Pivot confirmation *)
Module PivotSpec.

(** The candle at [idx] strictly dominates the [L] candles on each side,
    on the field [f] and for the strict order [lt x y]. *)
Definition dominates (candles15m : list Candle15m.t) (f : Candle15m.t -> Q)
           (lt : Q -> Q -> Prop) (L idx : nat) (candidate : Candle15m.t)
  : Prop :=
  forall i n, (1 <= i <= L)%nat ->
    (nth_error candles15m (idx - i) = Some n \/
     nth_error candles15m (idx + i) = Some n) ->
    lt (f n) (f candidate).

Definition confirmsHigh (log : list SwingDetector.LogEvent) (entry : Swing)
  : Prop := In (SwingDetector.InfoSwingHigh entry) log.

Definition confirmsLow (log : list SwingDetector.LogEvent) (entry : Swing)
  : Prop := In (SwingDetector.InfoSwingLow entry) log.

End PivotSpec.

(** ** Footprint *)
Module FootprintSpec.

(** [best seen r]: among the clusters of [seen], [r] has the greatest
    volume and, among those of that volume, the least price. *)
Definition best (seen : list Cluster) (r : Cluster) : Prop :=
  In r seen /\
  forall c, In c seen ->
    cl_totalVolume c <= cl_totalVolume r /\
    (cl_totalVolume c == cl_totalVolume r -> cl_price r <= cl_price c).


End FootprintSpec.

(** ** Bounded windows *)

(** The last [n] elements of a list. *)
Definition lastN {A : Type} (n : nat) (l : list A) : list A :=
  skipn (length l - n) l.

Module RollingSpec.

(** [push] after [push], one call per sample [(totalVolume, delta)]. *)
Definition pushAll (s : RollingStats.t) (samples : list (Q * Q))
  : RollingStats.t :=
  fold_left (fun s x => RollingStats.push s (fst x) (snd x)) samples s.

(** The states of a window of size [ws]: the constructor, then any
    sequence of [push] and [reset]. *)
Inductive reachable (ws : nat) : RollingStats.t -> Prop :=
| reach_new : reachable ws (RollingStats.new ws)
| reach_push s v d :
    reachable ws s -> reachable ws (RollingStats.push s v d)
| reach_reset s : reachable ws s -> reachable ws (RollingStats.reset s).

End RollingSpec.

(** ** Footprint engine: what the clusters hold *)
Module EngineSpec.

Definition isAggTrade (msg : FootprintEngine.AggTrade) : bool :=
  String.eqb (FootprintEngine.e msg) "aggTrade".

(** No two of the prices are equal. *)
Fixpoint distinctLevels (ks : list Q) : Prop :=
  match ks with
  | [] => True
  | k :: ks' => (forall k', In k' ks' -> ~ k == k') /\ distinctLevels ks'
  end.

(** The quantities of the aggTrade messages of one side, in arrival
    order. *)
Definition quantities (sellSide : bool)
           (msgs : list FootprintEngine.AggTrade) : list Q :=
  map FootprintEngine.q
      (filter (fun msg => isAggTrade msg
                          && Bool.eqb (FootprintEngine.m msg) sellSide)
              msgs).

Section WithRounding.
Context {ar : Rounding}.

(** The engine after the constructor (or a [reset]) and the given
    messages. *)
Definition fed (cfg : Config) (msgs : list FootprintEngine.AggTrade)
  : FootprintEngine.t :=
  fold_left (FootprintEngine.handleTrade cfg) msgs FootprintEngine.new.

(** The trades of one side ([sellSide] is the message's [m]) that snap to
    [level]. *)
Definition tradesAt (cfg : Config) (sellSide : bool) (level : Q)
           (msgs : list FootprintEngine.AggTrade)
  : list FootprintEngine.AggTrade :=
  filter (fun msg =>
            isAggTrade msg
            && Bool.eqb (FootprintEngine.m msg) sellSide
            && Qeq_bool (FootprintEngine._snapToCluster cfg
                           (FootprintEngine.p msg)) level)
         msgs.

(** The quantity traded on one side at [level]: the quantities of the
    trades there, added in arrival order. *)
Definition flowAt (cfg : Config) (sellSide : bool) (level : Q)
           (msgs : list FootprintEngine.AggTrade) : Q :=
  fsum (map FootprintEngine.q (tradesAt cfg sellSide level msgs)).

(** What the engine holds after [msgs]: one cluster per traded level,
    with the quantities bought and sold there. *)
Definition tableOf (cfg : Config) (msgs : list FootprintEngine.AggTrade)
           (s : FootprintEngine.t) : Prop :=
  distinctLevels (map cl_price (FootprintEngine.e_clusters s)) /\
  (forall c, In c (FootprintEngine.e_clusters s) ->
     buyVolume c = flowAt cfg false (cl_price c) msgs /\
     sellVolume c = flowAt cfg true (cl_price c) msgs /\
     cl_totalVolume c = fadd (buyVolume c) (sellVolume c) /\
     cl_delta c = fsub (buyVolume c) (sellVolume c) /\
     exists msg, In msg msgs /\ isAggTrade msg = true /\
                 FootprintEngine._snapToCluster cfg (FootprintEngine.p msg)
                 == cl_price c) /\
  (forall msg, In msg msgs -> isAggTrade msg = true ->
     exists c, In c (FootprintEngine.e_clusters s) /\
               cl_price c
               == FootprintEngine._snapToCluster cfg (FootprintEngine.p msg)).

End WithRounding.

End EngineSpec.

(** ** Candle streams *)
Module CandleSpec.

(** A kline message as [handleKlineMessage] reads it: the event type
    [e] and the candle of [k]. *)
Definition Kline : Type := (string * Candle)%type.

Section WithRounding.
Context {ar : Rounding}.

(** [handleKlineMessage] on message after message, events in emission
    order. *)
Fixpoint handleAll (s : CandleBuilder.t) (msgs : list Kline)
  : CandleBuilder.t * list CandleBuilder.Event :=
  match msgs with
  | [] => (s, [])
  | (e, k) :: msgs' =>
    let '(s1, ev1) := CandleBuilder.handleKlineMessage s e k in
    let '(s2, ev2) := handleAll s1 msgs' in
    (s2, ev1 ++ ev2)
  end.

End WithRounding.

(** The candles of the closed kline messages of a stream. *)
Definition closedKlines (msgs : list Kline) : list Candle :=
  map snd (filter (fun m => String.eqb (fst m) "kline" && isClosed (snd m))
                  msgs).

(** Open and close lie between low and high. *)
Definition wellFormed (c : Candle) : Prop :=
  low c <= open c <= high c /\ low c <= close c <= high c.

Definition wellFormed15m (b : Candle15m.t) : Prop :=
  Candle15m.low b <= Candle15m.open b <= Candle15m.high b /\
  Candle15m.low b <= Candle15m.close b <= Candle15m.high b.

(** Base buckets in the order of their open times. *)
Definition chronological (cs : list Candle) : Prop :=
  StronglySorted (fun a b => (openTime a <= openTime b)%Z) cs.

(** Coarse buckets of strictly increasing window id. *)
Definition ascending (bs : list Candle15m.t) : Prop :=
  StronglySorted
    (fun a b => (Candle15m.windowId a < Candle15m.windowId b)%Z) bs.

(** The window id of a coarse bucket is the one of its open time. *)
Definition aligned (b : Candle15m.t) : Prop :=
  Candle15m.windowId b = (Candle15m.openTime b / 900000)%Z.

End CandleSpec.

(** ** Pivot pools *)
Module PoolSpec.

(** A pool in strictly increasing order of time: sorted, and with no
    time twice. *)
Definition ordered (pool : list Swing) : Prop :=
  StronglySorted (fun a b => (time a < time b)%Z) pool.

(** The states of the swing detector: the constructor, then any sequence
    of [update] (on any candles) and [clearSweptLevels] (of any type and
    levels). *)
Inductive reachable (cfg : Config) : SwingDetector.t -> Prop :=
| reach_new : reachable cfg (SwingDetector.new cfg)
| reach_update s candles15m s' log :
    reachable cfg s ->
    SwingDetector.update s candles15m = Some (s', log) ->
    reachable cfg s'
| reach_clear s type sweptLevels :
    reachable cfg s ->
    reachable cfg (SwingDetector.clearSweptLevels s type sweptLevels).

End PoolSpec.

(** ** Alerts *)
Module AlertSpec.

(** One call of [_sendAlert]: the time, the type, the data, and whether
    the transport would deliver. *)
Record Call := mkCall {
  now : Z;
  type : AbsorptionDetector.SignalType;
  data : AbsorptionDetector.SignalData;
  delivered : bool
}.

(** A step of a schedule: a call of [_sendAlert] enters and runs up to
    its [await], or the [sendMessage] promise of the suspended call
    number [i] (in the order of entry) settles and that call resumes. *)
Inductive Event :=
| Enter (c : Call)
| Settle (i : nat).

Section WithNumberToString.
Variable numberToString : Q -> string.

(** Calls that do not overlap, one after the other: the service at the
    end and, in call order, the calls that sent their alert. *)
Fixpoint run (s : AlertService.t) (calls : list Call)
  : AlertService.t * list Call :=
  match calls with
  | [] => (s, [])
  | c :: calls' =>
    let '(s1, sent) :=
      AlertService._sendAlert numberToString s (now c) (type c) (data c)
                              (delivered c) in
    let '(s2, sents) := run s1 calls' in
    (s2, if sent then c :: sents else sents)
  end.

Definition hashOf (c : Call) : string :=
  AlertService.alertHash numberToString (type c) (data c).

(** Calls in any interleaving: [exec s waiting sch] runs the schedule
    [sch] from the service [s] with the calls of [waiting] suspended at
    their [await], and returns the service at the end and the calls that
    sent their alert, in the order they resumed.  A [Settle i] for which
    no call is waiting does nothing. *)
Fixpoint exec (s : AlertService.t)
         (waiting : list (Call * AlertService.Suspended))
         (sch : list Event) : AlertService.t * list Call :=
  match sch with
  | [] => (s, [])
  | Enter c :: sch' =>
    match AlertService._sendAlert_begin numberToString s (now c) (type c)
                                        (data c) with
    | None => exec s waiting sch'
    | Some k => exec s (waiting ++ [(c, k)]) sch'
    end
  | Settle i :: sch' =>
    match nth_error waiting i with
    | None => exec s waiting sch'
    | Some (c, k) =>
      let '(s1, sent) := AlertService._sendAlert_resume s k (delivered c) in
      let '(s2, sents) :=
        exec s1 (firstn i waiting ++ skipn (S i) waiting) sch' in
      (s2, if sent then c :: sents else sents)
    end
  end.

End WithNumberToString.

(** The schedule in which each call is settled before the next one
    enters. *)
Definition serial (calls : list Call) : list Event :=
  flat_map (fun c => [Enter c; Settle 0]) calls.

(** Times each at least [cooldown] after the one before, the first after
    [last]. *)
Fixpoint spaced (cooldown last : Z) (times : list Z) : Prop :=
  match times with
  | [] => True
  | t :: times' => (cooldown <= t - last)%Z /\ spaced cooldown t times'
  end.

End AlertSpec.

(** ** From the kline stream to the pivot pools *)
Module PipelineSpec.

Definition byOpenTime (bs : list Candle15m.t) : Prop :=
  StronglySorted
    (fun a b => (Candle15m.openTime a < Candle15m.openTime b)%Z) bs.

(** Every level of the pool has the open time of an emitted 15m candle
    that has at least [L] emitted candles after it. *)
Definition settled (L : nat) (emitted : list Candle15m.t)
           (pool : list Swing) : Prop :=
  forall s, In s pool ->
    exists pre x post,
      emitted = pre ++ x :: post /\ Candle15m.openTime x = time s /\
      (L <= length post)%nat.

(** A call of [update] by the listener: on a detector of lookback [L],
    with a result, and, when the history is long enough for a candidate,
    a candidate whose open time is in neither pool. *)
Definition fresh (L : nat) (u : CandlePipeline.UpdateCall) : Prop :=
  SwingDetector.lookback (CandlePipeline.before u) = L /\
  SwingDetector.update (CandlePipeline.before u) (CandlePipeline.candles u)
  = Some (CandlePipeline.after u, CandlePipeline.log u) /\
  ((L * 2 + 1 <= length (CandlePipeline.candles u))%nat ->
   exists candidate,
     nth_error (CandlePipeline.candles u)
               (length (CandlePipeline.candles u) - 1 - L)
     = Some candidate /\
     SwingDetector.already
       (SwingDetector.swingHighPool (CandlePipeline.before u))
       (Candle15m.openTime candidate) = false /\
     SwingDetector.already
       (SwingDetector.swingLowPool (CandlePipeline.before u))
       (Candle15m.openTime candidate) = false).

End PipelineSpec.

(** ** Reconnection *)
Module ReconnectSpec.

(** The delays of the timers set, in order. *)
Fixpoint timers (ev : list WebSocketManager.Event) : list Z :=
  match ev with
  | [] => []
  | WebSocketManager.SetTimeout d :: ev' => d :: timers ev'
  | _ :: ev' => timers ev'
  end.

(** How many times [maxReconnectReached] was emitted. *)
Fixpoint givenUp (ev : list WebSocketManager.Event) : nat :=
  match ev with
  | [] => 0
  | WebSocketManager.MaxReconnectReached :: ev' => S (givenUp ev')
  | _ :: ev' => givenUp ev'
  end.

(** The delay before attempt [k]: the base delay doubled [k] times, at
    most one minute. *)
Definition backoff (cfg : WebSocketManager.WsConfig) (k : nat) : Z :=
  Z.min (WebSocketManager.reconnectDelayMs cfg * 2 ^ Z.of_nat k) 60000.

(** Calls other than [connect] itself throwing. *)
Definition fromSocket (c : WebSocketManager.Call) : Prop :=
  c <> WebSocketManager.CallConnect true.

End ReconnectSpec.

(** * Concrete scenarios *)
Module Scenario.

(** The scenarios run in the arithmetic of doubles. *)
#[local] Existing Instance binary64.

(** A two-sample window is ready after one sample. *)
Definition cfg : Config :=
  {| alert_deltaMultiplier := 2;
     alert_volumeMultiplier := 3 # 2;
     alert_rollingWindow := 2;
     footprint_priceClusterSize := 1 # 2;
     swing_lookback := 2;
     swing_maxPoolSize := 8;
     swing_minLevelsSwept := 2 |}.

(** One bucket of history: volume 10, delta 2, so the thresholds are a
    delta of 4 and a volume of 15. *)
Definition detector : AbsorptionDetector.t :=
  AbsorptionDetector.updateStats (AbsorptionDetector.new cfg) 10 2.

Definition highPool : list Swing :=
  [mkSwing 103 900000 2; mkSwing 104 1800000 3].

Definition lowPool : list Swing :=
  [mkSwing 95 2700000 4; mkSwing 96 3600000 5].

Definition swings : SwingDetector.t :=
  {| SwingDetector.lookback := 2;
     SwingDetector.maxPoolSize := 8;
     SwingDetector.swingHighPool := highPool;
     SwingDetector.swingLowPool := lowPool |}.

Definition footprintOf (poc totalBuy totalSell : Q) : Footprint :=
  {| clusters := [];
     poc := poc;
     pocVolume := 0;
     totalBuyVolume := totalBuy;
     totalSellVolume := totalSell;
     totalVolume := totalBuy + totalSell;
     delta := totalBuy - totalSell;
     topClusterVolume := 0;
     bottomClusterVolume := 0;
     tradeCount := 0 |}.

(** A bucket that sweeps both highs, on buying, and closes below the
    point of control. *)
Definition candleUp : Candle := mkCandle 6000000 6059999 102 105 101 102 20 true.
Definition footprintUp : Footprint := footprintOf (205 # 2) (25 # 2) (15 # 2).

(** A bucket that sweeps both lows, on selling, and closes above the
    point of control. *)
Definition candleDown : Candle := mkCandle 6060000 6119999 97 98 94 97 20 true.
Definition footprintDown : Footprint := footprintOf (191 # 2) (15 # 2) (25 # 2).

Definition candleTie : Candle := mkCandle 6060000 6119999 102 105 101 102 5 true.
Definition candleAbove : Candle := mkCandle 6060000 6119999 102 106 101 102 5 true.

Definition sweptBy (c : Candle) : SweptLows * SweptHighs :=
  (SwingDetector.getSweptLows swings (low c),
   SwingDetector.getSweptHighs swings (high c)).

Definition check (d : AbsorptionDetector.t) (c : Candle) (fp : Footprint)
  : AbsorptionDetector.Outcome :=
  AbsorptionDetector.checkCandle cfg d c (Some fp)
    (fst (sweptBy c)) (snd (sweptBy c)).

(** The detector with the SHORT candidate of [candleUp] pending. *)
Definition pendingShort : AbsorptionDetector.t :=
  Eval vm_compute in
    AbsorptionDetector.det (check detector candleUp footprintUp).


(** Five coarse buckets, the middle one with the highest high. *)
Definition coarse (i : Z) (h l : Q) : Candle15m.t :=
  {| Candle15m.windowId := i;
     Candle15m.openTime := (i * 900000)%Z;
     Candle15m.open := l;
     Candle15m.high := h;
     Candle15m.low := l;
     Candle15m.close := h;
     Candle15m.volume := 1;
     Candle15m.count := 15 |}.

Definition history : list Candle15m.t :=
  [coarse 0 101 90; coarse 1 102 91; coarse 2 110 92;
   coarse 3 103 91; coarse 4 104 90].

(** The swing detector after one [update] on [history]. *)
Definition afterFirstUpdate : SwingDetector.t :=
  match SwingDetector.update (SwingDetector.new cfg) history with
  | Some (s, _) => s
  | None => SwingDetector.new cfg
  end.

(** A history whose middle bucket has the open time of the middle bucket
    of [history] and a higher high. *)
Definition historyReplayed : list Candle15m.t :=
  [coarse 0 101 90; coarse 1 102 91; coarse 2 120 92;
   coarse 3 103 91; coarse 4 104 90].

(** Scenario A of the specification: two buys at 100.0 and three sells
    at 100.4, of quantity 1, with clusters of 0.5. *)
Definition buyAt (price : Q) : FootprintEngine.AggTrade :=
  FootprintEngine.mkAggTrade "aggTrade" price 1 false.
Definition sellAt (price : Q) : FootprintEngine.AggTrade :=
  FootprintEngine.mkAggTrade "aggTrade" price 1 true.

Definition trades : list FootprintEngine.AggTrade :=
  [buyAt 100; buyAt 100; sellAt (double (1004 # 10));
   sellAt (double (1004 # 10)); sellAt (double (1004 # 10))].

Definition engine : FootprintEngine.t :=
  Eval vm_compute in
    fold_left (FootprintEngine.handleTrade cfg) trades FootprintEngine.new.

(** Base buckets of two coarse windows. *)
Definition base (t : Z) (h l c v : Q) : Candle :=
  mkCandle t (t + 59999) l h l c v true.

Definition stream : list Candle :=
  [base 0 101 99 100 1; base 60000 103 100 102 2; base 120000 102 98 99 3;
   base 900000 104 99 101 4].

End Scenario.

(** ** Further scenarios *)
Module Examples.

#[local] Existing Instance binary64.

(** Six coarse windows of one base bucket each; the third has the highest
    high. *)
Definition pivotStream : list Candle :=
  [Scenario.base 0 101 90 100 1; Scenario.base 900000 102 91 100 1;
   Scenario.base 1800000 110 92 100 1; Scenario.base 2700000 103 91 100 1;
   Scenario.base 3600000 104 90 100 1; Scenario.base 4500000 100 95 99 1].

(** Three buys, of 0.1 at 100, of 0.1 at 101 and of 0.4 at 100. *)
Definition roundedTrades : list FootprintEngine.AggTrade :=
  [FootprintEngine.mkAggTrade "aggTrade" 100 (double (1 # 10)) false;
   FootprintEngine.mkAggTrade "aggTrade" 101 (double (1 # 10)) false;
   FootprintEngine.mkAggTrade "aggTrade" 100 (double (4 # 10)) false].

(** One sample in a window of two. *)
Definition oneSample : RollingStats.t :=
  RollingStats.push (RollingStats.new 2) 10 2.

(** A pivot newer than those of [Scenario.highPool]. *)
Definition newerHigh : Swing := mkSwing 105 2700000 4.

(** The reconnection settings of the configuration file. *)
Definition wsConfig : WebSocketManager.WsConfig :=
  {| WebSocketManager.reconnectDelayMs := 3000;
     WebSocketManager.maxReconnectAttempts := 10 |}.

(** A detector whose window holds one bucket of volume 0.6 and delta
    0.1, and the footprint of a bucket of volume 0.9, all of it bought,
    with the point of control at 102.5. *)
Definition quietDetector : AbsorptionDetector.t :=
  AbsorptionDetector.updateStats (AbsorptionDetector.new Scenario.cfg)
                                 (double (6 # 10)) (double (1 # 10)).

Definition footprintNine : Footprint :=
  {| clusters := [];
     poc := 205 # 2;
     pocVolume := 0;
     totalBuyVolume := double (9 # 10);
     totalSellVolume := 0;
     totalVolume := double (9 # 10);
     delta := double (9 # 10);
     topClusterVolume := 0;
     bottomClusterVolume := 0;
     tradeCount := 0 |}.

(** How JavaScript writes a whole number. *)
Definition wholeToString (q : Q) : string :=
  NilZero.string_of_int (Z.to_int (Qfloor q)).

(** The data of a SHORT signal over the highs 103 and 104, and two calls
    of [_sendAlert] with it, one millisecond apart, both delivered. *)
Definition shortData : AbsorptionDetector.SignalData :=
  {| AbsorptionDetector.sweptLevels := [103; 104];
     AbsorptionDetector.sweptCount := 2;
     AbsorptionDetector.swingLevel := Some 103;
     AbsorptionDetector.sd_sweepPrice := Some 105;
     AbsorptionDetector.sd_delta := 5;
     AbsorptionDetector.sd_totalVolume := 7;
     AbsorptionDetector.sd_avgVolume := 2;
     AbsorptionDetector.sd_avgAbsDelta := 1;
     AbsorptionDetector.sd_poc := 100;
     AbsorptionDetector.candleClose := 102;
     AbsorptionDetector.volumeMultiple := Some (double (7 # 2));
     AbsorptionDetector.deltaMultiple := Some 5;
     AbsorptionDetector.sd_candle := Scenario.candleUp;
     AbsorptionDetector.sd_footprint := Scenario.footprintUp;
     AbsorptionDetector.sweptLowsInfo := None;
     AbsorptionDetector.sweptHighsInfo := None |}.

Definition firstCall : AlertSpec.Call :=
  AlertSpec.mkCall 1700000000000 AbsorptionDetector.SHORT_SIGNAL shortData
                   true.

Definition secondCall : AlertSpec.Call :=
  AlertSpec.mkCall 1700000000001 AbsorptionDetector.SHORT_SIGNAL shortData
                   true.

(** What the socket and the timers may do after a [disconnect]. *)
Definition afterDisconnect : list WebSocketManager.Call :=
  [WebSocketManager.CallOnClose; WebSocketManager.CallTimer true;
   WebSocketManager.CallOnOpen; WebSocketManager.CallOnClose].

End Examples.

(** * Properties *)

(** ** Numbers and lists *)

Lemma Qltb_lt (a b : Q) : Qltb a b = true <-> a < b.
Proof.
  unfold Qltb. rewrite negb_true_iff.
  split; intro H.
  - apply Qnot_le_lt. intro Hle. apply Qle_bool_iff in Hle. congruence.
  - destruct (Qle_bool b a) eqn:E; [|reflexivity].
    apply Qle_bool_iff in E. lra.
Qed.

Lemma Qltb_ge (a b : Q) : Qltb a b = false <-> b <= a.
Proof.
  unfold Qltb. rewrite negb_false_iff. apply Qle_bool_iff.
Qed.

(** ** Doubles *)
Section Doubles.
#[local] Existing Instance binary64.

(** [rnd64] against the binary64 operations of the kernel. *)
Example rounding_checked :
  forallb (fun ab => agrees PrimFloat.add Qplus (fst ab) (snd ab)
                     && agrees PrimFloat.sub Qminus (fst ab) (snd ab)
                     && agrees PrimFloat.mul Qmult (fst ab) (snd ab)
                     && agrees PrimFloat.div Qdiv (fst ab) (snd ab))
          [(1 # 10, 1 # 10); (2 # 10, 4 # 10); (6 # 10, 15 # 10);
           (10025 # 100, 1 # 10); (1003, 1 # 10); (3 # 10, 1 # 10);
           (35 # 100, 1 # 10); (1, 3); (1 # 1000000, 1 # 1000000);
           (123456789012, 1 # 1000); (- (7 # 10), 1 # 3);
           (9007199254740991, 1 # 2); (5 # 1000, - (27 # 100))]
  = true.
Proof. vm_compute. reflexivity. Qed.

(** [0.1 + 0.1 + 0.4] is [0.6000000000000001]. *)
Example sum_rounded :
  fsum [double (1 # 10); double (1 # 10); double (4 # 10)]
  = double (6000000000000001 # 10000000000000000).
Proof. vm_compute. reflexivity. Qed.

(** The mean of three samples [0.1] is [0.10000000000000002], above each
    of them. *)
Example mean_rounded :
  RollingStats.mean [double (1 # 10); double (1 # 10); double (1 # 10)]
  = double (10000000000000002 # 100000000000000000) /\
  double (1 # 10)
  < RollingStats.mean [double (1 # 10); double (1 # 10); double (1 # 10)].
Proof. split; vm_compute; reflexivity. Qed.

(** [0.6 * 1.5] is [0.8999999999999999], below [0.9]. *)
Example threshold_rounded :
  fmul (double (6 # 10)) (double (15 # 10))
  = double (8999999999999999 # 10000000000000000) /\
  fmul (double (6 # 10)) (double (15 # 10)) < double (9 # 10).
Proof. split; vm_compute; reflexivity. Qed.

(** With a cluster size of [0.1], the price [100.25] snaps to
    [100.30000000000001]. *)
Example snap_rounded :
  FootprintEngine._snapToCluster
    {| alert_deltaMultiplier := 2;
       alert_volumeMultiplier := double (15 # 10);
       alert_rollingWindow := 20;
       footprint_priceClusterSize := double (1 # 10);
       swing_lookback := 5;
       swing_maxPoolSize := 20;
       swing_minLevelsSwept := 2 |}
    (double (10025 # 100))
  = double (10030000000000001 # 100000000000000).
Proof. vm_compute. reflexivity. Qed.

Lemma roundHalfEven_nonneg (n : Z) (d : positive) :
  (0 <= n)%Z -> (0 <= roundHalfEven n d)%Z.
Proof.
  intros H. unfold roundHalfEven.
  assert (0 <= n / Zpos d)%Z by (apply Z.div_pos; lia).
  destruct (2 * (n mod Zpos d) ?= Zpos d)%Z; [|lia|lia].
  destruct (Z.even (n / Zpos d)); lia.
Qed.

Lemma scale_nonneg (m e : Z) : (0 <= m)%Z -> 0 <= scale m e.
Proof.
  intros H. unfold scale. rewrite Qred_correct.
  destruct (0 <=? e)%Z.
  - change 0 with (inject_Z 0). rewrite <- Zle_Qle.
    apply Z.mul_nonneg_nonneg; [exact H|]. apply Z.pow_nonneg. lia.
  - unfold Qle. cbn. lia.
Qed.

(** Rounding to the nearest double does not make a number negative. *)
Lemma rnd64_nonneg (q : Q) : 0 <= q -> 0 <= rnd64 q.
Proof.
  destruct q as [n d]. unfold rnd64. cbn [Qnum Qden].
  destruct n as [|p|p]; intros H.
  - apply Qle_refl.
  - unfold round64. apply scale_nonneg.
    destruct (0 <=? _)%Z; apply roundHalfEven_nonneg; [lia|].
    apply Z.mul_nonneg_nonneg; [lia|]. apply Z.pow_nonneg. lia.
  - unfold Qle in H. cbn in H. lia.
Qed.

End Doubles.

Section RoundedSums.
Context {ar : Rounding}.

Lemma fsum_nonneg (l : list Q) :
  (forall x, 0 <= x -> 0 <= rnd x) ->
  (forall x, In x l -> 0 <= x) -> 0 <= fsum l.
Proof.
  intros Hr. unfold fsum.
  assert (forall acc, 0 <= acc -> (forall x, In x l -> 0 <= x) ->
                      0 <= fold_left fadd l acc) as G.
  { induction l as [|a l IH]; intros acc Ha Hl; [exact Ha|].
    cbn [fold_left]. apply IH.
    - unfold fadd. apply Hr.
      pose proof (Hl a (or_introl eq_refl)). lra.
    - intros x Hx. apply Hl. right. exact Hx. }
  apply G. lra.
Qed.

End RoundedSums.

(** ** AbsorptionDetector.checkCandle *)
Section CheckCandle.
Context {ar : Rounding}.
Import AbsorptionDetector Candidacy.
Variable cfg : Config.

Lemma upper_reflect (d : t) (c : Candle) (fp : Footprint) (sh : SweptHighs) :
  (minLevelsSwept d <=? sh_count sh)%nat &&
  (Qltb (fmul (RollingStats.avgAbsDelta (stats d))
              (alert_deltaMultiplier cfg)) (delta fp) &&
   Qltb (fmul (RollingStats.avgVolume (stats d))
              (alert_volumeMultiplier cfg)) (totalVolume fp) &&
   Qltb (close c) (poc fp)) = true
  <-> upper cfg d c fp sh.
Proof.
  unfold upper, deltaThreshold, volumeThreshold.
  rewrite !andb_true_iff, Nat.leb_le, !Qltb_lt. tauto.
Qed.

Lemma lower_reflect (d : t) (c : Candle) (fp : Footprint) (sl : SweptLows) :
  (minLevelsSwept d <=? sl_count sl)%nat &&
  (Qltb (delta fp)
        (- fmul (RollingStats.avgAbsDelta (stats d))
                (alert_deltaMultiplier cfg)) &&
   Qltb (fmul (RollingStats.avgVolume (stats d))
              (alert_volumeMultiplier cfg)) (totalVolume fp) &&
   Qltb (poc fp) (close c)) = true
  <-> lower cfg d c fp sl.
Proof.
  unfold lower, deltaThreshold, volumeThreshold.
  rewrite !andb_true_iff, Nat.leb_le, !Qltb_lt. tauto.
Qed.

(** The two sets of conditions exclude each other: the close cannot be
    on both sides of the point of control. *)
Lemma upper_lower_exclusive d c fp sl sh :
  upper cfg d c fp sh -> lower cfg d c fp sl -> False.
Proof.
  unfold upper, lower. intros (_ & _ & _ & Hu) (_ & _ & _ & Hl). lra.
Qed.

(** The three ways a call with a footprint and a ready window ends. *)
Lemma checkCandle_cases d c fp sl sh :
  RollingStats.isReady (stats d) = true ->
  let o := checkCandle cfg d c (Some fp) sl sh in
  (upper cfg d c fp sh /\
   o = mkOutcome (withPending d (pendingUpper c fp sh (high c) 0)) NoSignal
         [DebugShortCandidate (sh_count sh);
          InfoShortCandidate (map price (sh_swept sh))])
  \/
  (~ upper cfg d c fp sh /\ lower cfg d c fp sl /\
   o = mkOutcome (withPending d (pendingLower c fp sl (low c) 0)) NoSignal
         ((if (minLevelsSwept d <=? sh_count sh)%nat
           then [DebugShortCandidate (sh_count sh)] else [])
          ++ [DebugLongCandidate (sl_count sl);
              InfoLongCandidate (map price (sl_swept sl))]))
  \/
  (~ upper cfg d c fp sh /\ ~ lower cfg d c fp sl /\
   o = mkOutcome d NoSignal
         ((if (minLevelsSwept d <=? sh_count sh)%nat
           then [DebugShortCandidate (sh_count sh)] else [])
          ++ (if (minLevelsSwept d <=? sl_count sl)%nat
              then [DebugLongCandidate (sl_count sl)] else []))).
Proof.
  intros Hready o. subst o. unfold checkCandle. rewrite Hready. cbn [negb].
  pose proof (upper_reflect d c fp sh) as HU.
  pose proof (lower_reflect d c fp sl) as HL.
  destruct ((minLevelsSwept d <=? sh_count sh)%nat && _) eqn:EU in HU |- *.
  - left. split; [apply HU; reflexivity | reflexivity].
  - right.
    assert (~ upper cfg d c fp sh) as NU
      by (intro H; apply HU in H; discriminate).
    destruct ((minLevelsSwept d <=? sl_count sl)%nat && _) eqn:EL in HL |- *.
    + left. split; [exact NU|]. split; [apply HL; reflexivity | reflexivity].
    + right. split; [exact NU|].
      split; [intro H; apply HL in H; discriminate | reflexivity].
Qed.

(** No line of the given kind is in a concrete log. *)
Ltac no_event :=
  let H := fresh in
  intros [? H]; cbn in H; intuition discriminate.

(** C1. With a footprint and a ready window, [checkCandle] registers a
    SHORT candidate exactly when the swept-high count reaches the minimum,
    the delta exceeds [avgAbsDelta * deltaMultiplier], the volume exceeds
    [avgVolume * volumeMultiplier] (the products as JavaScript computes
    them) and the close is below the point of control; the detector then
    holds the pending record of state SHORT with the candle, the
    footprint, the swept highs, the candle's high as sweep price and a
    counter of 0.  It registers a LONG candidate exactly under the
    mirrored conditions, and then holds the pending record of state LONG
    with the swept lows and the candle's low as sweep price.  The LONG
    branch is entered only when no SHORT candidate was registered;
    otherwise the detector is left as it was; and without a footprint or
    with a window that is not ready the call evaluates nothing. *)
Theorem checkCandle_candidacy (d : t) (c : Candle) (fpo : option Footprint)
        (sl : SweptLows) (sh : SweptHighs) :
  let o := checkCandle cfg d c fpo sl sh in
  (fpo = None \/ RollingStats.isReady (stats d) = false ->
   o = mkOutcome d NoSignal []) /\
  (forall fp, fpo = Some fp -> RollingStats.isReady (stats d) = true ->
     (registersShort o <-> upper cfg d c fp sh) /\
     (upper cfg d c fp sh ->
      det o = {| stats := stats d;
                 minLevelsSwept := minLevelsSwept d;
                 pending := {| state := SHORT;
                               candle := Some c;
                               footprint := Some fp;
                               sweptLows := None;
                               sweptHighs := Some sh;
                               sweepPrice := Some (high c);
                               confirmCount := 0 |};
                 maxConfirmCandles := maxConfirmCandles d |}) /\
     (registersLong o <-> lower cfg d c fp sl) /\
     (lower cfg d c fp sl ->
      det o = {| stats := stats d;
                 minLevelsSwept := minLevelsSwept d;
                 pending := {| state := LONG;
                               candle := Some c;
                               footprint := Some fp;
                               sweptLows := Some sl;
                               sweptHighs := None;
                               sweepPrice := Some (low c);
                               confirmCount := 0 |};
                 maxConfirmCandles := maxConfirmCandles d |}) /\
     (evaluatesLong o -> ~ registersShort o) /\
     (~ registersShort o -> ~ registersLong o -> det o = d) /\
     (state (pending d) = NONE ->
      (state (pending (det o)) = SHORT <-> upper cfg d c fp sh) /\
      (state (pending (det o)) = LONG <-> lower cfg d c fp sl)) /\
     stats (det o) = stats d /\
     result o = NoSignal).
Proof.
  intro o. split.
  - subst o. unfold checkCandle.
    intros [-> | Hnr]; [reflexivity|].
    destruct fpo; [rewrite Hnr|]; reflexivity.
  - intros fp -> Hready.
    destruct (checkCandle_cases d c fp sl sh Hready)
      as [(HU & Ho) | [(NU & HL & Ho) | (NU & NL & Ho)]];
      fold o in Ho; rewrite Ho; unfold registersShort, registersLong,
      evaluatesLong, withPending, pendingUpper, pendingLower;
      cbn [log det result pending stats state].
    + assert (~ lower cfg d c fp sl) as NL
        by (intro HL; exact (upper_lower_exclusive _ _ _ _ _ HU HL)).
      assert (exists levels, In (InfoShortCandidate levels)
                [DebugShortCandidate (sh_count sh);
                 InfoShortCandidate (map price (sh_swept sh))]) as Yes
        by (eexists; cbn; eauto).
      split; [tauto|]. split; [tauto|].
      split; [split; [no_event | tauto]|].
      split; [tauto|].
      split; [no_event|].
      split; [tauto|].
      split; [|tauto].
      intros _. split; [tauto|]. split; [discriminate | tauto].
    + assert (exists levels, In (InfoLongCandidate levels)
                ((if (minLevelsSwept d <=? sh_count sh)%nat
                  then [DebugShortCandidate (sh_count sh)] else [])
                 ++ [DebugLongCandidate (sl_count sl);
                     InfoLongCandidate (map price (sl_swept sl))])) as Yes
        by (eexists; apply in_or_app; right; cbn; eauto).
      split; [split; [destruct (_ <=? _)%nat; no_event | tauto]|].
      split; [tauto|].
      split; [tauto|].
      split; [tauto|].
      split; [intros _; destruct (_ <=? _)%nat; no_event|].
      split; [tauto|].
      split; [|tauto].
      intros _. split; [split; [discriminate | tauto] | tauto].
    + split; [split; [destruct (_ <=? _)%nat; destruct (_ <=? _)%nat;
                      no_event | tauto]|].
      split; [tauto|].
      split; [split; [destruct (_ <=? _)%nat; destruct (_ <=? _)%nat;
                      no_event | tauto]|].
      split; [tauto|].
      split; [intros _; destruct (_ <=? _)%nat; destruct (_ <=? _)%nat;
              no_event|].
      split; [tauto|].
      split; [|tauto].
      intros Hidle. rewrite Hidle.
      split; (split; [discriminate | tauto]).
Qed.

End CheckCandle.

(** ** AbsorptionDetector.checkConfirmation *)
Section CheckConfirmation.
Context {ar : Rounding}.
Import AbsorptionDetector Candidacy.

Lemma checkConfirmation_idle d c fpo :
  state (pending d) = NONE ->
  checkConfirmation d c fpo = Return (mkOutcome d NoSignal []).
Proof. unfold checkConfirmation. intros ->. reflexivity. Qed.

(** A pending SHORT candidate is resolved by the comparison of the new
    high with the sweep price. *)
Lemma checkConfirmation_short d c fpo c0 fp0 sh sweep n :
  pending d = pendingUpper c0 fp0 sh sweep n ->
  exists o,
    checkConfirmation d c fpo = Return o /\
    det o = _clearPending d /\
    (sweep < high c -> result o = NoSignal /\
                       log o = [InfoShortCancelled (high c)]) /\
    (high c <= sweep ->
     log o = [] /\
     exists data,
       result o = Signal SHORT_SIGNAL data /\
       sweptLevels data = sortBy Qle_bool (map price (sh_swept sh)) /\
       sweptCount data = sh_count sh /\
       swingLevel data = highestLevel sh /\
       sd_sweepPrice data = Some sweep /\
       sd_candle data = c0 /\
       sd_footprint data = fp0 /\
       sweptHighsInfo data = Some sh /\
       sweptLowsInfo data = None).
Proof.
  intros Hp. unfold checkConfirmation, resolvePending, _buildResult.
  cbn [bumpConfirmCount setPending pending].
  rewrite Hp. cbn -[Qltb sortBy RollingStats.avgVolume RollingStats.avgAbsDelta].
  destruct (Qltb sweep (high c)) eqn:E.
  - eexists. split; [reflexivity|]. cbn [det result log].
    split; [reflexivity|].
    apply Qltb_lt in E.
    split; [intros _; split; reflexivity | intros H; lra].
  - eexists. split; [reflexivity|]. cbn [det result log].
    split; [reflexivity|].
    apply Qltb_ge in E.
    split; [intros H; lra|].
    intros _. split; [reflexivity|].
    eexists. split; [reflexivity|]. cbn. repeat split; reflexivity.
Qed.

Lemma checkConfirmation_long d c fpo c0 fp0 sl sweep n :
  pending d = pendingLower c0 fp0 sl sweep n ->
  exists o,
    checkConfirmation d c fpo = Return o /\
    det o = _clearPending d /\
    (low c < sweep -> result o = NoSignal /\
                      log o = [InfoLongCancelled (low c)]) /\
    (sweep <= low c ->
     log o = [] /\
     exists data,
       result o = Signal LONG_SIGNAL data /\
       sweptLevels data = sortBy Qle_bool (map price (sl_swept sl)) /\
       sweptCount data = sl_count sl /\
       swingLevel data = highestSweptLevel sl /\
       sd_sweepPrice data = Some sweep /\
       sd_candle data = c0 /\
       sd_footprint data = fp0 /\
       sweptLowsInfo data = Some sl /\
       sweptHighsInfo data = None).
Proof.
  intros Hp. unfold checkConfirmation, resolvePending, _buildResult.
  cbn [bumpConfirmCount setPending pending].
  rewrite Hp. cbn -[Qltb sortBy RollingStats.avgVolume RollingStats.avgAbsDelta].
  destruct (Qltb (low c) sweep) eqn:E.
  - eexists. split; [reflexivity|]. cbn [det result log].
    split; [reflexivity|].
    apply Qltb_lt in E.
    split; [intros _; split; reflexivity | intros H; lra].
  - eexists. split; [reflexivity|]. cbn [det result log].
    split; [reflexivity|].
    apply Qltb_ge in E.
    split; [intros H; lra|].
    intros _. split; [reflexivity|].
    eexists. split; [reflexivity|]. cbn. repeat split; reflexivity.
Qed.

(** C2. With an upper-sweep candidate pending, [checkConfirmation]
    cancels it and returns no signal exactly when the new high is
    strictly above the recorded sweep price; otherwise, a tie included,
    it returns the SHORT signal on that call; the detector is idle
    afterwards either way.  The same holds for a lower-sweep candidate
    with the new low strictly below the recorded sweep price. *)
Theorem checkConfirmation_resolves (d : t) (c : Candle)
        (fpo : option Footprint) :
  (forall c0 fp0 sh sweep n,
     pending d = pendingUpper c0 fp0 sh sweep n ->
     exists o,
       checkConfirmation d c fpo = Return o /\
       pending (det o) = _emptyPending /\
       (result o = NoSignal <-> sweep < high c) /\
       (In (InfoShortCancelled (high c)) (log o) <-> sweep < high c) /\
       ((exists data, result o = Signal SHORT_SIGNAL data /\
                      sd_candle data = c0 /\ sd_footprint data = fp0 /\
                      sweptHighsInfo data = Some sh /\
                      swingLevel data = highestLevel sh /\
                      sd_sweepPrice data = Some sweep)
        <-> high c <= sweep)) /\
  (forall c0 fp0 sl sweep n,
     pending d = pendingLower c0 fp0 sl sweep n ->
     exists o,
       checkConfirmation d c fpo = Return o /\
       pending (det o) = _emptyPending /\
       (result o = NoSignal <-> low c < sweep) /\
       (In (InfoLongCancelled (low c)) (log o) <-> low c < sweep) /\
       ((exists data, result o = Signal LONG_SIGNAL data /\
                      sd_candle data = c0 /\ sd_footprint data = fp0 /\
                      sweptLowsInfo data = Some sl /\
                      swingLevel data = highestSweptLevel sl /\
                      sd_sweepPrice data = Some sweep)
        <-> sweep <= low c)).
Proof.
  split.
  - intros c0 fp0 sh sweep n Hp.
    destruct (checkConfirmation_short d c fpo c0 fp0 sh sweep n Hp)
      as (o & Ho & Hd & Hcancel & Hconfirm).
    exists o. split; [exact Ho|]. split; [rewrite Hd; reflexivity|].
    destruct (Qlt_le_dec sweep (high c)) as [Hlt | Hle].
    + destruct (Hcancel Hlt) as [Hr Hl]. rewrite Hr, Hl.
      split; [tauto|]. split; [cbn; tauto|].
      split; [intros (data & H & _); discriminate | intro; lra].
    + destruct (Hconfirm Hle) as (Hl & data & Hr & _ & _ & H3 & H4 & H5 & H6 & H7 & _).
      rewrite Hr, Hl.
      split; [split; [discriminate | intro; lra]|].
      split; [split; [intros [] | intro; lra]|].
      split; [intros _; exact Hle|].
      intros _. exists data. tauto.
  - intros c0 fp0 sl sweep n Hp.
    destruct (checkConfirmation_long d c fpo c0 fp0 sl sweep n Hp)
      as (o & Ho & Hd & Hcancel & Hconfirm).
    exists o. split; [exact Ho|]. split; [rewrite Hd; reflexivity|].
    destruct (Qlt_le_dec (low c) sweep) as [Hlt | Hle].
    + destruct (Hcancel Hlt) as [Hr Hl]. rewrite Hr, Hl.
      split; [tauto|]. split; [cbn; tauto|].
      split; [intros (data & H & _); discriminate | intro; lra].
    + destruct (Hconfirm Hle) as (Hl & data & Hr & _ & _ & H3 & H4 & H5 & H6 & H7 & _).
      rewrite Hr, Hl.
      split; [split; [discriminate | intro; lra]|].
      split; [split; [intros [] | intro; lra]|].
      split; [intros _; exact Hle|].
      intros _. exists data. tauto.
Qed.

End CheckConfirmation.

(** ** Reachable detector states *)
Section DetectorInvariant.
Context {ar : Rounding}.
Import AbsorptionDetector Candidacy.
Variable cfg : Config.

Lemma checkCandle_pending d c fpo sl sh :
  let o := checkCandle cfg d c fpo sl sh in
  (det o = d \/
   exists fp, fpo = Some fp /\
     (det o = withPending d (pendingUpper c fp sh (high c) 0) \/
      det o = withPending d (pendingLower c fp sl (low c) 0))).
Proof.
  cbn zeta. destruct fpo as [fp|]; [|left; reflexivity].
  destruct (RollingStats.isReady (stats d)) eqn:Hready.
  - destruct (checkCandle_cases cfg d c fp sl sh Hready)
      as [(_ & Ho) | [(_ & _ & Ho) | (_ & _ & Ho)]]; rewrite Ho; cbn [det].
    + right. exists fp. auto.
    + right. exists fp. auto.
    + left. reflexivity.
  - left. unfold checkCandle. rewrite Hready. reflexivity.
Qed.

(** Every call of [checkConfirmation] on a well-formed pending record
    returns, leaves the detector idle and does not take the limit
    branch. *)
Lemma checkConfirmation_wellFormed d c fpo :
  wellFormed (pending d) ->
  exists o,
    checkConfirmation d c fpo = Return o /\
    pending (det o) = _emptyPending /\
    ~ In InfoLimitCancelled (log o).
Proof.
  intros [He | [(c0 & fp0 & sh & Hs) | (c0 & fp0 & sl & Hl)]].
  - exists (mkOutcome d NoSignal []).
    split; [apply checkConfirmation_idle; rewrite He; reflexivity|].
    split; [exact He | intros []].
  - destruct (checkConfirmation_short d c fpo c0 fp0 sh (high c0) 0 Hs)
      as (o & Ho & Hd & Hcancel & Hconfirm).
    exists o. split; [exact Ho|]. split; [rewrite Hd; reflexivity|].
    destruct (Qlt_le_dec (high c0) (high c)) as [Hlt | Hle].
    + destruct (Hcancel Hlt) as [_ Hlog]. rewrite Hlog.
      cbn. intuition discriminate.
    + destruct (Hconfirm Hle) as [Hlog _]. rewrite Hlog. intros [].
  - destruct (checkConfirmation_long d c fpo c0 fp0 sl (low c0) 0 Hl)
      as (o & Ho & Hd & Hcancel & Hconfirm).
    exists o. split; [exact Ho|]. split; [rewrite Hd; reflexivity|].
    destruct (Qlt_le_dec (low c) (low c0)) as [Hlt | Hle].
    + destruct (Hcancel Hlt) as [_ Hlog]. rewrite Hlog.
      cbn. intuition discriminate.
    + destruct (Hconfirm Hle) as [Hlog _]. rewrite Hlog. intros [].
Qed.

Lemma reachable_wellFormed d :
  reachable cfg d -> wellFormed (pending d).
Proof.
  induction 1 as [| d v dl _ IH | d c fpo sl sh _ IH | d c fpo o _ IH Ho].
  - left. reflexivity.
  - exact IH.
  - destruct (checkCandle_pending d c fpo sl sh)
      as [E | (fp & _ & [E | E])]; rewrite E.
    + exact IH.
    + right. left. exists c, fp, sh. reflexivity.
    + right. right. exists c, fp, sl. reflexivity.
  - destruct (checkConfirmation_wellFormed d c fpo IH) as (o' & Ho' & Hp & _).
    rewrite Ho in Ho'. injection Ho' as ->. left. exact Hp.
Qed.

Lemma wellFormed_confirmCount p :
  wellFormed p -> confirmCount p = 0%nat.
Proof.
  intros [-> | [(c0 & fp0 & sh & ->) | (c0 & fp0 & sl & ->)]]; reflexivity.
Qed.

(** C10. In every state the pool-based detector can reach, a call of
    [checkConfirmation] returns with the candidate resolved (the detector
    is idle afterwards), so the counter is 0 between calls and at most 1
    after the increment inside a call, and the branch that cancels for
    exceeding [maxConfirmCandles] is never taken. *)
Theorem checkConfirmation_single_call (d : t) :
  reachable cfg d ->
  confirmCount (pending d) = 0%nat /\
  (confirmCount (pending (bumpConfirmCount d)) <= 1)%nat /\
  forall c fpo,
    exists o,
      checkConfirmation d c fpo = Return o /\
      state (pending (det o)) = NONE /\
      confirmCount (pending (det o)) = 0%nat /\
      ~ In InfoLimitCancelled (log o).
Proof.
  intros Hr. pose proof (reachable_wellFormed d Hr) as Hwf.
  pose proof (wellFormed_confirmCount _ Hwf) as H0.
  split; [exact H0|]. split; [cbn; rewrite H0; lia|].
  intros c fpo.
  destruct (checkConfirmation_wellFormed d c fpo Hwf) as (o & Ho & Hp & Hl).
  exists o. rewrite Hp. repeat split; auto.
Qed.

(** C5 (amended). The detector has one pending slot; [checkCandle] does
    not look at it.  Called while a candidate is pending, it leaves the
    detector as it is when there is no footprint, the window is not
    ready or neither set of conditions holds, and it overwrites the
    pending candidate with the new one when a set of conditions holds:
    the record of state SHORT (LONG) with the new candle, its footprint,
    the swept highs (lows), the candle's high (low) as sweep price and a
    counter of 0. *)
Theorem checkCandle_while_pending (d : t) (c : Candle)
        (fpo : option Footprint) (sl : SweptLows) (sh : SweptHighs) :
  state (pending d) <> NONE ->
  let o := checkCandle cfg d c fpo sl sh in
  (fpo = None \/ RollingStats.isReady (stats d) = false -> det o = d) /\
  (forall fp, fpo = Some fp -> RollingStats.isReady (stats d) = true ->
     (~ upper cfg d c fp sh -> ~ lower cfg d c fp sl -> det o = d) /\
     (upper cfg d c fp sh ->
      pending (det o) = {| state := SHORT;
                           candle := Some c;
                           footprint := Some fp;
                           sweptLows := None;
                           sweptHighs := Some sh;
                           sweepPrice := Some (high c);
                           confirmCount := 0 |}) /\
     (lower cfg d c fp sl ->
      pending (det o) = {| state := LONG;
                           candle := Some c;
                           footprint := Some fp;
                           sweptLows := Some sl;
                           sweptHighs := None;
                           sweepPrice := Some (low c);
                           confirmCount := 0 |})).
Proof.
  intros _ o. subst o. split.
  - unfold checkCandle. intros [-> | Hnr]; [reflexivity|].
    destruct fpo; [rewrite Hnr|]; reflexivity.
  - intros fp -> Hr.
    destruct (checkCandle_cases cfg d c fp sl sh Hr)
      as [(HU & Ho) | [(NU & HL & Ho) | (NU & NL & Ho)]];
      rewrite Ho; unfold withPending, pendingUpper, pendingLower;
      cbn [det pending].
    + split; [tauto|]. split; [reflexivity|].
      intros HL. destruct (upper_lower_exclusive cfg _ _ _ _ _ HU HL).
    + split; [tauto|]. split; [tauto | reflexivity].
    + split; [reflexivity|]. split; tauto.
Qed.

End DetectorInvariant.

(** ** Extremes of a list *)
Section Extremes.

Lemma Qmax_cases (a b : Q) :
  (Qmax a b = a /\ b <= a) \/ (Qmax a b = b /\ a <= b).
Proof.
  unfold Qmax, GenericMinMax.gmax.
  destruct (a ?= b) eqn:E.
  - left. split; [reflexivity|]. apply Qeq_alt in E. lra.
  - right. split; [reflexivity|]. apply Qlt_alt in E. lra.
  - left. split; [reflexivity|]. apply Qgt_alt in E. lra.
Qed.

Lemma Qmin_cases (a b : Q) :
  (Qmin a b = a /\ a <= b) \/ (Qmin a b = b /\ b <= a).
Proof.
  unfold Qmin, GenericMinMax.gmin.
  destruct (a ?= b) eqn:E.
  - left. split; [reflexivity|]. apply Qeq_alt in E. lra.
  - left. split; [reflexivity|]. apply Qlt_alt in E. lra.
  - right. split; [reflexivity|]. apply Qgt_alt in E. lra.
Qed.

Lemma fold_Qmax_spec (l : list Q) (a : Q) :
  let m := fold_left Qmax l a in
  In m (a :: l) /\ forall x, In x (a :: l) -> x <= m.
Proof.
  revert a. induction l as [|y l IH]; intros a; cbn zeta.
  - cbn. split; [tauto|]. intros x [<- | []]. lra.
  - cbn [fold_left]. destruct (IH (Qmax a y)) as [Hin Hub].
    split.
    + destruct Hin as [H | H]; [|right; right; exact H].
      rewrite <- H.
      destruct (Qmax_cases a y) as [[-> _] | [-> _]]; cbn; tauto.
    + intros x Hx.
      assert (Qmax a y <= fold_left Qmax l (Qmax a y)) as Hm
        by (apply Hub; left; reflexivity).
      set (F := fold_left Qmax l (Qmax a y)) in *.
      destruct Hx as [<- | [<- | Hx]].
      * destruct (Qmax_cases a y) as [[E ?] | [E ?]]; rewrite E in Hm; lra.
      * destruct (Qmax_cases a y) as [[E ?] | [E ?]]; rewrite E in Hm; lra.
      * apply Hub. right. exact Hx.
Qed.

Lemma fold_Qmin_spec (l : list Q) (a : Q) :
  let m := fold_left Qmin l a in
  In m (a :: l) /\ forall x, In x (a :: l) -> m <= x.
Proof.
  revert a. induction l as [|y l IH]; intros a; cbn zeta.
  - cbn. split; [tauto|]. intros x [<- | []]. lra.
  - cbn [fold_left]. destruct (IH (Qmin a y)) as [Hin Hlb].
    split.
    + destruct Hin as [H | H]; [|right; right; exact H].
      rewrite <- H.
      destruct (Qmin_cases a y) as [[-> _] | [-> _]]; cbn; tauto.
    + intros x Hx.
      assert (fold_left Qmin l (Qmin a y) <= Qmin a y) as Hm
        by (apply Hlb; left; reflexivity).
      set (F := fold_left Qmin l (Qmin a y)) in *.
      destruct Hx as [<- | [<- | Hx]].
      * destruct (Qmin_cases a y) as [[E ?] | [E ?]]; rewrite E in Hm; lra.
      * destruct (Qmin_cases a y) as [[E ?] | [E ?]]; rewrite E in Hm; lra.
      * apply Hlb. right. exact Hx.
Qed.

Lemma maxOf_spec (l : list Q) : isMaxOf l (maxOf l).
Proof.
  destruct l as [|a l]; cbn; [reflexivity|]. apply fold_Qmax_spec.
Qed.

Lemma minOf_spec (l : list Q) : isMinOf l (minOf l).
Proof.
  destruct l as [|a l]; cbn; [reflexivity|]. apply fold_Qmin_spec.
Qed.

End Extremes.

(** ** SwingDetector queries *)
Section SweptQueries.
Import SwingDetector.

Lemma filter_keeps {A : Type} (P : A -> Prop) (f : A -> bool)
      (l : list A) :
  (forall a, f a = true <-> P a) -> keeps P l (filter f l).
Proof.
  intros Hf. induction l as [|a l IH]; cbn [filter]; [constructor|].
  destruct (f a) eqn:E.
  - apply keeps_take; [apply Hf; exact E | exact IH].
  - apply keeps_drop; [|exact IH].
    intros HP. apply Hf in HP. congruence.
Qed.




Lemma filter_length_mono {A} (f g : A -> bool) (l : list A) :
  (forall a, f a = true -> g a = true) ->
  (length (filter f l) <= length (filter g l))%nat.
Proof.
  intros H. induction l as [|a l IH]; cbn; [lia|].
  destruct (f a) eqn:E.
  - rewrite (H a E). cbn. lia.
  - destruct (g a); cbn; lia.
Qed.

(** C7. [getSweptHighs(x)] returns exactly the pivots of the high pool
    priced strictly below [x]: the pool without its other pivots, each
    swept pivot once for each time it is in the pool and in the order of
    the pool; with them it returns their number and the least and
    greatest price among them ([null] when there is none); a larger [x]
    keeps every member already returned.  [getSweptLows(x)] does the same
    for the pivots of the low pool priced strictly above [x], where a
    smaller [x] keeps every member. *)
Theorem getSwept_exact (s : t) (x : Q) :
  let hi := getSweptHighs s x in
  let lo := getSweptLows s x in
  (keeps (fun p => price p < x) (swingHighPool s) (sh_swept hi) /\
   (forall p, In p (sh_swept hi) <-> In p (swingHighPool s) /\ price p < x) /\
   sh_count hi = length (sh_swept hi) /\
   isMinOf (map price (sh_swept hi)) (lowestSweptLevel hi) /\
   isMaxOf (map price (sh_swept hi)) (highestLevel hi) /\
   (forall y, x <= y ->
      incl (sh_swept hi) (sh_swept (getSweptHighs s y)) /\
      (sh_count hi <= sh_count (getSweptHighs s y))%nat)) /\
  (keeps (fun p => x < price p) (swingLowPool s) (sl_swept lo) /\
   (forall p, In p (sl_swept lo) <-> In p (swingLowPool s) /\ x < price p) /\
   sl_count lo = length (sl_swept lo) /\
   isMaxOf (map price (sl_swept lo)) (highestSweptLevel lo) /\
   isMinOf (map price (sl_swept lo)) (deepestLevel lo) /\
   (forall y, y <= x ->
      incl (sl_swept lo) (sl_swept (getSweptLows s y)) /\
      (sl_count lo <= sl_count (getSweptLows s y))%nat)).
Proof.
  cbn zeta. unfold getSweptHighs, getSweptLows.
  cbn [sh_swept sh_count lowestSweptLevel highestLevel
       sl_swept sl_count highestSweptLevel deepestLevel].
  split.
  - split; [apply filter_keeps; intros p; apply Qltb_lt|].
    split; [intros p; rewrite filter_In, Qltb_lt; tauto|].
    split; [reflexivity|].
    split; [apply minOf_spec|].
    split; [apply maxOf_spec|].
    intros y Hxy. split.
    + intros p. rewrite !filter_In, !Qltb_lt. intros [Hin Hp].
      split; [exact Hin | lra].
    + apply filter_length_mono. intros a. rewrite !Qltb_lt. lra.
  - split; [apply filter_keeps; intros p; apply Qltb_lt|].
    split; [intros p; rewrite filter_In, Qltb_lt; tauto|].
    split; [reflexivity|].
    split; [apply maxOf_spec|].
    split; [apply minOf_spec|].
    intros y Hxy. split.
    + intros p. rewrite !filter_In, !Qltb_lt. intros [Hin Hp].
      split; [exact Hin | lra].
    + apply filter_length_mono. intros a. rewrite !Qltb_lt. lra.
Qed.

End SweptQueries.

(** ** SwingDetector.update *)
Section PivotUpdate.
Context {ar : Rounding}.
Import SwingDetector PivotSpec.

Lemma scan_spec (viol : nat -> option bool) (P : nat -> Prop)
      (ixs : list nat) :
  (forall i, In i ixs -> exists b, viol i = Some b /\ (b = false <-> P i)) ->
  exists r, scan viol ixs = Some r /\
            (r = true <-> forall i, In i ixs -> P i).
Proof.
  induction ixs as [|i ixs IH]; intros H.
  - exists true. cbn. split; [reflexivity|]. split; [intros _ i [] | reflexivity].
  - destruct (H i (or_introl eq_refl)) as (b & Hb & HP).
    destruct IH as (r & Hr & Hall);
      [intros j Hj; apply H; right; exact Hj|].
    cbn [scan]. rewrite Hb. destruct b.
    + exists false. split; [reflexivity|]. split; [discriminate|].
      intros Hforall. exfalso.
      assert (P i) as Hi by (apply Hforall; left; reflexivity).
      apply HP in Hi. discriminate.
    + exists r. split; [exact Hr|]. rewrite Hall. split.
      * intros Hrest j [<- | Hj]; [apply HP; reflexivity | apply Hrest, Hj].
      * intros Hforall j Hj. apply Hforall. right. exact Hj.
Qed.

Lemma violates_spec (candles15m : list Candle15m.t) (f : Candle15m.t -> Q)
      (geb : Q -> Q -> bool) (lt : Q -> Q -> Prop) (idx i : nat) (x : Q) :
  (forall a b, geb a b = false <-> lt a b) ->
  (idx + i < length candles15m)%nat ->
  exists b, violates candles15m f geb idx x i = Some b /\
            (b = false <->
             forall n, nth_error candles15m (idx - i) = Some n \/
                       nth_error candles15m (idx + i) = Some n ->
                       lt (f n) x).
Proof.
  intros Hgeb Hlen. unfold violates.
  destruct (nth_error candles15m (idx - i)) as [l|] eqn:El;
    [|apply nth_error_None in El; lia].
  destruct (nth_error candles15m (idx + i)) as [r|] eqn:Er;
    [|apply nth_error_None in Er; lia].
  destruct (geb (f l) x) eqn:Gl.
  - exists true. split; [reflexivity|]. split; [discriminate|].
    intros H. exfalso.
    assert (lt (f l) x) as Hl by (apply H; left; reflexivity).
    apply Hgeb in Hl. congruence.
  - exists (geb (f r) x). split; [reflexivity|].
    rewrite Hgeb. split.
    + intros Hr n [Hn | Hn]; injection Hn as <-;
        [apply Hgeb; exact Gl | exact Hr].
    + intros H. apply H. right. reflexivity.
Qed.

Lemma Qgeb_false (a b : Q) : Qgeb a b = false <-> a < b.
Proof.
  unfold Qgeb. split; intro H.
  - apply Qnot_le_lt. intro Hle. apply Qle_bool_iff in Hle. congruence.
  - destruct (Qle_bool b a) eqn:E; [|reflexivity].
    apply Qle_bool_iff in E. lra.
Qed.

Lemma Qleb_false (a b : Q) : Qleb a b = false <-> b < a.
Proof.
  unfold Qleb. split; intro H.
  - apply Qnot_le_lt. intro Hle. apply Qle_bool_iff in Hle. congruence.
  - destruct (Qle_bool a b) eqn:E; [|reflexivity].
    apply Qle_bool_iff in E. lra.
Qed.

(** The loop of [update] on a candidate with [L] candles on each side. *)
Lemma isSwing_spec (candles15m : list Candle15m.t) (f : Candle15m.t -> Q)
      (geb : Q -> Q -> bool) (lt : Q -> Q -> Prop) (L idx : nat)
      (candidate : Candle15m.t) :
  (forall a b, geb a b = false <-> lt a b) ->
  (idx + L < length candles15m)%nat ->
  exists r, scan (violates candles15m f geb idx (f candidate)) (seq 1 L)
            = Some r /\
            (r = true <-> dominates candles15m f lt L idx candidate).
Proof.
  intros Hgeb Hlen.
  destruct (scan_spec (violates candles15m f geb idx (f candidate))
              (fun i => forall n,
                   nth_error candles15m (idx - i) = Some n \/
                   nth_error candles15m (idx + i) = Some n ->
                   lt (f n) (f candidate))
              (seq 1 L)) as (r & Hr & Hiff).
  - intros i Hi. apply in_seq in Hi.
    apply violates_spec; [exact Hgeb | lia].
  - exists r. split; [exact Hr|]. rewrite Hiff. unfold dominates. split.
    + intros H i n Hi. apply H. apply in_seq. lia.
    + intros H i Hi n. apply H. apply in_seq in Hi. lia.
Qed.

Lemma update_short_history (s : t) (candles15m : list Candle15m.t) :
  (length candles15m < lookback s * 2 + 1)%nat ->
  update s candles15m = Some (s, []).
Proof.
  intros H. unfold update.
  apply Nat.ltb_lt in H. rewrite H. reflexivity.
Qed.

(** X27. On any detector and any candles: with fewer than [2L+1] candles
    [update] does nothing.
    Otherwise the candle at index [len-1-L] is confirmed as a high pivot
    (added to the high pool) exactly when its open time is not already in
    the high pool and its high is strictly greater than the high of each
    of the [L] candles on either side; it is confirmed as a low pivot
    exactly when its open time is not already in the low pool and its low
    is strictly less than the low of each of those candles. *)
Theorem update_confirms (s : t) (candles15m : list Candle15m.t) :
  let L := lookback s in
  let len := length candles15m in
  let idx := (len - 1 - L)%nat in
  ((len < 2 * L + 1)%nat -> update s candles15m = Some (s, [])) /\
  ((2 * L + 1 <= len)%nat ->
   exists candidate s' log,
     nth_error candles15m idx = Some candidate /\
     update s candles15m = Some (s', log) /\
     (confirmsHigh log (highEntry candidate idx) <->
      already (swingHighPool s) (Candle15m.openTime candidate) = false /\
      dominates candles15m Candle15m.high Qlt L idx candidate) /\
     (confirmsLow log (lowEntry candidate idx) <->
      already (swingLowPool s) (Candle15m.openTime candidate) = false /\
      dominates candles15m Candle15m.low (fun a b => b < a) L idx candidate) /\
     (confirmsHigh log (highEntry candidate idx) ->
      swingHighPool s' = _addToPool (maxPoolSize s) (swingHighPool s)
                                    (highEntry candidate idx)) /\
     (~ confirmsHigh log (highEntry candidate idx) ->
      swingHighPool s' = swingHighPool s) /\
     (confirmsLow log (lowEntry candidate idx) ->
      swingLowPool s' = _addToPool (maxPoolSize s) (swingLowPool s)
                                   (lowEntry candidate idx)) /\
     (~ confirmsLow log (lowEntry candidate idx) ->
      swingLowPool s' = swingLowPool s)).
Proof.
  cbn zeta. split.
  - intros H. apply update_short_history. lia.
  - intros Hlen.
    set (L := lookback s) in *.
    set (idx := (length candles15m - 1 - L)%nat).
    destruct (nth_error candles15m idx) as [candidate|] eqn:Hc;
      [|apply nth_error_None in Hc; subst idx; lia].
    destruct (isSwing_spec candles15m Candle15m.high Qgeb Qlt L idx candidate
                Qgeb_false) as (rh & Hrh & Hh); [subst idx; lia|].
    destruct (isSwing_spec candles15m Candle15m.low Qleb (fun a b => b < a)
                L idx candidate Qleb_false) as (rl & Hrl & Hl);
      [subst idx; lia|].
    exists candidate.
    unfold update, isSwingHigh, isSwingLow. fold L. fold idx.
    assert ((length candles15m <? L * 2 + 1)%nat = false) as E1
      by (apply Nat.ltb_ge; lia).
    assert ((idx <? L)%nat = false) as E2
      by (apply Nat.ltb_ge; subst idx; lia).
    rewrite E1, E2, Hc, Hrh, Hrl.
    unfold confirmsHigh, confirmsLow.
    destruct (already (swingHighPool s) (Candle15m.openTime candidate));
      destruct (already (swingLowPool s) (Candle15m.openTime candidate));
      destruct rh; destruct rl;
      (eexists; eexists; split; [reflexivity|]; split; [reflexivity|];
       cbn [swingHighPool swingLowPool app In];
       repeat split;
       try solve [ intuition (try discriminate; try congruence)
                 | intros; apply Hh; reflexivity
                 | intros; apply Hl; reflexivity ]).
Qed.

End PivotUpdate.

(** ** Sorting and sums *)
Section SortFacts.
Context {A : Type} (leb : A -> A -> bool).

Lemma insertBy_perm (x : A) (l : list A) :
  Permutation (insertBy leb x l) (x :: l).
Proof.
  induction l as [|y l IH]; cbn; [reflexivity|].
  destruct (leb x y); [reflexivity|].
  rewrite IH. apply perm_swap.
Qed.

Lemma sortBy_perm (l : list A) : Permutation (sortBy leb l) l.
Proof.
  induction l as [|x l IH]; cbn; [reflexivity|].
  rewrite insertBy_perm. constructor. exact IH.
Qed.

Hypothesis leb_total : forall a b, leb a b = false -> leb b a = true.
Hypothesis leb_trans :
  forall a b c, leb a b = true -> leb b c = true -> leb a c = true.

Lemma insertBy_sorted (x : A) (l : list A) :
  StronglySorted (fun a b => leb a b = true) l ->
  StronglySorted (fun a b => leb a b = true) (insertBy leb x l).
Proof.
  induction 1 as [|y l Hs IH Hall]; cbn.
  - constructor; constructor.
  - destruct (leb x y) eqn:E.
    + constructor; [constructor; assumption|].
      constructor; [exact E|].
      eapply Forall_impl; [|exact Hall].
      intros a Ha. eapply leb_trans; eassumption.
    + constructor; [exact IH|].
      eapply Permutation_Forall; [symmetry; apply insertBy_perm|].
      constructor; [apply leb_total; exact E | exact Hall].
Qed.

Lemma sortBy_sorted (l : list A) :
  StronglySorted (fun a b => leb a b = true) (sortBy leb l).
Proof.
  induction l as [|x l IH]; cbn; [constructor|].
  apply insertBy_sorted. exact IH.
Qed.

End SortFacts.

Section SumFacts.
Context {ar : Rounding}.





End SumFacts.

(** ** FootprintEngine.calculate: the point of control *)
Section PointOfControl.
Context {ar : Rounding}.
Import FootprintEngine FootprintSpec.

Lemma byPrice_total a b : byPrice a b = false -> byPrice b a = true.
Proof.
  unfold byPrice. intros H.
  destruct (Qle_bool (cl_price b) (cl_price a)) eqn:E; [reflexivity|].
  assert (~ cl_price a <= cl_price b)
    by (intro Hle; apply Qle_bool_iff in Hle; congruence).
  assert (~ cl_price b <= cl_price a)
    by (intro Hle; apply Qle_bool_iff in Hle; congruence).
  lra.
Qed.

Lemma byPrice_trans a b c :
  byPrice a b = true -> byPrice b c = true -> byPrice a c = true.
Proof.
  unfold byPrice. rewrite !Qle_bool_iff. lra.
Qed.

Lemma pickPoc_cases (mx c : Cluster) :
  (pickPoc mx c = c /\ cl_totalVolume mx < cl_totalVolume c) \/
  (pickPoc mx c = mx /\ cl_totalVolume c <= cl_totalVolume mx).
Proof.
  unfold pickPoc.
  destruct (Qltb (cl_totalVolume mx) (cl_totalVolume c)) eqn:E.
  - left. split; [reflexivity | apply Qltb_lt; exact E].
  - right. split; [reflexivity | apply Qltb_ge; exact E].
Qed.

Lemma fold_pickPoc_best (l seen : list Cluster) (acc : Cluster) :
  best seen acc ->
  (forall c x, In c seen -> In x l -> cl_price c <= cl_price x) ->
  StronglySorted (fun a b => byPrice a b = true) l ->
  best (seen ++ l) (fold_left pickPoc l acc).
Proof.
  revert seen acc. induction l as [|y l IH]; intros seen acc Hb Hle Hs.
  - cbn. rewrite app_nil_r. exact Hb.
  - cbn [fold_left].
    replace (seen ++ y :: l) with ((seen ++ [y]) ++ l)
      by (rewrite <- app_assoc; reflexivity).
    inversion Hs as [|? ? Hs' Hall]; subst.
    apply IH.
    + destruct Hb as [Hin Hbest].
      destruct (pickPoc_cases acc y) as [[-> Hlt] | [-> Hge]].
      * split; [apply in_or_app; right; left; reflexivity|].
        intros c Hc. apply in_app_or in Hc as [Hc | [<- | []]].
        -- destruct (Hbest c Hc) as [H1 _]. split; [lra | intro; lra].
        -- split; [lra | intro; lra].
      * split; [apply in_or_app; left; exact Hin|].
        intros c Hc. apply in_app_or in Hc as [Hc | [<- | []]].
        -- apply Hbest. exact Hc.
        -- split; [exact Hge|]. intros _. apply Hle; [exact Hin | left; reflexivity].
    + intros c x Hc Hx. apply in_app_or in Hc as [Hc | [<- | []]].
      * apply Hle; [exact Hc | right; exact Hx].
      * rewrite Forall_forall in Hall. specialize (Hall x Hx).
        unfold byPrice in Hall. apply Qle_bool_iff in Hall. exact Hall.
    + exact Hs'.
Qed.

Lemma pickPoc_self (c : Cluster) : pickPoc c c = c.
Proof. destruct (pickPoc_cases c c) as [[H _] | [H _]]; exact H. Qed.

Lemma best_perm (l1 l2 : list Cluster) (r : Cluster) :
  Permutation l1 l2 -> best l1 r -> best l2 r.
Proof.
  intros Hp [Hin Hb]. split.
  - eapply Permutation_in; eassumption.
  - intros c Hc. apply Hb. eapply Permutation_in; [symmetry|]; eassumption.
Qed.

(** C6. On a non-empty set of clusters [calculate] returns a footprint
    whose clusters are the accumulated ones in ascending price order and
    whose point of control is a cluster of greatest total volume; among
    clusters of that volume it is one of least price. *)
Theorem calculate_poc (s : t) :
  e_clusters s <> [] ->
  exists fp pocCluster,
    calculate s = Some fp /\
    Permutation (clusters fp) (e_clusters s) /\
    StronglySorted (fun a b => cl_price a <= cl_price b) (clusters fp) /\
    In pocCluster (e_clusters s) /\
    poc fp = cl_price pocCluster /\
    pocVolume fp = cl_totalVolume pocCluster /\
    (forall c, In c (e_clusters s) ->
               cl_totalVolume c <= cl_totalVolume pocCluster) /\
    (forall c, In c (e_clusters s) ->
               cl_totalVolume c == cl_totalVolume pocCluster ->
               cl_price pocCluster <= cl_price c).
Proof.
  intros Hne. unfold calculate.
  destruct (e_clusters s) as [|c0 cs] eqn:Ecs; [congruence|].
  pose proof (sortBy_perm byPrice (c0 :: cs)) as Hperm.
  pose proof (sortBy_sorted byPrice byPrice_total byPrice_trans (c0 :: cs))
    as Hsorted.
  destruct (sortBy byPrice (c0 :: cs)) as [|first rest] eqn:Esort.
  - apply Permutation_nil in Hperm. discriminate.
  - assert (best (first :: rest) (fold_left pickPoc (first :: rest) first))
      as Hbest.
    { cbn [fold_left]. rewrite pickPoc_self.
      inversion Hsorted as [|? ? Hs' Hall]; subst.
      apply (fold_pickPoc_best rest [first] first).
      - split; [left; reflexivity|].
        intros c [<- | []]. split; [lra | intro; lra].
      - intros c x [<- | []] Hx.
        rewrite Forall_forall in Hall. specialize (Hall x Hx).
        unfold byPrice in Hall. apply Qle_bool_iff in Hall. exact Hall.
      - exact Hs'. }
    apply (best_perm _ _ _ Hperm) in Hbest. destruct Hbest as [Hin Hb].
    eexists. exists (fold_left pickPoc (first :: rest) first).
    split; [reflexivity|]. cbn [clusters poc pocVolume].
    split; [exact Hperm|].
    split.
    { eapply StronglySorted_ind with
        (P := StronglySorted (fun a b => cl_price a <= cl_price b));
        [constructor | | exact Hsorted].
      intros a l _ IH Hall. constructor; [exact IH|].
      eapply Forall_impl; [|exact Hall].
      intros b Hab. unfold byPrice in Hab. apply Qle_bool_iff. exact Hab. }
    split; [exact Hin|].
    split; [reflexivity|]. split; [reflexivity|].
    split; intros c Hc; apply Hb; exact Hc.
Qed.

End PointOfControl.

(** ** FootprintEngine: volume accounting *)
Section VolumeAccounting.
Context {ar : Rounding}.
Import FootprintEngine FootprintSpec.
Variable cfg : Config.






Section NoRounding.
Hypothesis exact_add : forall x y, fadd x y == x + y.






End NoRounding.


End VolumeAccounting.

(** ** CandleBuilder: coarse buckets *)
Section CoarseBuckets.
Context {ar : Rounding}.
Import CandleBuilder CoarseSpec.

Lemma aggregate_snoc (f : Candle) (ms : list Candle) (c : Candle) :
  aggregate (f, ms ++ [c]) = _update15m (aggregate (f, ms)) c.
Proof.
  unfold aggregate, _update15m. cbn [Candle15m.windowId Candle15m.openTime
    Candle15m.open Candle15m.high Candle15m.low Candle15m.close
    Candle15m.volume Candle15m.count].
  rewrite !map_app, !fold_left_app, last_last, length_app.
  cbn [map fold_left length]. rewrite Nat.add_1_r. reflexivity.
Qed.

Lemma runsFrom_nonempty (g : Candle * list Candle) (cs : list Candle) :
  runsFrom g cs <> [].
Proof.
  revert g. induction cs as [|x cs IH]; intros g; cbn; [discriminate|].
  destruct (_ =? _)%Z; [apply IH | discriminate].
Qed.

Lemma last_default {A} (l : list A) (a b : A) :
  l <> [] -> last l a = last l b.
Proof.
  induction l as [|x l IH]; [congruence|]. intros _.
  destruct l as [|y l]; [reflexivity|].
  change (last (y :: l) a = last (y :: l) b). apply IH. discriminate.
Qed.

(** The builder with an open coarse bucket that is the fold of the run
    [g], fed with [cs]. *)
Lemma feed_open (s : t) (g : Candle * list Candle) (cs : list Candle) :
  current15m s = Some (aggregate g) ->
  closes15m (snd (feed s cs)) = map aggregate (removelast (runsFrom g cs)) /\
  current15m (fst (feed s cs)) = Some (aggregate (last (runsFrom g cs) g)).
Proof.
  revert s g. induction cs as [|c cs IH]; intros s [f ms] Hcur.
  - cbn. split; [reflexivity | exact Hcur].
  - cbn [feed runsFrom fst snd]. unfold _on1mClose. rewrite Hcur.
    replace (Candle15m.windowId (aggregate (f, ms))) with (windowIdOf f)
      by reflexivity.
    destruct (windowIdOf c =? windowIdOf f)%Z.
    + specialize (IH (setCurrent15m s (_update15m (aggregate (f, ms)) c))
                     (f, ms ++ [c])).
      destruct (feed (setCurrent15m s (_update15m (aggregate (f, ms)) c)) cs)
        as [s2 ev2] eqn:Ef.
      cbn [fst snd app closes15m] in *.
      destruct IH as [IH1 IH2];
        [rewrite aggregate_snoc; reflexivity|].
      split; [exact IH1|]. rewrite IH2. f_equal. f_equal.
      apply last_default, runsFrom_nonempty.
    + unfold _close15m.
      set (s1 := setCurrent15m _ (_create15mFrom1m c (windowIdOf c))).
      specialize (IH s1 (c, [])).
      destruct (feed s1 cs) as [s2 ev2] eqn:Ef.
      cbn [fst snd app closes15m] in *.
      destruct IH as [IH1 IH2]; [reflexivity|].
      pose proof (runsFrom_nonempty (c, []) cs) as Hne.
      destruct (runsFrom (c, []) cs) as [|g1 rs] eqn:Er; [congruence|].
      split.
      * rewrite IH1. reflexivity.
      * rewrite IH2. f_equal. f_equal.
        change (last (g1 :: rs) (c, []) = last (g1 :: rs) (f, ms)).
        apply last_default. discriminate.
Qed.

Lemma runsFrom_concat (g : Candle * list Candle) (cs : list Candle) :
  concat (map members (runsFrom g cs)) = members g ++ cs.
Proof.
  revert g. induction cs as [|c cs IH]; intros [f ms]; cbn [runsFrom fst snd].
  - cbn. rewrite !app_nil_r. reflexivity.
  - destruct (_ =? _)%Z.
    + rewrite IH. unfold members. cbn [fst snd app].
      rewrite <- app_assoc. reflexivity.
    + cbn [map concat]. rewrite IH. reflexivity.
Qed.

Lemma runsFrom_sameWindow (g : Candle * list Candle) (cs : list Candle) :
  sameWindow g -> Forall sameWindow (runsFrom g cs).
Proof.
  revert g. induction cs as [|c cs IH]; intros [f ms] Hg; cbn [runsFrom fst snd].
  - constructor; [exact Hg | constructor].
  - destruct (windowIdOf c =? windowIdOf f)%Z eqn:E.
    + apply IH. unfold sameWindow in *. cbn [fst snd] in *.
      apply Forall_app. split; [exact Hg|].
      constructor; [apply Z.eqb_eq; exact E | constructor].
    + constructor; [exact Hg|]. apply IH. constructor.
Qed.

Lemma runsFrom_head (g : Candle * list Candle) (cs : list Candle) :
  exists ms rest, runsFrom g cs = (fst g, ms) :: rest.
Proof.
  revert g. induction cs as [|c cs IH]; intros [f ms]; cbn [runsFrom fst snd].
  - exists ms, []. reflexivity.
  - destruct (_ =? _)%Z.
    + destruct (IH (f, ms ++ [c])) as (ms' & rest & ->).
      exists ms', rest. reflexivity.
    + exists ms. eexists. reflexivity.
Qed.

Lemma runsFrom_maximal (g : Candle * list Candle) (cs : list Candle) :
  maximal (runsFrom g cs).
Proof.
  revert g. induction cs as [|c cs IH]; intros [f ms]; cbn [runsFrom fst snd].
  - exact I.
  - destruct (windowIdOf c =? windowIdOf f)%Z eqn:E; [apply IH|].
    specialize (IH (c, [])).
    destruct (runsFrom_head (c, []) cs) as (ms' & rest & Hr).
    rewrite Hr in *. cbn [maximal fst]. split; [|exact IH].
    apply Z.eqb_neq. exact E.
Qed.

Lemma aggregate_foldOf (g : Candle * list Candle) : foldOf g (aggregate g).
Proof.
  destruct g as [f ms]. unfold foldOf, aggregate, members.
  cbn [fst snd map Candle15m.windowId Candle15m.openTime Candle15m.open
       Candle15m.high Candle15m.low Candle15m.close Candle15m.volume
       Candle15m.count length].
  split; [reflexivity|]. split; [reflexivity|]. split; [reflexivity|].
  split; [apply fold_Qmax_spec|]. split; [apply fold_Qmin_spec|].
  split; [reflexivity|].
  split; reflexivity.
Qed.

(** C9. The coarse window id of a base bucket is
    [floor(openTime / 900000)].  Feeding closed base buckets to a new
    builder splits them, in arrival order, into maximal runs of one
    window id; the coarse buckets emitted are the folds of all runs but
    the last, in order, and the open coarse bucket is the fold of the
    last run, where the fold of a run has the first member's open time
    and open, the greatest high, the least low, the last member's close,
    the volumes added in arrival order (as JavaScript adds them) and the
    number of members. *)
Theorem coarse_buckets_are_folds (cs : list Candle) :
  let rs := runs cs in
  let out := feed new cs in
  (forall c, (900000 * windowIdOf c <= openTime c
              < 900000 * windowIdOf c + 900000)%Z) /\
  concat (map members rs) = cs /\
  Forall sameWindow rs /\
  maximal rs /\
  closes15m (snd out) = map aggregate (removelast rs) /\
  current15m (fst out) = last (map (fun g => Some (aggregate g)) rs) None /\
  (forall g, foldOf g (aggregate g)).
Proof.
  cbn zeta. split.
  { intros c. unfold windowIdOf.
    change (15 * 60 * 1000)%Z with 900000%Z.
    pose proof (Z.div_mod (openTime c) 900000 ltac:(lia)).
    pose proof (Z.mod_pos_bound (openTime c) 900000 ltac:(lia)). lia. }
  destruct cs as [|c cs].
  - cbn [runs feed map concat removelast last closes15m fst snd new
         current15m maximal].
    split; [reflexivity|]. split; [constructor|]. split; [exact I|].
    split; [reflexivity|]. split; [reflexivity|]. apply aggregate_foldOf.
  - unfold runs.
    split; [apply (runsFrom_concat (c, []) cs)|].
    split; [apply runsFrom_sameWindow; constructor|].
    split; [apply runsFrom_maximal|].
    cbn [feed]. unfold _on1mClose. cbn [current15m new].
    set (s1 := setCurrent15m _ _).
    destruct (feed_open s1 (c, []) cs eq_refl) as [H1 H2].
    destruct (feed s1 cs) as [s2 ev2].
    cbn [fst snd app closes15m] in *.
    split; [exact H1|].
    split; [|apply aggregate_foldOf].
    rewrite H2.
    pose proof (runsFrom_nonempty (c, []) cs) as Hne.
    generalize dependent (runsFrom (c, []) cs). intros l _ _ Hne.
    generalize (c, @nil Candle). intros d.
    induction l as [|x l IH]; [congruence|].
    destruct l as [|y l]; [reflexivity|].
    change (Some (aggregate (last (y :: l) d))
            = last (map (fun g => Some (aggregate g)) (y :: l)) None).
    apply IH. discriminate.
Qed.

End CoarseBuckets.

(** ** Pools and the confirmation handler *)
Section PoolsAndHandler.
Context {ar : Rounding}.
Import SwingDetector.

(** [clearSweptLevels('high', swept)] keeps exactly the pivots of the high
    pool whose time is the time of no swept pivot, and leaves the low
    pool alone; with any other type it is the other way round. *)
Lemma clearSweptLevels_high (s : t) (swept : list Swing) :
  let s' := clearSweptLevels s "high" swept in
  (forall p, In p (swingHighPool s') <->
             In p (swingHighPool s) /\
             ~ exists x, In x swept /\ time x = time p) /\
  swingLowPool s' = swingLowPool s.
Proof.
  cbn zeta. unfold clearSweptLevels. cbn [String.eqb Ascii.eqb Bool.eqb].
  cbn [swingHighPool swingLowPool]. split; [|reflexivity].
  intros p. rewrite filter_In, negb_true_iff. unfold sweptTimesHas.
  split; intros [Hin Hn]; (split; [exact Hin|]).
  - intros (x & Hx & Ht).
    assert (existsb (fun x => (time x =? time p)%Z) swept = true) as E
      by (apply existsb_exists; exists x; split; [exact Hx | apply Z.eqb_eq, Ht]).
    congruence.
  - destruct (existsb _ swept) eqn:E; [|reflexivity].
    exfalso. apply Hn. apply existsb_exists in E as (x & Hx & Ht).
    exists x. split; [exact Hx | apply Z.eqb_eq, Ht].
Qed.

Lemma clearSweptLevels_low (s : t) (swept : list Swing) :
  let s' := clearSweptLevels s "low" swept in
  (forall p, In p (swingLowPool s') <->
             In p (swingLowPool s) /\
             ~ exists x, In x swept /\ time x = time p) /\
  swingHighPool s' = swingHighPool s.
Proof.
  cbn zeta. unfold clearSweptLevels. cbn [String.eqb Ascii.eqb Bool.eqb].
  cbn [swingHighPool swingLowPool]. split; [|reflexivity].
  intros p. rewrite filter_In, negb_true_iff. unfold sweptTimesHas.
  split; intros [Hin Hn]; (split; [exact Hin|]).
  - intros (x & Hx & Ht).
    assert (existsb (fun x => (time x =? time p)%Z) swept = true) as E
      by (apply existsb_exists; exists x; split; [exact Hx | apply Z.eqb_eq, Ht]).
    congruence.
  - destruct (existsb _ swept) eqn:E; [|reflexivity].
    exfalso. apply Hn. apply existsb_exists in E as (x & Hx & Ht).
    exists x. split; [exact Hx | apply Z.eqb_eq, Ht].
Qed.






End PoolsAndHandler.

(** ** The scenarios, through the theorems *)
Section Scenarios.
#[local] Existing Instance binary64.
Import AbsorptionDetector Candidacy.

Lemma scenario_upper :
  upper Scenario.cfg Scenario.detector Scenario.candleUp
        Scenario.footprintUp (snd (Scenario.sweptBy Scenario.candleUp)).
Proof.
  unfold upper. repeat split; vm_compute; solve [lia | reflexivity].
Defined.

Lemma scenario_lower :
  lower Scenario.cfg Scenario.pendingShort Scenario.candleDown
        Scenario.footprintDown (fst (Scenario.sweptBy Scenario.candleDown)).
Proof.
  unfold lower. repeat split; vm_compute; solve [lia | reflexivity].
Defined.

(** With a mean volume of 0.6 and a multiplier of 1.5 the volume
    threshold is 0.8999999999999999, and a bucket of volume 0.9
    registers. *)
Example scenario_threshold :
  volumeThreshold Scenario.cfg Examples.quietDetector
  = double (8999999999999999 # 10000000000000000) /\
  state (pending (det (Scenario.check Examples.quietDetector
                                      Scenario.candleUp
                                      Examples.footprintNine)))
  = SHORT.
Proof. split; vm_compute; reflexivity. Qed.

(** The sweeping bucket of the scenario registers a SHORT candidate:
    the pending record holds the bucket, its footprint, the two swept
    highs and the sweep price 105. *)
Lemma checkCandle_candidacy_witness :
  registersShort
    (Scenario.check Scenario.detector Scenario.candleUp Scenario.footprintUp)
  /\ pending (det (Scenario.check Scenario.detector Scenario.candleUp
                                  Scenario.footprintUp))
     = {| state := SHORT;
          candle := Some Scenario.candleUp;
          footprint := Some Scenario.footprintUp;
          sweptLows := None;
          sweptHighs := Some {| sh_swept := Scenario.highPool;
                                sh_count := 2;
                                lowestSweptLevel := Some 103;
                                highestLevel := Some 104 |};
          sweepPrice := Some 105;
          confirmCount := 0 |}
  /\ stats (det (Scenario.check Scenario.detector Scenario.candleUp
                                Scenario.footprintUp))
     = stats Scenario.detector.
Proof.
  destruct (checkCandle_candidacy Scenario.cfg Scenario.detector
              Scenario.candleUp (Some Scenario.footprintUp)
              (fst (Scenario.sweptBy Scenario.candleUp))
              (snd (Scenario.sweptBy Scenario.candleUp))) as [_ H].
  destruct (H Scenario.footprintUp eq_refl eq_refl) as (HS & HP & _).
  split; [apply HS, scenario_upper|].
  unfold Scenario.check.
  rewrite (HP scenario_upper). split; reflexivity.
Defined.

(** Scenario D with a tie: the next high equals the sweep price and the
    SHORT signal is returned. *)
Lemma checkConfirmation_resolves_witness :
  exists o data,
    checkConfirmation Scenario.pendingShort Scenario.candleTie None
    = Return o /\
    pending (det o) = _emptyPending /\
    result o = Signal SHORT_SIGNAL data /\
    swingLevel data = Some 104.
Proof.
  destruct (checkConfirmation_resolves Scenario.pendingShort
              Scenario.candleTie None) as [H _].
  destruct (H Scenario.candleUp Scenario.footprintUp
              (snd (Scenario.sweptBy Scenario.candleUp)) 105 0%nat eq_refl)
    as (o & Ho & Hp & _ & _ & _ & Hc).
  destruct Hc as (data & Hd & _ & _ & _ & Hl & _);
    [vm_compute; discriminate|].
  exists o, data. repeat split; assumption.
Defined.


Lemma scenario_pendingShort :
  Scenario.pendingShort
  = det (Scenario.check Scenario.detector Scenario.candleUp
                        Scenario.footprintUp).
Proof. vm_compute. reflexivity. Defined.

Lemma scenario_reachable : reachable Scenario.cfg Scenario.pendingShort.
Proof.
  rewrite scenario_pendingShort.
  unfold Scenario.check, Scenario.detector.
  apply reach_checkCandle, reach_updateStats, reach_new.
Defined.

(** Scenario C: the next high exceeds the sweep price; the call returns
    with the detector idle and without the limit line. *)
Lemma checkConfirmation_single_call_witness :
  exists o,
    checkConfirmation Scenario.pendingShort Scenario.candleAbove None
    = Return o /\
    state (pending (det o)) = NONE /\
    ~ In InfoLimitCancelled (log o).
Proof.
  destruct (checkConfirmation_single_call Scenario.cfg Scenario.pendingShort
              scenario_reachable) as (_ & _ & H).
  destruct (H Scenario.candleAbove None) as (o & Ho & Hs & _ & Hl).
  exists o. repeat split; assumption.
Defined.

(** C5, as stated, fails: with the SHORT candidate pending, a bucket
    that meets the LONG conditions makes [checkCandle] replace it. *)
Lemma checkCandle_replaces_pending :
  state (pending Scenario.pendingShort) = SHORT /\
  registersLong
    (Scenario.check Scenario.pendingShort Scenario.candleDown
                    Scenario.footprintDown) /\
  state (pending (det (Scenario.check Scenario.pendingShort
                                      Scenario.candleDown
                                      Scenario.footprintDown))) = LONG /\
  candle (pending (det (Scenario.check Scenario.pendingShort
                                       Scenario.candleDown
                                       Scenario.footprintDown)))
  = Some Scenario.candleDown /\
  det (Scenario.check Scenario.pendingShort Scenario.candleDown
                      Scenario.footprintDown)
  <> Scenario.pendingShort.
Proof.
  split; [vm_compute; reflexivity|]. split.
  - exists [95; 96]. vm_compute. right. left. reflexivity.
  - split; [vm_compute; reflexivity|]. split; [vm_compute; reflexivity|].
    intros H. apply (f_equal (fun d => state (pending d))) in H.
    vm_compute in H. discriminate.
Qed.

(** The LONG candidate that replaces the pending SHORT one: the new
    bucket, its footprint, the two swept lows and the sweep price 94. *)
Lemma checkCandle_while_pending_witness :
  pending (det (Scenario.check Scenario.pendingShort Scenario.candleDown
                               Scenario.footprintDown))
  = {| state := LONG;
       candle := Some Scenario.candleDown;
       footprint := Some Scenario.footprintDown;
       sweptLows := Some {| sl_swept := Scenario.lowPool;
                            sl_count := 2;
                            highestSweptLevel := Some 96;
                            deepestLevel := Some 95 |};
       sweptHighs := None;
       sweepPrice := Some 94;
       confirmCount := 0 |}.
Proof.
  change (Some {| sl_swept := Scenario.lowPool;
                  sl_count := 2;
                  highestSweptLevel := Some 96;
                  deepestLevel := Some 95 |})
    with (Some (fst (Scenario.sweptBy Scenario.candleDown))).
  change (Some 94) with (Some (low Scenario.candleDown)).
  destruct (checkCandle_while_pending Scenario.cfg Scenario.pendingShort
              Scenario.candleDown (Some Scenario.footprintDown)
              (fst (Scenario.sweptBy Scenario.candleDown))
              (snd (Scenario.sweptBy Scenario.candleDown)))
    as [_ H]; [vm_compute; discriminate|].
  destruct (H Scenario.footprintDown eq_refl eq_refl) as (_ & _ & HL).
  apply HL, scenario_lower.
Defined.

End Scenarios.

Section PivotScenarios.
#[local] Existing Instance binary64.
Import SwingDetector PivotSpec.

Lemma scenario_dominates :
  dominates Scenario.history Candle15m.high Qlt 2 2 (Scenario.coarse 2 110 92).
Proof.
  intros i n Hi H.
  assert (i = 1 \/ i = 2)%nat as [-> | ->] by lia;
    cbn in H; destruct H as [H | H]; injection H as <-;
    vm_compute; reflexivity.
Defined.

Lemma scenario_replayed_dominates :
  dominates Scenario.historyReplayed Candle15m.high Qlt 2 2
            (Scenario.coarse 2 120 92).
Proof.
  intros i n Hi H.
  assert (i = 1 \/ i = 2)%nat as [-> | ->] by lia;
    cbn in H; destruct H as [H | H]; injection H as <-;
    vm_compute; reflexivity.
Qed.

(** What the guard on recorded times does, on candles the bot never
    passes: the high pool holds a pivot with the open time of the
    candidate, so [update] does not evaluate the candidate: its high is
    above all its neighbours', and it is not confirmed, the pool stays as
    it was and does not hold its price. *)
Lemma update_skips_recorded_time :
  (2 * lookback Scenario.afterFirstUpdate + 1
   <= length Scenario.historyReplayed)%nat /\
  nth_error Scenario.historyReplayed 2 = Some (Scenario.coarse 2 120 92) /\
  dominates Scenario.historyReplayed Candle15m.high Qlt 2 2
            (Scenario.coarse 2 120 92) /\
  update Scenario.afterFirstUpdate Scenario.historyReplayed
  = Some (Scenario.afterFirstUpdate, []) /\
  ~ confirmsHigh [] (highEntry (Scenario.coarse 2 120 92) 2) /\
  ~ In (highEntry (Scenario.coarse 2 120 92) 2)
       (swingHighPool Scenario.afterFirstUpdate).
Proof.
  split; [vm_compute; lia|].
  split; [reflexivity|]. split; [exact scenario_replayed_dominates|].
  split; [vm_compute; reflexivity|]. split; [intros []|].
  vm_compute. intros [H | []]. discriminate H.
Qed.

(** Scenario B: on the first [update] the middle bucket is confirmed. *)
Lemma update_confirms_witness :
  exists s' log,
    update (new Scenario.cfg) Scenario.history = Some (s', log) /\
    confirmsHigh log (highEntry (Scenario.coarse 2 110 92) 2) /\
    swingHighPool s' = [highEntry (Scenario.coarse 2 110 92) 2].
Proof.
  destruct (update_confirms (new Scenario.cfg) Scenario.history) as [_ H].
  destruct H as (cand & s' & log & Hc & Hu & Hh & _ & Hp & _);
    [vm_compute; lia|].
  cbn in Hc. injection Hc as <-.
  assert (confirmsHigh log (highEntry (Scenario.coarse 2 110 92) 2)) as Hconf
    by (apply Hh; split; [reflexivity | exact scenario_dominates]).
  exists s', log. split; [exact Hu|]. split; [exact Hconf|].
  rewrite (Hp Hconf). reflexivity.
Defined.

End PivotScenarios.

Section EngineScenarios.
#[local] Existing Instance binary64.
Import FootprintEngine.

(** Scenario A: the point of control is the cluster at 100.5. *)
Lemma calculate_poc_witness :
  exists fp pocCluster,
    calculate Scenario.engine = Some fp /\
    In pocCluster (e_clusters Scenario.engine) /\
    poc fp = cl_price pocCluster /\
    (forall c, In c (e_clusters Scenario.engine) ->
               cl_totalVolume c <= cl_totalVolume pocCluster).
Proof.
  destruct (calculate_poc Scenario.engine) as
    (fp & pc & H1 & _ & _ & H4 & H5 & _ & H7 & _);
    [vm_compute; discriminate|].
  exists fp, pc. repeat split; assumption.
Defined.






(** Scenario A, evaluated: two clusters, the point of control at 100.5
    with volume 3, delta -1. *)
Example scenario_A :
  option_map (fun fp => (map cl_price (clusters fp), poc fp, pocVolume fp,
                         delta fp))
             (calculate Scenario.engine)
  = Some ([100; 201 # 2], 201 # 2, 3, -1).
Proof. vm_compute. reflexivity. Qed.

End EngineScenarios.

Section QueryScenarios.
#[local] Existing Instance binary64.
Import SwingDetector.

(** A higher query keeps the pivot swept by a lower one. *)
Lemma getSwept_exact_witness :
  incl (sh_swept (getSweptHighs Scenario.swings (1035 # 10)))
       (sh_swept (getSweptHighs Scenario.swings 105)).
Proof.
  destruct (getSwept_exact Scenario.swings (1035 # 10))
    as [(_ & _ & _ & _ & _ & H) _].
  apply H. vm_compute. discriminate.
Defined.

(** 103.5 sweeps the pivot at 103 alone, once. *)
Example scenario_swept :
  getSweptHighs Scenario.swings (1035 # 10)
  = {| sh_swept := [mkSwing 103 900000 2];
       sh_count := 1;
       lowestSweptLevel := Some 103;
       highestLevel := Some 103 |}.
Proof. vm_compute. reflexivity. Qed.

(** The stream of the scenario closes one coarse bucket. *)
Example scenario_stream :
  CandleBuilder.closes15m
    (snd (CandleBuilder.feed CandleBuilder.new Scenario.stream))
  = [Candle15m.mk 0 0 99 103 98 99 6 3].
Proof. vm_compute. reflexivity. Qed.

End QueryScenarios.

(** * Further properties *)

(** ** Trimmed lists *)
Section LastN.
Context {A : Type}.

Lemma lastN_length (n : nat) (l : list A) :
  length (lastN n l) = Nat.min n (length l).
Proof. unfold lastN. rewrite length_skipn. lia. Qed.

(** Appending to a window and dropping the oldest element when the bound
    is exceeded gives the window of the longer list. *)
Lemma tl_skipn (n : nat) (l : list A) : tl (skipn n l) = skipn (S n) l.
Proof.
  revert l. induction n as [|n IH]; intros [|a l]; try reflexivity.
  apply (IH l).
Qed.

(** Appending to a window and dropping the oldest element when the bound
    is exceeded gives the window of the longer list. *)
Lemma lastN_snoc (n : nat) (l : list A) (x : A) :
  (let w := lastN n l ++ [x] in
   if (n <? length w)%nat then tl w else w) = lastN n (l ++ [x]).
Proof.
  cbn zeta. rewrite length_app, lastN_length. cbn [length].
  unfold lastN. rewrite length_app. cbn [length].
  destruct (n <? Nat.min n (length l) + 1)%nat eqn:E.
  - apply Nat.ltb_lt in E.
    replace (length l + 1 - n)%nat with (S (length l - n)) by lia.
    rewrite <- tl_skipn, skipn_app.
    replace (length l - n - length l)%nat with 0%nat by lia. reflexivity.
  - apply Nat.ltb_ge in E.
    replace (length l - n)%nat with 0%nat by lia.
    replace (length l + 1 - n)%nat with 0%nat by lia. reflexivity.
Qed.

Lemma lastN_nil (n : nat) : lastN n (@nil A) = [].
Proof. reflexivity. Qed.

End LastN.

(** ** RollingStats *)
Section RollingWindow.
Context {ar : Rounding}.
Import RollingStats RollingSpec.

Lemma pushAll_snoc (s : t) (samples : list (Q * Q)) (x : Q * Q) :
  pushAll s (samples ++ [x]) = push (pushAll s samples) (fst x) (snd x).
Proof. unfold pushAll. rewrite fold_left_app. reflexivity. Qed.

Lemma pushAll_state (ws : nat) (samples : list (Q * Q)) :
  let s := pushAll (new ws) samples in
  windowSize s = ws /\
  volumes s = lastN ws (map fst samples) /\
  deltaValues s = lastN ws (map snd samples) /\
  absDeltaValues s = lastN ws (map (fun x => Qabs (snd x)) samples).
Proof.
  cbn zeta. induction samples as [|x samples IH] using rev_ind.
  - cbn. repeat split; reflexivity.
  - destruct IH as (Hw & Hv & Hd & Ha).
    rewrite pushAll_snoc. unfold push. rewrite Hw, Hv, Hd, Ha.
    rewrite !map_app. cbn [map].
    pose proof (lastN_snoc ws (map fst samples) (fst x)) as Lv.
    pose proof (lastN_snoc ws (map snd samples) (snd x)) as Ld.
    pose proof (lastN_snoc ws (map (fun x => Qabs (snd x)) samples)
                           (Qabs (snd x))) as La.
    cbn zeta in Lv, Ld, La.
    assert (length (lastN ws (map snd samples) ++ [snd x])
            = length (lastN ws (map fst samples) ++ [fst x])) as E1
      by (rewrite !length_app, !lastN_length, !length_map; reflexivity).
    assert (length (lastN ws (map (fun x => Qabs (snd x)) samples)
                      ++ [Qabs (snd x)])
            = length (lastN ws (map fst samples) ++ [fst x])) as E2
      by (rewrite !length_app, !lastN_length, !length_map; reflexivity).
    rewrite E1 in Ld. rewrite E2 in La.
    destruct (ws <? length (lastN ws (map fst samples) ++ [fst x]))%nat;
      cbn [windowSize volumes deltaValues absDeltaValues];
      repeat split; assumption.
Qed.

(** X1. A window built by the constructor and fed sample after sample
    holds the last [windowSize] samples, oldest first: their volumes, their
    deltas and the absolute values of their deltas. *)
Theorem pushAll_window (ws : nat) (samples : list (Q * Q)) :
  let s := pushAll (new ws) samples in
  windowSize s = ws /\
  volumes s = lastN ws (map fst samples) /\
  deltaValues s = lastN ws (map snd samples) /\
  absDeltaValues s = lastN ws (map (fun x => Qabs (snd x)) samples).
Proof. exact (pushAll_state ws samples). Qed.

Lemma window_invariant_aux (ws : nat) (s : t) :
  reachable ws s ->
  windowSize s = ws /\
  (length (volumes s) <= ws)%nat /\
  length (deltaValues s) = length (volumes s) /\
  absDeltaValues s = map Qabs (deltaValues s).
Proof.
  induction 1 as [| s v d _ IH | s _ IH].
  - cbn. repeat split; try reflexivity. lia.
  - destruct IH as (Hw & Hl & Hd & Ha). unfold push. rewrite Hw.
    assert (length (volumes s ++ [v]) = S (length (volumes s))) as Lv
      by (rewrite length_app; cbn; lia).
    destruct (ws <? length (volumes s ++ [v]))%nat eqn:E;
      cbn [windowSize volumes deltaValues absDeltaValues].
    + split; [reflexivity|].
      destruct (volumes s ++ [v]) as [|a vs] eqn:Ev; [cbn in Lv; lia|].
      destruct (deltaValues s ++ [d]) as [|b ds] eqn:Ed;
        [apply (f_equal (@length Q)) in Ed; rewrite length_app in Ed;
         cbn in Ed; lia|].
      cbn [tl]. cbn [length] in Lv.
      apply (f_equal (@length Q)) in Ed as Ld. rewrite length_app in Ld.
      cbn [length] in Ld.
      split; [lia|]. split; [lia|].
      rewrite Ha. change [Qabs d] with (map Qabs [d]).
      rewrite <- map_app, Ed. reflexivity.
    + apply Nat.ltb_ge in E.
      split; [reflexivity|]. split; [lia|].
      split; [rewrite !length_app, Hd; reflexivity|].
      rewrite Ha, map_app. reflexivity.
  - destruct IH as (Hw & _). cbn. rewrite Hw.
    repeat split; try reflexivity. lia.
Qed.

(** X2. In every state of a window (constructor, [push], [reset]) the
    three series have the same length, at most [windowSize], and the
    absolute deltas are those of the signed deltas, position by
    position. *)
Theorem window_invariant (ws : nat) (s : t) :
  reachable ws s ->
  windowSize s = ws /\
  (length (volumes s) <= ws)%nat /\
  length (deltaValues s) = length (volumes s) /\
  absDeltaValues s = map Qabs (deltaValues s).
Proof. exact (window_invariant_aux ws s). Qed.

(** X3. In every state of a window the three means are 0 when the
    window is empty, and otherwise the JavaScript quotient of the
    JavaScript sum of the series by the number of samples.  When rounding
    makes no number negative (as the rounding of doubles does), the mean
    absolute delta is not negative, and neither is the mean volume when
    no volume held is negative. *)
Theorem window_means (ws : nat) (s : t) :
  reachable ws s ->
  let n := inject_Z (Z.of_nat (length (volumes s))) in
  (volumes s = [] ->
   avgVolume s = 0 /\ avgAbsDelta s = 0 /\ avgDelta s = 0) /\
  (volumes s <> [] ->
   avgVolume s = fdiv (fsum (volumes s)) n /\
   avgAbsDelta s = fdiv (fsum (map Qabs (deltaValues s))) n /\
   avgDelta s = fdiv (fsum (deltaValues s)) n) /\
  ((forall x, 0 <= x -> 0 <= rnd x) ->
   0 <= avgAbsDelta s /\
   ((forall v, In v (volumes s) -> 0 <= v) -> 0 <= avgVolume s)).
Proof.
  intros Hr. cbn zeta.
  destruct (window_invariant_aux ws s Hr) as (_ & _ & Hd & Ha).
  unfold avgVolume, avgAbsDelta, avgDelta. rewrite Ha.
  assert (forall l : list Q, (forall x, 0 <= x -> 0 <= rnd x) ->
            (forall x, In x l -> 0 <= x) -> 0 <= mean l) as Hmean.
  { intros l Hrnd Hl. unfold mean. destruct l as [|a l]; [lra|].
    unfold fdiv. apply Hrnd.
    pose proof (fsum_nonneg (a :: l) Hrnd Hl) as Hs.
    assert (0 < inject_Z (Z.of_nat (length (a :: l)))) as Hn.
    { change 0 with (inject_Z 0). rewrite <- Zlt_Qlt. cbn [length]. lia. }
    apply Qle_shift_div_l; [exact Hn | lra]. }
  split; [|split].
  - intros Hv. rewrite Hv in Hd.
    destruct (deltaValues s); [|discriminate Hd].
    rewrite Hv. cbn. auto.
  - intros Hv.
    destruct (volumes s) as [|v vs] eqn:Ev; [congruence|].
    destruct (deltaValues s) as [|x xs] eqn:Ex; [discriminate Hd|].
    cbn [mean map]. rewrite <- Hd. cbn [length map].
    rewrite length_map. split; [reflexivity|]. split; reflexivity.
  - intros Hrnd. split.
    + apply Hmean; [exact Hrnd|].
      intros x Hx. apply in_map_iff in Hx as (y & <- & _).
      apply Qabs_nonneg.
    + intros Hv. apply Hmean; assumption.
Qed.

End RollingWindow.

Section Readiness.
Context {ar : Rounding}.
Import RollingStats RollingSpec.

(** X4. A window fed from the constructor reports ready exactly from the
    sample number [floor(windowSize / 2)] on; a window of size 0 or 1 is
    ready before any sample. *)
Theorem ready_after (ws : nat) (samples : list (Q * Q)) :
  (isReady (pushAll (new ws) samples) = true
   <-> (ws / 2 <= length samples)%nat) /\
  ((ws <= 1)%nat -> isReady (new ws) = true).
Proof.
  destruct (pushAll_state ws samples) as (Hw & Hv & _).
  unfold isReady. rewrite Hw, Hv, lastN_length, length_map, Nat.leb_le.
  pose proof (Nat.Div0.div_le_upper_bound ws 2 ws ltac:(lia)).
  split; [lia|].
  intros H1. cbn [new windowSize volumes length]. apply Nat.leb_le.
  destruct ws as [|[|ws]]; cbn; lia.
Qed.

End Readiness.

(** ** FootprintEngine: the cluster table *)
Section ClusterTable.
Context {ar : Rounding}.
Import FootprintEngine EngineSpec.
Variable cfg : Config.

Lemma fed_snoc (msgs : list AggTrade) (msg : AggTrade) :
  fed cfg (msgs ++ [msg]) = handleTrade cfg (fed cfg msgs) msg.
Proof. unfold fed. rewrite fold_left_app. reflexivity. Qed.

Lemma flowAt_snoc (side : bool) (level : Q) (msgs : list AggTrade)
      (msg : AggTrade) :
  flowAt cfg side level (msgs ++ [msg])
  = if isAggTrade msg && Bool.eqb (m msg) side
       && Qeq_bool (_snapToCluster cfg (p msg)) level
    then fadd (flowAt cfg side level msgs) (q msg)
    else flowAt cfg side level msgs.
Proof.
  unfold flowAt, tradesAt, fsum. rewrite filter_app, map_app, fold_left_app.
  cbn [filter].
  destruct (isAggTrade msg && Bool.eqb (m msg) side
            && Qeq_bool (_snapToCluster cfg (p msg)) level); reflexivity.
Qed.

Lemma has_false (cs : list Cluster) (level : Q) :
  has cs level = false <-> forall c, In c cs -> ~ cl_price c == level.
Proof.
  unfold has. split.
  - intros H c Hc E.
    assert (existsb (fun c => Qeq_bool (cl_price c) level) cs = true) as T
      by (apply existsb_exists; exists c; split;
          [exact Hc | apply Qeq_bool_iff; exact E]).
    congruence.
  - intros H. destruct (existsb _ cs) eqn:E; [|reflexivity].
    apply existsb_exists in E as (c & Hc & Ec).
    apply Qeq_bool_iff in Ec. destruct (H c Hc Ec).
Qed.

Lemma has_true (cs : list Cluster) (level : Q) :
  has cs level = true <-> exists c, In c cs /\ cl_price c == level.
Proof.
  unfold has. rewrite existsb_exists.
  split; intros (c & Hc & E); exists c; (split; [exact Hc|]);
    apply Qeq_bool_iff; exact E.
Qed.

Lemma updateAt_prices (level : Q) (f : Cluster -> Cluster)
      (cs : list Cluster) :
  (forall c, cl_price (f c) = cl_price c) ->
  map cl_price (updateAt level f cs) = map cl_price cs.
Proof.
  intros Hf. induction cs as [|c cs IH]; cbn; [reflexivity|].
  destruct (Qeq_bool (cl_price c) level); cbn; [rewrite Hf | rewrite IH];
    reflexivity.
Qed.

(** With distinct keys the cluster updated is the only one of its level. *)
Lemma updateAt_map (level : Q) (f : Cluster -> Cluster) (cs : list Cluster) :
  distinctLevels (map cl_price cs) ->
  updateAt level f cs
  = map (fun c => if Qeq_bool (cl_price c) level then f c else c) cs.
Proof.
  induction cs as [|c cs IH]; cbn [map updateAt distinctLevels];
    [reflexivity|].
  intros [Hc Hd]. destruct (Qeq_bool (cl_price c) level) eqn:E.
  - f_equal. apply Qeq_bool_iff in E.
    clear IH Hd. induction cs as [|x cs IH]; [reflexivity|].
    cbn [map]. destruct (Qeq_bool (cl_price x) level) eqn:Ex.
    + apply Qeq_bool_iff in Ex. exfalso.
      apply (Hc (cl_price x)); [left; reflexivity|].
      rewrite E, Ex. reflexivity.
    + f_equal. apply IH. intros k' Hk'. apply Hc. right. exact Hk'.
  - f_equal. apply IH. exact Hd.
Qed.

Lemma distinctLevels_snoc (ks : list Q) (k : Q) :
  distinctLevels ks -> (forall k', In k' ks -> ~ k' == k) ->
  distinctLevels (ks ++ [k]).
Proof.
  induction ks as [|a ks IH]; cbn [app distinctLevels].
  - intros _ _. split; [intros k' []|exact I].
  - intros [Ha Hd] Hk. split.
    + intros k' Hk'. apply in_app_or in Hk' as [Hk' | [<- | []]].
      * apply Ha. exact Hk'.
      * apply Hk. left. reflexivity.
    + apply IH; [exact Hd|]. intros k' Hk'. apply Hk. right. exact Hk'.
Qed.

Lemma flowAt_none (side : bool) (level : Q) (msgs : list AggTrade) :
  (forall msg, In msg msgs -> isAggTrade msg = true ->
               ~ _snapToCluster cfg (p msg) == level) ->
  flowAt cfg side level msgs = 0.
Proof.
  intros H. unfold flowAt, tradesAt.
  induction msgs as [|x msgs IH]; [reflexivity|].
  cbn [filter].
  destruct (isAggTrade x) eqn:Ea.
  - destruct (Qeq_bool (_snapToCluster cfg (p x)) level) eqn:E.
    + apply Qeq_bool_iff in E.
      destruct (H x (or_introl eq_refl) Ea E).
    + rewrite andb_false_r. apply IH.
      intros msg Hm. apply H. right. exact Hm.
  - cbn [andb]. apply IH. intros msg Hm. apply H. right. exact Hm.
Qed.

Lemma fed_table (msgs : list AggTrade) : tableOf cfg msgs (fed cfg msgs).
Proof.
  induction msgs as [|msg msgs IH] using rev_ind.
  - unfold tableOf. cbn. split; [exact I|]. split; [intros c []|intros m []].
  - rewrite fed_snoc. destruct IH as (Hd & Hc & Hm).
    set (s := fed cfg msgs) in *. unfold handleTrade.
    destruct (String.eqb (e msg) "aggTrade") eqn:Ea; cbn [negb].
    + (* an aggTrade message *)
      set (level := _snapToCluster cfg (p msg)).
      set (cs := if has (e_clusters s) level then e_clusters s
                 else e_clusters s ++ [mkCluster level 0 0 0 0]).
      assert (distinctLevels (map cl_price cs)) as Hd'.
      { subst cs. destruct (has (e_clusters s) level) eqn:Eh; [exact Hd|].
        rewrite map_app. apply distinctLevels_snoc; [exact Hd|].
        intros k' Hk'. apply in_map_iff in Hk' as (c & <- & Hin).
        apply (proj1 (has_false _ _) Eh). exact Hin. }
      assert (forall c, In c cs ->
                buyVolume c = flowAt cfg false (cl_price c) msgs /\
                sellVolume c = flowAt cfg true (cl_price c) msgs) as Hc'.
      { subst cs. intros c Hin.
        destruct (has (e_clusters s) level) eqn:Eh;
          [destruct (Hc c Hin) as (? & ? & _); split; assumption|].
        apply in_app_or in Hin as [Hin | [<- | []]];
          [destruct (Hc c Hin) as (? & ? & _); split; assumption|].
        cbn [buyVolume sellVolume cl_price].
        assert (forall x, In x msgs -> isAggTrade x = true ->
                          ~ _snapToCluster cfg (p x) == level) as Hno.
        { intros x Hx Hax E. destruct (Hm x Hx Hax) as (c & Hin & Ec).
          apply (proj1 (has_false _ _) Eh c Hin). rewrite Ec. exact E. }
        split; symmetry; apply flowAt_none; exact Hno. }
      assert (exists c, In c cs /\ cl_price c == level) as Hlevel.
      { subst cs. destruct (has (e_clusters s) level) eqn:Eh.
        - apply has_true. exact Eh.
        - exists (mkCluster level 0 0 0 0). split; [|reflexivity].
          apply in_or_app. right. left. reflexivity. }
      assert (forall c, In c (e_clusters s) -> In c cs) as Hsub.
      { subst cs. intros c Hin. destruct (has _ _); [exact Hin|].
        apply in_or_app. left. exact Hin. }
      unfold tableOf. cbn [e_clusters].
      rewrite (updateAt_map _ _ _ Hd').
      split.
      { rewrite map_map.
        erewrite map_ext; [exact Hd'|].
        intros c. cbn. destruct (Qeq_bool _ _); reflexivity. }
      split.
      { intros c' Hin. apply in_map_iff in Hin as (c & <- & Hin).
        destruct (Hc' c Hin) as [Hb Hs].
        destruct (Qeq_bool (cl_price c) level) eqn:E.
        - apply Qeq_bool_iff in E.
          unfold addTrade. cbn [buyVolume sellVolume cl_price
                                cl_totalVolume cl_delta].
          rewrite !flowAt_snoc. unfold isAggTrade. rewrite Ea.
          fold level.
          assert (Qeq_bool level (cl_price c) = true) as E'
            by (apply Qeq_bool_iff; symmetry; exact E).
          rewrite E'. cbn [andb].
          rewrite <- Hb, <- Hs.
          split; [destruct (m msg); reflexivity|].
          split; [destruct (m msg); reflexivity|].
          split; [reflexivity|]. split; [reflexivity|].
          exists msg. split; [apply in_or_app; right; left; reflexivity|].
          split; [exact Ea | symmetry; exact E].
        - rewrite !flowAt_snoc. fold level.
          assert (Qeq_bool level (cl_price c) = false) as E'.
          { destruct (Qeq_bool level (cl_price c)) eqn:E2; [|reflexivity].
            apply Qeq_bool_iff in E2. apply Qeq_bool_neq in E.
            exfalso. apply E. symmetry. exact E2. }
          rewrite E', !andb_false_r, <- Hb, <- Hs.
          split; [reflexivity|]. split; [reflexivity|].
          assert (In c (e_clusters s)) as Hold.
          { subst cs. destruct (has (e_clusters s) level); [exact Hin|].
            apply in_app_or in Hin as [Hin | [<- | []]]; [exact Hin|].
            cbn in E. rewrite Qeq_bool_refl in E. discriminate. }
          destruct (Hc c Hold) as (_ & _ & Ht & Hdl & x & Hx & Hax & Ex).
          split; [exact Ht|]. split; [exact Hdl|].
          exists x. split; [apply in_or_app; left; exact Hx|].
          split; assumption. }
      { intros x Hx Hax. apply in_app_or in Hx as [Hx | [<- | []]].
        - destruct (Hm x Hx Hax) as (c & Hin & Ec).
          exists (if Qeq_bool (cl_price c) level
                  then addTrade (m msg) (q msg) c else c).
          split; [apply in_map_iff; exists c; split;
                  [reflexivity | apply Hsub; exact Hin]|].
          destruct (Qeq_bool (cl_price c) level); exact Ec.
        - destruct Hlevel as (c & Hin & Ec).
          exists (if Qeq_bool (cl_price c) level
                  then addTrade (m msg) (q msg) c else c).
          split; [apply in_map_iff; exists c; split; [reflexivity | exact Hin]|].
          destruct (Qeq_bool (cl_price c) level); exact Ec. }
    + (* any other message is ignored *)
      unfold tableOf. split; [exact Hd|]. split.
      * intros c Hin.
        destruct (Hc c Hin) as (Hb & Hs & Ht & Hdl & x & Hx & Hax & Ex).
        rewrite !flowAt_snoc. unfold isAggTrade. rewrite !Ea.
        cbn [andb]. split; [exact Hb|]. split; [exact Hs|].
        split; [exact Ht|]. split; [exact Hdl|].
        exists x. split; [apply in_or_app; left; exact Hx|].
        split; assumption.
      * intros x Hx Hax. apply in_app_or in Hx as [Hx | [<- | []]].
        -- apply Hm; assumption.
        -- unfold isAggTrade in Hax. congruence.
Qed.

(** X6. After the constructor or a [reset] and any messages, the engine
    holds one cluster for each price level some aggTrade snapped to and no
    other; a cluster's buy volume is the quantities of the trades at its
    level whose buyer was not the maker, added in arrival order as
    JavaScript adds them, its sell volume the same of those whose buyer
    was, its total their JavaScript sum and its delta their JavaScript
    difference. *)
Theorem engine_table (msgs : list AggTrade) :
  tableOf cfg msgs (fed cfg msgs).
Proof. exact (fed_table msgs). Qed.

End ClusterTable.

(** ** FootprintEngine: price levels *)
Section SnapToCluster.
Context {ar : Rounding}.
Import FootprintEngine.
Variable cfg : Config.

(** X5. [_snapToCluster] returns the JavaScript product of a whole
    number and the cluster size: the one whole number at most a half
    below and less than a half above the JavaScript quotient of the
    price by the cluster size, so that a quotient exactly between two
    whole numbers goes to the upper one. *)
Theorem snapToCluster_nearest (price : Q) :
  let sz := footprint_priceClusterSize cfg in
  exists k : Z,
    _snapToCluster cfg price = fmul (inject_Z k) sz /\
    inject_Z k - (1 # 2) <= fdiv price sz < inject_Z k + (1 # 2) /\
    forall k' : Z,
      inject_Z k' - (1 # 2) <= fdiv price sz < inject_Z k' + (1 # 2) ->
      k' = k.
Proof.
  cbn zeta. set (sz := footprint_priceClusterSize cfg).
  exists (Qfloor (fdiv price sz + (1 # 2))).
  pose proof (Qfloor_le (fdiv price sz + (1 # 2))) as F1.
  pose proof (Qlt_floor (fdiv price sz + (1 # 2))) as F2.
  rewrite inject_Z_plus in F2. change (inject_Z 1) with 1 in F2.
  split; [reflexivity|]. split; [split; lra|].
  intros k' [H1 H2].
  set (k := Qfloor (fdiv price sz + (1 # 2))) in *.
  assert (inject_Z k' < inject_Z (k + 1)) as A
    by (rewrite inject_Z_plus; change (inject_Z 1) with 1; lra).
  assert (inject_Z k < inject_Z (k' + 1)) as B
    by (rewrite inject_Z_plus; change (inject_Z 1) with 1; lra).
  rewrite <- Zlt_Qlt in A, B. lia.
Qed.

End SnapToCluster.

(** ** FootprintEngine: the footprint of the fed trades *)
Section FedFootprint.
Context {ar : Rounding}.
Import FootprintEngine EngineSpec FootprintSpec.
Variable cfg : Config.

Lemma updateAt_length (level : Q) (f : Cluster -> Cluster)
      (cs : list Cluster) :
  length (updateAt level f cs) = length cs.
Proof.
  induction cs as [|c cs IH]; cbn; [reflexivity|].
  destruct (Qeq_bool (cl_price c) level); cbn; [|rewrite IH]; reflexivity.
Qed.

Lemma fed_reachable (msgs : list AggTrade) : reachable cfg (fed cfg msgs).
Proof.
  induction msgs as [|msg msgs IH] using rev_ind.
  - apply reach_new.
  - rewrite fed_snoc. apply reach_handleTrade. exact IH.
Qed.

Lemma fed_tradeCount (msgs : list AggTrade) :
  e_tradeCount (fed cfg msgs) = length (filter isAggTrade msgs) /\
  (length (e_clusters (fed cfg msgs)) <= e_tradeCount (fed cfg msgs))%nat.
Proof.
  induction msgs as [|msg msgs [IH1 IH2]] using rev_ind.
  - cbn. split; [reflexivity | lia].
  - rewrite fed_snoc, filter_app, length_app. cbn [filter].
    unfold handleTrade, isAggTrade at 2.
    destruct (String.eqb (e msg) "aggTrade"); cbn [negb length].
    + cbn [e_tradeCount e_clusters]. rewrite updateAt_length.
      destruct (has _ _); [|rewrite length_app; cbn [length]]; lia.
    + split; lia.
Qed.

(** The footprint [calculate] builds from a non-empty cluster table. *)
Lemma calculate_shape (s : t) :
  e_clusters s <> [] ->
  exists first rest,
    sortBy byPrice (e_clusters s) = first :: rest /\
    calculate s
    = Some {| clusters := first :: rest;
              poc := cl_price (fold_left pickPoc (first :: rest) first);
              pocVolume :=
                cl_totalVolume (fold_left pickPoc (first :: rest) first);
              totalBuyVolume := e_totalBuyVolume s;
              totalSellVolume := e_totalSellVolume s;
              totalVolume := fadd (e_totalBuyVolume s) (e_totalSellVolume s);
              delta := fsub (e_totalBuyVolume s) (e_totalSellVolume s);
              topClusterVolume := cl_totalVolume (last (first :: rest) first);
              bottomClusterVolume := cl_totalVolume first;
              tradeCount := e_tradeCount s |}.
Proof.
  intros Hne. unfold calculate.
  destruct (e_clusters s) as [|c0 cs] eqn:Ecs; [congruence|].
  pose proof (sortBy_perm byPrice (c0 :: cs)) as Hperm.
  destruct (sortBy byPrice (c0 :: cs)) as [|first rest].
  - apply Permutation_nil in Hperm. discriminate.
  - exists first, rest. split; reflexivity.
Qed.

Lemma calculate_none (s : t) : calculate s = None <-> e_clusters s = [].
Proof.
  split.
  - intros H. destruct (e_clusters s) as [|c cs] eqn:E; [reflexivity|].
    destruct (calculate_shape s) as (f & r & _ & Hc);
      [rewrite E; discriminate|]. congruence.
  - intros H. unfold calculate. rewrite H. reflexivity.
Qed.

(** X7. [calculate] returns [null] exactly when no aggTrade message came
    since the constructor or the last [reset]; otherwise its [tradeCount]
    is the number of aggTrade messages, messages of any other kind not
    counting, and it has at most that many clusters. *)
Theorem calculate_counts (msgs : list AggTrade) :
  let s := fed cfg msgs in
  (calculate s = None <-> filter isAggTrade msgs = []) /\
  (forall fp, calculate s = Some fp ->
     tradeCount fp = length (filter isAggTrade msgs) /\
     (1 <= length (clusters fp) <= tradeCount fp)%nat).
Proof.
  cbn zeta. destruct (fed_table cfg msgs) as (_ & Hc & Hm).
  destruct (fed_tradeCount msgs) as [Ht Hl].
  split.
  - rewrite calculate_none. split.
    + intros He. destruct (filter isAggTrade msgs) as [|x l] eqn:Ef;
        [reflexivity|].
      assert (In x (filter isAggTrade msgs)) as Hx
        by (rewrite Ef; left; reflexivity).
      apply filter_In in Hx as [Hx Ha].
      destruct (Hm x Hx Ha) as (c & Hin & _). rewrite He in Hin.
      destruct Hin.
    + intros Hf. destruct (e_clusters (fed cfg msgs)) as [|c cs] eqn:E;
        [reflexivity|].
      destruct (Hc c (or_introl eq_refl)) as (_ & _ & _ & _ & x & Hx & Ha & _).
      assert (In x (filter isAggTrade msgs)) as Hin
        by (apply filter_In; split; assumption).
      rewrite Hf in Hin. destruct Hin.
  - intros fp Hfp.
    assert (e_clusters (fed cfg msgs) <> []) as Hne.
    { intros He. apply calculate_none in He. congruence. }
    destruct (calculate_shape _ Hne) as (f & r & Hs & Hcalc).
    rewrite Hcalc in Hfp. injection Hfp as <-.
    cbn [tradeCount clusters].
    pose proof (Permutation_length (sortBy_perm byPrice
                  (e_clusters (fed cfg msgs)))) as Hlen.
    rewrite Hs in Hlen. rewrite Hlen, <- Ht.
    split; [reflexivity|]. split; [|exact Hl].
    destruct (e_clusters (fed cfg msgs)); [congruence | cbn; lia].
Qed.

Lemma sorted_first_last (first : Cluster) (rest : list Cluster) :
  StronglySorted (fun a b => byPrice a b = true) (first :: rest) ->
  forall c, In c (first :: rest) ->
    cl_price first <= cl_price c /\
    cl_price c <= cl_price (last (first :: rest) first).
Proof.
  revert first. induction rest as [|x rest IH]; intros first Hs c Hc.
  - destruct Hc as [<- | []]. cbn. split; lra.
  - inversion Hs as [|? ? Hs' Hall]; subst.
    assert (forall y, In y (x :: rest) -> cl_price first <= cl_price y) as Hf.
    { intros y Hy. rewrite Forall_forall in Hall. specialize (Hall y Hy).
      unfold byPrice in Hall. apply Qle_bool_iff. exact Hall. }
    change (last (first :: x :: rest) first) with (last (x :: rest) first).
    rewrite (last_default (x :: rest) first x) by discriminate.
    destruct Hc as [<- | Hc].
    + split; [lra|].
      destruct (IH x Hs' x (or_introl eq_refl)) as [_ H2].
      pose proof (Hf x (or_introl eq_refl)). lra.
    + destruct (IH x Hs' c Hc) as [_ H2].
      split; [apply Hf; exact Hc | exact H2].
Qed.

Lemma last_in {A} (l : list A) (d : A) : l <> [] -> In (last l d) l.
Proof.
  induction l as [|a l IH]; [congruence|]. intros _.
  destruct l as [|b l]; [left; reflexivity|].
  right. apply IH. discriminate.
Qed.

(** X8. In a footprint, [bottomClusterVolume] is the total volume of a
    cluster of least price and [topClusterVolume] that of a cluster of
    greatest price, and the clusters are listed from the one to the
    other. *)
Theorem calculate_top_bottom (s : t) (fp : Footprint) :
  calculate s = Some fp ->
  exists bottom top,
    In bottom (e_clusters s) /\ In top (e_clusters s) /\
    hd_error (clusters fp) = Some bottom /\
    last (clusters fp) bottom = top /\
    bottomClusterVolume fp = cl_totalVolume bottom /\
    topClusterVolume fp = cl_totalVolume top /\
    forall c, In c (e_clusters s) ->
              cl_price bottom <= cl_price c <= cl_price top.
Proof.
  intros Hfp.
  assert (e_clusters s <> []) as Hne.
  { intros He. apply calculate_none in He. congruence. }
  destruct (calculate_shape _ Hne) as (f & r & Hs & Hcalc).
  rewrite Hcalc in Hfp. injection Hfp as <-.
  cbn [clusters bottomClusterVolume topClusterVolume hd_error].
  pose proof (sortBy_perm byPrice (e_clusters s)) as Hperm.
  pose proof (sortBy_sorted byPrice byPrice_total byPrice_trans
                (e_clusters s)) as Hsorted.
  rewrite Hs in Hperm, Hsorted.
  exists f, (last (f :: r) f).
  split; [apply (Permutation_in _ Hperm); left; reflexivity|].
  split; [apply (Permutation_in _ Hperm), last_in; discriminate|].
  split; [reflexivity|]. split; [reflexivity|].
  split; [reflexivity|]. split; [reflexivity|].
  intros c Hc. apply sorted_first_last; [exact Hsorted|].
  apply (Permutation_in _ (Permutation_sym Hperm)). exact Hc.
Qed.

Lemma fed_totals (msgs : list AggTrade) :
  e_totalBuyVolume (fed cfg msgs) = fsum (quantities false msgs) /\
  e_totalSellVolume (fed cfg msgs) = fsum (quantities true msgs).
Proof.
  induction msgs as [|msg msgs [IHb IHs]] using rev_ind.
  - split; reflexivity.
  - rewrite fed_snoc. unfold quantities, fsum in *.
    rewrite !filter_app, !map_app, !fold_left_app. cbn [filter].
    unfold handleTrade.
    destruct (isAggTrade msg) eqn:Ea; unfold isAggTrade in Ea; rewrite Ea;
      cbn [negb andb].
    + cbn [e_totalBuyVolume e_totalSellVolume].
      destruct (m msg); cbn [Bool.eqb map fold_left];
        rewrite <- ?IHb, <- ?IHs; split; reflexivity.
    + cbn [map fold_left]. split; assumption.
Qed.

Lemma fold_pickPoc_in (l : list Cluster) (a : Cluster) :
  In (fold_left pickPoc l a) (a :: l).
Proof.
  revert a. induction l as [|x l IH]; intros a; [left; reflexivity|].
  cbn [fold_left]. destruct (IH (pickPoc a x)) as [H | H].
  - rewrite <- H. unfold pickPoc.
    destruct (Qltb (cl_totalVolume a) (cl_totalVolume x)); cbn; tauto.
  - right. right. exact H.
Qed.

(** X9. A footprint of the trades fed since the constructor has as buy
    volume the quantities of the trades whose buyer was not the maker,
    added in arrival order as JavaScript adds them, as sell volume those
    of the trades whose buyer was the maker, as total volume the
    JavaScript sum of the two and as delta their JavaScript difference.
    When no quantity is negative, and rounding makes no number negative
    (as the rounding of doubles does), the buy, sell and total volumes of
    the footprint and of each of its clusters, and the volume of the
    point of control, are not negative. *)
Theorem calculate_flows (msgs : list AggTrade) (fp : Footprint) :
  calculate (fed cfg msgs) = Some fp ->
  totalBuyVolume fp = fsum (quantities false msgs) /\
  totalSellVolume fp = fsum (quantities true msgs) /\
  totalVolume fp = fadd (totalBuyVolume fp) (totalSellVolume fp) /\
  delta fp = fsub (totalBuyVolume fp) (totalSellVolume fp) /\
  ((forall x, 0 <= x -> 0 <= rnd x) ->
   (forall msg, In msg msgs -> 0 <= q msg) ->
   0 <= totalBuyVolume fp /\ 0 <= totalSellVolume fp /\
   0 <= totalVolume fp /\
   (forall c, In c (clusters fp) ->
      0 <= buyVolume c /\ 0 <= sellVolume c /\ 0 <= cl_totalVolume c) /\
   0 <= pocVolume fp).
Proof.
  intros Hfp. set (s := fed cfg msgs) in *.
  destruct (fed_totals msgs) as [Hb Hs]. fold s in Hb, Hs.
  destruct (fed_table cfg msgs) as (_ & Hc & _). fold s in Hc.
  assert (e_clusters s <> []) as Hne.
  { intros He. apply calculate_none in He. congruence. }
  destruct (calculate_shape _ Hne) as (f & r & Hsort & Hcalc).
  rewrite Hcalc in Hfp. injection Hfp as <-.
  cbn [clusters totalBuyVolume totalSellVolume totalVolume delta pocVolume].
  split; [exact Hb|]. split; [exact Hs|].
  split; [reflexivity|]. split; [reflexivity|].
  intros Hr Hq.
  assert (forall side, 0 <= fsum (quantities side msgs)) as Hside.
  { intros side. apply fsum_nonneg; [exact Hr|].
    intros x Hx. unfold quantities in Hx.
    apply in_map_iff in Hx as (msg & <- & Hm).
    apply filter_In in Hm as [Hm _]. apply Hq. exact Hm. }
  assert (forall side level, 0 <= flowAt cfg side level msgs) as Hflow.
  { intros side level. apply fsum_nonneg; [exact Hr|].
    intros x Hx. apply in_map_iff in Hx as (msg & <- & Hm).
    apply filter_In in Hm as [Hm _]. apply Hq. exact Hm. }
  pose proof (sortBy_perm byPrice (e_clusters s)) as Hperm.
  rewrite Hsort in Hperm.
  assert (forall c, In c (f :: r) ->
            0 <= buyVolume c /\ 0 <= sellVolume c /\ 0 <= cl_totalVolume c)
    as Hnn.
  { intros c Hin.
    apply (Permutation_in _ Hperm) in Hin.
    destruct (Hc c Hin) as (B & S & T & _).
    pose proof (Hflow false (cl_price c)) as HB.
    pose proof (Hflow true (cl_price c)) as HS.
    rewrite <- B in HB. rewrite <- S in HS.
    split; [exact HB|]. split; [exact HS|].
    rewrite T. unfold fadd. apply Hr. lra. }
  rewrite Hb, Hs.
  split; [apply Hside|]. split; [apply Hside|].
  split.
  { unfold fadd. apply Hr.
    pose proof (Hside false). pose proof (Hside true). lra. }
  split; [exact Hnn|].
  assert (In (fold_left pickPoc (f :: r) f) (f :: r)) as Hpoc.
  { cbn [fold_left].
    assert (pickPoc f f = f) as ->
      by (unfold pickPoc; destruct (Qltb _ _); reflexivity).
    apply fold_pickPoc_in. }
  apply Hnn. exact Hpoc.
Qed.

End FedFootprint.

(** ** CandleBuilder: history, partial updates, shape of the buckets *)
Section BuilderFacts.
Context {ar : Rounding}.
Import CandleBuilder CandleSpec.

Lemma closes15m_app (ev1 ev2 : list Event) :
  closes15m (ev1 ++ ev2) = closes15m ev1 ++ closes15m ev2.
Proof.
  induction ev1 as [|[c|b] ev1 IH]; cbn; [reflexivity | exact IH |].
  rewrite IH. reflexivity.
Qed.

(** One step of the builder, on the fields the coarse buckets depend on. *)
Lemma on1mClose_cases (s : t) (c : Candle) :
  let r := _on1mClose s c in
  max15mHistory (fst r) = max15mHistory s /\
  current1m (fst r) = current1m s /\
  ((current15m s = None /\
    current15m (fst r) = Some (_create15mFrom1m c (windowIdOf c)) /\
    closed15m (fst r) = closed15m s /\ snd r = [Close1m c]) \/
   (exists b, current15m s = Some b /\
      windowIdOf c = Candle15m.windowId b /\
      current15m (fst r) = Some (_update15m b c) /\
      closed15m (fst r) = closed15m s /\ snd r = [Close1m c]) \/
   (exists b, current15m s = Some b /\
      windowIdOf c <> Candle15m.windowId b /\
      current15m (fst r) = Some (_create15mFrom1m c (windowIdOf c)) /\
      closed15m (fst r)
      = (if (max15mHistory s <? length (closed15m s ++ [b]))%nat
         then tl (closed15m s ++ [b]) else closed15m s ++ [b]) /\
      snd r = [Close1m c; Close15m b])).
Proof.
  cbn zeta. unfold _on1mClose.
  destruct (current15m s) as [b|] eqn:Ecur.
  - destruct (windowIdOf c =? Candle15m.windowId b)%Z eqn:E.
    + apply Z.eqb_eq in E. cbn [fst snd setCurrent15m max15mHistory
                                current1m current15m closed15m].
      split; [reflexivity|]. split; [reflexivity|].
      right. left. exists b. repeat split; assumption || reflexivity.
    + apply Z.eqb_neq in E. cbn [_close15m fst snd setCurrent15m
                                 max15mHistory current1m current15m closed15m].
      split; [reflexivity|]. split; [reflexivity|].
      right. right. exists b. repeat split; assumption || reflexivity.
  - cbn [fst snd setCurrent15m max15mHistory current1m current15m closed15m].
    split; [reflexivity|]. split; [reflexivity|].
    left. repeat split; reflexivity.
Qed.

Lemma feed_cons (s : t) (c : Candle) (cs : list Candle) :
  feed s (c :: cs)
  = (fst (feed (fst (_on1mClose s c)) cs),
     snd (_on1mClose s c) ++ snd (feed (fst (_on1mClose s c)) cs)).
Proof.
  cbn [feed]. destruct (_on1mClose s c) as [s1 ev1]. cbn [fst snd].
  destruct (feed s1 cs) as [s2 ev2]. reflexivity.
Qed.

Lemma feed_history (cs : list Candle) (s : t) (past : list Candle15m.t) :
  closed15m s = lastN (max15mHistory s) past ->
  max15mHistory (fst (feed s cs)) = max15mHistory s /\
  closed15m (fst (feed s cs))
  = lastN (max15mHistory s) (past ++ closes15m (snd (feed s cs))).
Proof.
  revert s past. induction cs as [|c cs IH]; intros s past Hs.
  - cbn. rewrite app_nil_r. split; [reflexivity | exact Hs].
  - rewrite feed_cons. cbn [fst snd]. rewrite closes15m_app.
    destruct (on1mClose_cases s c) as (Hm & _ & Hcases).
    destruct Hcases as [(_ & _ & Hh & Hev) | [(b & _ & _ & _ & Hh & Hev)
                                             | (b & _ & _ & _ & Hh & Hev)]].
    + destruct (IH (fst (_on1mClose s c)) past) as [I1 I2];
        [rewrite Hh, Hm; exact Hs|].
      rewrite Hm in I1, I2. rewrite Hev. split; [exact I1 | exact I2].
    + destruct (IH (fst (_on1mClose s c)) past) as [I1 I2];
        [rewrite Hh, Hm; exact Hs|].
      rewrite Hm in I1, I2. rewrite Hev. split; [exact I1 | exact I2].
    + destruct (IH (fst (_on1mClose s c)) (past ++ [b])) as [I1 I2].
      { rewrite Hh, Hm, Hs. apply (lastN_snoc (max15mHistory s) past b). }
      rewrite Hm in I1, I2. rewrite Hev. cbn [closes15m app].
      split; [exact I1|]. rewrite I2, <- app_assoc. reflexivity.
Qed.

(** X10. The history of closed 15m candles of a builder fed from the
    constructor is the last 60 of the 15m candles it emitted, oldest
    first. *)
Theorem closed15m_last_60 (cs : list Candle) :
  let out := feed new cs in
  getClosed15m (fst out) = lastN 60 (closes15m (snd out)) /\
  (length (getClosed15m (fst out)) <= 60)%nat.
Proof.
  cbn zeta. destruct (feed_history cs new []) as [_ H]; [reflexivity|].
  unfold getClosed15m. cbn [app max15mHistory new] in H. rewrite H.
  split; [reflexivity|]. rewrite lastN_length. lia.
Qed.

End BuilderFacts.

Section BuilderStreams.
Context {ar : Rounding}.
Import CandleBuilder CandleSpec.

(** A step depends on the current 1m candle and the 1m buffer in no way. *)
Lemma on1mClose_congr (s s' : t) (c : Candle) :
  closed15m s = closed15m s' -> max15mHistory s = max15mHistory s' ->
  current15m s = current15m s' ->
  closed15m (fst (_on1mClose s c)) = closed15m (fst (_on1mClose s' c)) /\
  max15mHistory (fst (_on1mClose s c))
  = max15mHistory (fst (_on1mClose s' c)) /\
  current15m (fst (_on1mClose s c)) = current15m (fst (_on1mClose s' c)) /\
  snd (_on1mClose s c) = snd (_on1mClose s' c).
Proof.
  intros Hh Hm Hc. unfold _on1mClose, _close15m. rewrite Hc.
  destruct (current15m s') as [b|];
    [destruct (windowIdOf c =? Candle15m.windowId b)%Z|];
    cbn [fst snd setCurrent15m closed15m max15mHistory current15m];
    rewrite ?Hh, ?Hm; repeat split; reflexivity.
Qed.

Lemma feed_congr (cs : list Candle) (s s' : t) :
  closed15m s = closed15m s' -> max15mHistory s = max15mHistory s' ->
  current15m s = current15m s' ->
  closed15m (fst (feed s cs)) = closed15m (fst (feed s' cs)) /\
  current15m (fst (feed s cs)) = current15m (fst (feed s' cs)) /\
  snd (feed s cs) = snd (feed s' cs).
Proof.
  revert s s'. induction cs as [|c cs IH]; intros s s' Hh Hm Hc.
  - cbn. repeat split; assumption.
  - rewrite !feed_cons. cbn [fst snd].
    destruct (on1mClose_congr s s' c Hh Hm Hc) as (H1 & H2 & H3 & H4).
    destruct (IH _ _ H1 H2 H3) as (I1 & I2 & I3).
    rewrite H4, I3. repeat split; assumption.
Qed.

Lemma handleAll_feed (msgs : list Kline) (s : t) :
  closed15m (fst (handleAll s msgs))
  = closed15m (fst (feed s (closedKlines msgs))) /\
  current15m (fst (handleAll s msgs))
  = current15m (fst (feed s (closedKlines msgs))) /\
  snd (handleAll s msgs) = snd (feed s (closedKlines msgs)).
Proof.
  revert s. induction msgs as [|[e k] msgs IH]; intros s.
  - cbn. repeat split; reflexivity.
  - cbn [handleAll]. unfold closedKlines. cbn [filter fst snd].
    unfold handleKlineMessage.
    destruct (String.eqb e "kline"); cbn [negb andb].
    + destruct (isClosed k); cbn [map].
      * set (s1 := {| current1m := Some k;
                      closed1mBuffer := closed1mBuffer s;
                      closed15m := closed15m s;
                      max15mHistory := max15mHistory s;
                      current15m := current15m s |}).
        fold (closedKlines msgs). rewrite feed_cons. cbn [fst snd].
        destruct (on1mClose_congr s1 s k eq_refl eq_refl eq_refl)
          as (H1 & H2 & H3 & H4).
        destruct (_on1mClose s1 k) as [s2 ev1]. cbn [fst snd] in *.
        specialize (IH s2). destruct (handleAll s2 msgs) as [s3 ev2].
        cbn [fst snd] in *. destruct IH as (I1 & I2 & I3).
        destruct (feed_congr (closedKlines msgs) s2
                    (fst (_on1mClose s k)) H1 H2 H3) as (F1 & F2 & F3).
        rewrite I1, I2, I3, F1, F2, F3, H4. repeat split; reflexivity.
      * set (s1 := {| current1m := Some k;
                      closed1mBuffer := closed1mBuffer s;
                      closed15m := closed15m s;
                      max15mHistory := max15mHistory s;
                      current15m := current15m s |}).
        fold (closedKlines msgs).
        specialize (IH s1). destruct (handleAll s1 msgs) as [s3 ev2].
        cbn [fst snd app] in *. destruct IH as (I1 & I2 & I3).
        destruct (feed_congr (closedKlines msgs) s1 s eq_refl eq_refl eq_refl)
          as (F1 & F2 & F3).
        rewrite I1, I2, I3, F1, F2, F3. repeat split; reflexivity.
    + fold (closedKlines msgs).
      specialize (IH s). destruct (handleAll s msgs) as [s3 ev2].
      cbn [fst snd app] in *. exact IH.
Qed.

(** X11. Updates of a candle that is not closed, and messages that are
    not klines, change nothing of the 15m candles: the events emitted, the
    history and the open 15m candle are those of the closed klines
    alone. *)
Theorem partial_updates_ignored (msgs : list Kline) :
  let out := handleAll new msgs in
  let ref := feed new (closedKlines msgs) in
  snd out = snd ref /\
  getClosed15m (fst out) = getClosed15m (fst ref) /\
  current15m (fst out) = current15m (fst ref).
Proof.
  cbn zeta. destruct (handleAll_feed msgs new) as (H1 & H2 & H3).
  unfold getClosed15m. repeat split; assumption.
Qed.

Lemma create15m_wellFormed (c : Candle) (w : Z) :
  wellFormed c -> wellFormed15m (_create15mFrom1m c w).
Proof. intros H. exact H. Qed.

Lemma update15m_wellFormed (b : Candle15m.t) (c : Candle) :
  wellFormed15m b -> wellFormed c -> wellFormed15m (_update15m b c).
Proof.
  unfold wellFormed15m, wellFormed, _update15m.
  cbn [Candle15m.low Candle15m.high Candle15m.open Candle15m.close].
  intros [[B1 B2] [B3 B4]] [[C1 C2] [C3 C4]].
  pose proof (Q.le_max_l (Candle15m.high b) (high c)).
  pose proof (Q.le_max_r (Candle15m.high b) (high c)).
  pose proof (Q.le_min_l (Candle15m.low b) (low c)).
  pose proof (Q.le_min_r (Candle15m.low b) (low c)).
  repeat split; lra.
Qed.

Lemma feed_wellFormed (cs : list Candle) (s : t) :
  (forall b, current15m s = Some b -> wellFormed15m b) ->
  Forall wellFormed cs ->
  Forall wellFormed15m (closes15m (snd (feed s cs))) /\
  (forall b, current15m (fst (feed s cs)) = Some b -> wellFormed15m b).
Proof.
  revert s. induction cs as [|c cs IH]; intros s Hcur Hcs.
  - cbn. split; [constructor | exact Hcur].
  - inversion Hcs as [|? ? Hc Hcs']; subst.
    rewrite feed_cons. cbn [fst snd]. rewrite closes15m_app.
    destruct (on1mClose_cases s c) as (_ & _ & Hcases).
    assert (forall b, current15m (fst (_on1mClose s c)) = Some b ->
                      wellFormed15m b) as Hnext.
    { intros b' Hb'.
      destruct Hcases as [(_ & Hn & _) | [(b & Hb & _ & Hn & _)
                                         | (b & _ & _ & Hn & _)]];
        rewrite Hn in Hb'; injection Hb' as <-.
      - apply create15m_wellFormed. exact Hc.
      - apply update15m_wellFormed; [apply Hcur; exact Hb | exact Hc].
      - apply create15m_wellFormed. exact Hc. }
    destruct (IH _ Hnext Hcs') as [I1 I2].
    split; [|exact I2]. apply Forall_app. split; [|exact I1].
    destruct Hcases as [(_ & _ & _ & ->) | [(b & _ & _ & _ & _ & ->)
                                           | (b & Hb & _ & _ & _ & ->)]];
      cbn [closes15m]; try constructor.
    + apply Hcur. exact Hb.
    + constructor.
Qed.

Lemma lastN_incl {A} (n : nat) (l : list A) (x : A) :
  In x (lastN n l) -> In x l.
Proof.
  unfold lastN. intros H. rewrite <- (firstn_skipn (length l - n) l).
  apply in_or_app. right. exact H.
Qed.

(** X12. When every 1m candle has its open and close between its low and
    high, so has every 15m candle emitted, every one in the history and
    the open one. *)
Theorem coarse_wellFormed (cs : list Candle) :
  Forall wellFormed cs ->
  let out := feed new cs in
  Forall wellFormed15m (closes15m (snd out)) /\
  Forall wellFormed15m (getClosed15m (fst out)) /\
  (forall b, current15m (fst out) = Some b -> wellFormed15m b).
Proof.
  intros Hcs. cbn zeta.
  destruct (feed_wellFormed cs new) as [H1 H2];
    [intros b Hb; discriminate Hb | exact Hcs |].
  split; [exact H1|]. split; [|exact H2].
  destruct (feed_history cs new []) as [_ Hh]; [reflexivity|].
  unfold getClosed15m. rewrite Hh. cbn [app].
  apply Forall_forall. intros b Hb. apply lastN_incl in Hb.
  rewrite Forall_forall in H1. apply H1. exact Hb.
Qed.

End BuilderStreams.

Section BuilderOrder.
Context {ar : Rounding}.
Import CandleBuilder CandleSpec.

Lemma windowIdOf_mono (a b : Candle) :
  (openTime a <= openTime b)%Z -> (windowIdOf a <= windowIdOf b)%Z.
Proof. intros H. unfold windowIdOf. apply Z.div_le_mono; lia. Qed.

Lemma aligned_openTime_lt (a b : Candle15m.t) :
  aligned a -> aligned b ->
  (Candle15m.windowId a < Candle15m.windowId b)%Z ->
  (Candle15m.openTime a < Candle15m.openTime b)%Z.
Proof.
  unfold aligned. intros Ha Hb H.
  destruct (Z_lt_le_dec (Candle15m.openTime a) (Candle15m.openTime b))
    as [Hlt | Hge]; [exact Hlt|].
  pose proof (Z.div_le_mono _ _ 900000 ltac:(lia) Hge). lia.
Qed.

Lemma StronglySorted_skipn {A} (R : A -> A -> Prop) (n : nat) (l : list A) :
  StronglySorted R l -> StronglySorted R (skipn n l).
Proof.
  revert l. induction n as [|n IH]; intros l H; [exact H|].
  destruct l as [|a l]; [constructor|].
  inversion H; subst. apply IH. assumption.
Qed.

Lemma StronglySorted_weaken {A} (R R' : A -> A -> Prop) (P : A -> Prop)
      (l : list A) :
  (forall a b, P a -> P b -> R a b -> R' a b) ->
  Forall P l -> StronglySorted R l -> StronglySorted R' l.
Proof.
  intros HRR HP HS. induction HS as [|a l HS IH Hall]; [constructor|].
  inversion HP as [|? ? Pa Pl]; subst.
  constructor; [apply IH; exact Pl|].
  rewrite Forall_forall in *. intros x Hx.
  apply HRR; [exact Pa | apply Pl; exact Hx | apply Hall; exact Hx].
Qed.

Lemma feed_ascending (cs : list Candle) (s : t) (b : Candle15m.t) :
  current15m s = Some b -> aligned b ->
  (forall c, In c cs -> (Candle15m.windowId b <= windowIdOf c)%Z) ->
  chronological cs ->
  exists cur,
    current15m (fst (feed s cs)) = Some cur /\
    ascending (closes15m (snd (feed s cs)) ++ [cur]) /\
    Forall (fun x => (Candle15m.windowId b <= Candle15m.windowId x)%Z
                     /\ aligned x)
           (closes15m (snd (feed s cs)) ++ [cur]).
Proof.
  revert s b. induction cs as [|c cs IH]; intros s b Hcur Hal Hge Hch.
  - exists b. cbn. split; [exact Hcur|].
    split; [constructor; constructor|].
    constructor; [split; [lia | exact Hal] | constructor].
  - inversion Hch as [|? ? Hch' Hall]; subst.
    rewrite feed_cons. cbn [fst snd]. rewrite closes15m_app.
    destruct (on1mClose_cases s c) as (_ & _ & Hcases).
    destruct Hcases as [(Hn & _) | [(b' & Hb & Hw & Hnext & _ & Hev)
                                   | (b' & Hb & Hw & Hnext & _ & Hev)]];
      [congruence | |];
      rewrite Hcur in Hb; injection Hb as <-; rewrite Hev.
    + destruct (IH _ (_update15m b c) Hnext) as (cur & Hc & Hasc & Hall');
        [exact Hal | intros c' Hc'; apply Hge; right; exact Hc' | exact Hch' |].
      exists cur. split; [exact Hc|]. split; [exact Hasc | exact Hall'].
    + assert (Candle15m.windowId b < windowIdOf c)%Z as Hlt
        by (specialize (Hge c (or_introl eq_refl)); lia).
      destruct (IH _ (_create15mFrom1m c (windowIdOf c)) Hnext)
        as (cur & Hc & Hasc & Hall');
        [reflexivity | | exact Hch' |].
      { intros c' Hc'. rewrite Forall_forall in Hall.
        apply windowIdOf_mono, Hall, Hc'. }
      exists cur. split; [exact Hc|].
      cbn [closes15m app Candle15m.windowId _create15mFrom1m] in *.
      split.
      * constructor; [exact Hasc|].
        eapply Forall_impl; [|exact Hall']. cbn. intros x [Hx _]. lia.
      * constructor; [split; [lia | exact Hal]|].
        eapply Forall_impl; [|exact Hall']. cbn. intros x [Hx Ha].
        split; [lia | exact Ha].
Qed.

(** The emitted 15m candles of a chronological stream, from the
    constructor. *)
Lemma feed_new_ascending (cs : list Candle) :
  chronological cs ->
  let out := feed new cs in
  ascending (closes15m (snd out)) /\
  Forall aligned (closes15m (snd out)) /\
  (forall cur, current15m (fst out) = Some cur ->
     aligned cur /\
     Forall (fun x => (Candle15m.windowId x < Candle15m.windowId cur)%Z)
            (closes15m (snd out))).
Proof.
  intros Hch. cbn zeta. destruct cs as [|c cs].
  - cbn. split; [constructor|]. split; [constructor|].
    intros cur Hcur. discriminate Hcur.
  - inversion Hch as [|? ? Hch' Hall]; subst.
    rewrite feed_cons. cbn [fst snd]. rewrite closes15m_app.
    destruct (on1mClose_cases new c) as (_ & _ & Hcases).
    destruct Hcases as [(_ & Hnext & _ & Hev) | [(b & Hb & _) | (b & Hb & _)]];
      [|discriminate Hb | discriminate Hb].
    rewrite Hev. cbn [closes15m app].
    destruct (feed_ascending cs _ _ Hnext) as (cur & Hc & Hasc & Hall');
      [reflexivity | | exact Hch' |].
    { intros c' Hc'. rewrite Forall_forall in Hall.
      apply windowIdOf_mono, Hall, Hc'. }
    set (E := closes15m (snd (feed (fst (_on1mClose new c)) cs))) in *.
    assert (forall l x, ascending (l ++ [x]) ->
              ascending l /\
              Forall (fun y => (Candle15m.windowId y
                                < Candle15m.windowId x)%Z) l) as Hsplit.
    { clear. induction l as [|a l IH]; intros x H.
      - split; constructor.
      - cbn [app] in H. inversion H as [|? ? Hs Hf]; subst.
        destruct (IH x Hs) as [I1 I2].
        apply Forall_app in Hf as [Hf1 Hf2]. inversion Hf2; subst.
        split; constructor; assumption. }
    destruct (Hsplit E cur Hasc) as [HascE Hlt].
    apply Forall_app in Hall' as [HallE Hcur'].
    split; [exact HascE|].
    split; [eapply Forall_impl; [|exact HallE]; cbn; tauto|].
    intros cur' Hcur''. rewrite Hc in Hcur''. injection Hcur'' as <-.
    inversion Hcur' as [|? ? [_ Ha] _]; subst. split; [exact Ha | exact Hlt].
Qed.

(** X13. When the 1m candles come in the order of their open times, the
    15m candles are emitted with strictly increasing window ids and
    strictly increasing open times, each with the window id of its open
    time, and so is the history; the open 15m candle has a greater window
    id than any emitted. *)
Theorem coarse_ascending (cs : list Candle) :
  chronological cs ->
  let out := feed new cs in
  let byOpenTime :=
    StronglySorted
      (fun a b => (Candle15m.openTime a < Candle15m.openTime b)%Z) in
  ascending (closes15m (snd out)) /\
  Forall aligned (closes15m (snd out)) /\
  byOpenTime (closes15m (snd out)) /\
  ascending (getClosed15m (fst out)) /\
  byOpenTime (getClosed15m (fst out)) /\
  (forall cur, current15m (fst out) = Some cur ->
     aligned cur /\
     Forall (fun x => (Candle15m.windowId x < Candle15m.windowId cur)%Z)
            (closes15m (snd out))).
Proof.
  intros Hch. cbn zeta.
  destruct (feed_new_ascending cs Hch) as (Hasc & Hal & Hcur).
  assert (StronglySorted
            (fun a b => (Candle15m.openTime a < Candle15m.openTime b)%Z)
            (closes15m (snd (feed new cs)))) as Hot
    by (apply (StronglySorted_weaken _ _ aligned _ aligned_openTime_lt Hal Hasc)).
  destruct (feed_history cs new []) as [_ Hh]; [reflexivity|].
  unfold getClosed15m. rewrite Hh. cbn [app]. unfold lastN.
  split; [exact Hasc|]. split; [exact Hal|]. split; [exact Hot|].
  split; [apply StronglySorted_skipn; exact Hasc|].
  split; [apply StronglySorted_skipn; exact Hot | exact Hcur].
Qed.

End BuilderOrder.

(** ** SwingDetector: the pools *)
Section Pools.
Context {ar : Rounding}.
Import SwingDetector PoolSpec.

Lemma sortBy_fixed {A} (leb : A -> A -> bool) (l : list A) :
  StronglySorted (fun a b => leb a b = true) l -> sortBy leb l = l.
Proof.
  induction 1 as [|a l Hs IH Hall]; [reflexivity|].
  cbn [sortBy]. rewrite IH. destruct l as [|b l]; [reflexivity|].
  cbn [insertBy]. inversion Hall as [|? ? Hab _]; subst.
  rewrite Hab. reflexivity.
Qed.

Lemma byTime_total a b : byTime a b = false -> byTime b a = true.
Proof. unfold byTime. rewrite Z.leb_gt, Z.leb_le. lia. Qed.

Lemma byTime_trans a b c :
  byTime a b = true -> byTime b c = true -> byTime a c = true.
Proof. unfold byTime. rewrite !Z.leb_le. lia. Qed.

Lemma ordered_NoDup (pool : list Swing) :
  ordered pool -> NoDup (map time pool).
Proof.
  induction 1 as [|a l Hs IH Hall]; cbn [map]; constructor; [|exact IH].
  intros Hin. apply in_map_iff in Hin as (x & Ex & Hx).
  rewrite Forall_forall in Hall. specialize (Hall x Hx). lia.
Qed.

Lemma ordered_byTime (pool : list Swing) :
  ordered pool -> StronglySorted (fun a b => byTime a b = true) pool.
Proof.
  intros H. eapply (StronglySorted_weaken _ _ (fun _ => True)); [| |exact H].
  - intros a b _ _ Hab. cbv beta in Hab. unfold byTime. apply Z.leb_le. lia.
  - apply Forall_forall. intros; exact I.
Qed.

Lemma sorted_NoDup_ordered (pool : list Swing) :
  StronglySorted (fun a b => byTime a b = true) pool ->
  NoDup (map time pool) -> ordered pool.
Proof.
  induction 1 as [|a l Hs IH Hall]; intros Hnd; [constructor|].
  cbn [map] in Hnd. inversion Hnd as [|? ? Hnot Hnd']; subst.
  constructor; [apply IH; exact Hnd'|].
  rewrite Forall_forall in *. intros x Hx. specialize (Hall x Hx).
  unfold byTime in Hall. apply Z.leb_le in Hall.
  assert (time a <> time x)
    by (intros E; apply Hnot; rewrite E; apply in_map; exact Hx).
  lia.
Qed.

Lemma already_false (pool : list Swing) (t : Z) :
  already pool t = false <-> ~ In t (map time pool).
Proof.
  unfold already. split.
  - intros H Hin. apply in_map_iff in Hin as (x & Ex & Hx).
    assert (existsb (fun s => (time s =? t)%Z) pool = true) as T
      by (apply existsb_exists; exists x; split;
          [exact Hx | apply Z.eqb_eq; exact Ex]).
    congruence.
  - intros H. destruct (existsb _ pool) eqn:E; [|reflexivity].
    apply existsb_exists in E as (x & Hx & Ex). apply Z.eqb_eq in Ex.
    exfalso. apply H. rewrite <- Ex. apply in_map. exact Hx.
Qed.

Lemma addToPool_length (maxPool : nat) (pool : list Swing) (entry : Swing) :
  (length (_addToPool maxPool pool entry) <= maxPool)%nat.
Proof. unfold _addToPool. rewrite length_skipn. lia. Qed.

Lemma addToPool_ordered (maxPool : nat) (pool : list Swing) (entry : Swing) :
  ordered pool -> already pool (time entry) = false ->
  ordered (_addToPool maxPool pool entry).
Proof.
  intros Ho Ha. unfold _addToPool. apply StronglySorted_skipn.
  apply sorted_NoDup_ordered.
  - apply sortBy_sorted; [exact byTime_total | exact byTime_trans].
  - eapply Permutation_NoDup;
      [apply Permutation_map, Permutation_sym, sortBy_perm|].
    rewrite map_app. cbn [map].
    apply NoDup_app; [apply ordered_NoDup; exact Ho
                     | constructor; [intros [] | constructor] |].
    intros t Ht [<- | []]. apply (proj1 (already_false _ _) Ha). exact Ht.
Qed.

(** What [update] does to the two pools. *)
Lemma update_pools (s s' : t) (candles15m : list Candle15m.t)
      (log : list LogEvent) :
  update s candles15m = Some (s', log) ->
  lookback s' = lookback s /\ maxPoolSize s' = maxPoolSize s /\
  (swingHighPool s' = swingHighPool s \/
   exists entry, already (swingHighPool s) (time entry) = false /\
     swingHighPool s' = _addToPool (maxPoolSize s) (swingHighPool s) entry) /\
  (swingLowPool s' = swingLowPool s \/
   exists entry, already (swingLowPool s) (time entry) = false /\
     swingLowPool s' = _addToPool (maxPoolSize s) (swingLowPool s) entry).
Proof.
  unfold update.
  destruct (length candles15m <? lookback s * 2 + 1)%nat;
    [intros [= <- _]; repeat split; auto|].
  destruct (length candles15m - 1 - lookback s <? lookback s)%nat;
    [intros [= <- _]; repeat split; auto|].
  destruct (nth_error candles15m _) as [candidate|]; [|discriminate].
  set (i := (length candles15m - 1 - lookback s)%nat).
  destruct (already (swingHighPool s) (Candle15m.openTime candidate)) eqn:Ah;
    destruct (already (swingLowPool s) (Candle15m.openTime candidate)) eqn:Al;
    repeat match goal with
           | |- context [isSwingHigh ?a ?b ?c ?d] =>
               destruct (isSwingHigh a b c d) as [[|]|]
           | |- context [isSwingLow ?a ?b ?c ?d] =>
               destruct (isSwingLow a b c d) as [[|]|]
           end;
    try discriminate;
    intros [= <- _]; cbn [lookback maxPoolSize swingHighPool swingLowPool];
    (split; [reflexivity|]); (split; [reflexivity|]);
    split;
    solve [ left; reflexivity
          | right; exists (highEntry candidate i); split;
            [exact Ah | reflexivity]
          | right; exists (lowEntry candidate i); split;
            [exact Al | reflexivity] ].
Qed.

Lemma filter_ordered (f : Swing -> bool) (pool : list Swing) :
  ordered pool -> ordered (filter f pool).
Proof.
  induction 1 as [|a l Hs IH Hall]; cbn [filter]; [constructor|].
  destruct (f a); [|exact IH]. constructor; [exact IH|].
  rewrite Forall_forall in *. intros x Hx. apply filter_In in Hx as [Hx _].
  apply Hall. exact Hx.
Qed.

Lemma filter_length_le {A} (f : A -> bool) (l : list A) :
  (length (filter f l) <= length l)%nat.
Proof.
  induction l as [|a l IH]; cbn; [lia|]. destruct (f a); cbn; lia.
Qed.

Lemma pools_invariant (cfg : Config) (s : t) :
  reachable cfg s ->
  lookback s = swing_lookback cfg /\
  maxPoolSize s = swing_maxPoolSize cfg /\
  ordered (swingHighPool s) /\ ordered (swingLowPool s) /\
  (length (swingHighPool s) <= maxPoolSize s)%nat /\
  (length (swingLowPool s) <= maxPoolSize s)%nat.
Proof.
  induction 1 as [| s candles s' log _ IH Hu | s type swept _ IH].
  - cbn. repeat split; try constructor; lia.
  - destruct IH as (Hl & Hm & Hh & Hlo & Lh & Ll).
    destruct (update_pools _ _ _ _ Hu) as (El & Em & Ph & Pl).
    rewrite El, Em. split; [exact Hl|]. split; [exact Hm|].
    destruct Ph as [-> | (e & Ha & ->)];
      destruct Pl as [-> | (e' & Ha' & ->)];
      repeat split; try assumption;
      try (apply addToPool_ordered; assumption);
      apply addToPool_length.
  - destruct IH as (Hl & Hm & Hh & Hlo & Lh & Ll).
    unfold clearSweptLevels.
    destruct (String.eqb type "high");
      cbn [lookback maxPoolSize swingHighPool swingLowPool];
      repeat split; try assumption; try (apply filter_ordered; assumption).
    + pose proof (filter_length_le
                    (fun x => negb (sweptTimesHas swept (time x)))
                    (swingHighPool s)). lia.
    + pose proof (filter_length_le
                    (fun x => negb (sweptTimesHas swept (time x)))
                    (swingLowPool s)). lia.
Qed.

(** X14. In every state of the swing detector each pool is in strictly
    increasing order of time, so no time occurs twice in it, and holds at
    most [maxPoolSize] pivots. *)
Theorem pools_bounded_ordered (cfg : Config) (s : t) :
  reachable cfg s ->
  ordered (swingHighPool s) /\ ordered (swingLowPool s) /\
  NoDup (map time (swingHighPool s)) /\ NoDup (map time (swingLowPool s)) /\
  (length (swingHighPool s) <= swing_maxPoolSize cfg)%nat /\
  (length (swingLowPool s) <= swing_maxPoolSize cfg)%nat.
Proof.
  intros Hr. destruct (pools_invariant cfg s Hr) as (_ & Hm & Hh & Hl & Lh & Ll).
  rewrite Hm in Lh, Ll.
  repeat split; try assumption; apply ordered_NoDup; assumption.
Qed.

End Pools.

Section SweepAndClear.
Context {ar : Rounding}.
Import SwingDetector PoolSpec.

Lemma sweptTimesHas_self (swept : list Swing) (p : Swing) :
  In p swept -> sweptTimesHas swept (time p) = true.
Proof.
  intros H. unfold sweptTimesHas. apply existsb_exists.
  exists p. split; [exact H | apply Z.eqb_refl].
Qed.

(** X15. Once the pivots swept by a price are cleared from a pool, that
    price, and any price that sweeps less, sweeps nothing more of it; the
    other pool is as it was. *)
Theorem cleared_levels_not_swept (s : t) (x : Q) :
  let clearedHigh :=
    clearSweptLevels s "high" (sh_swept (getSweptHighs s x)) in
  let clearedLow :=
    clearSweptLevels s "low" (sl_swept (getSweptLows s x)) in
  (forall y, y <= x ->
     sh_swept (getSweptHighs clearedHigh y) = [] /\
     sh_count (getSweptHighs clearedHigh y) = 0%nat /\
     highestLevel (getSweptHighs clearedHigh y) = None) /\
  swingLowPool clearedHigh = swingLowPool s /\
  (forall y, x <= y ->
     sl_swept (getSweptLows clearedLow y) = [] /\
     sl_count (getSweptLows clearedLow y) = 0%nat /\
     highestSweptLevel (getSweptLows clearedLow y) = None) /\
  swingHighPool clearedLow = swingHighPool s.
Proof.
  cbn zeta. unfold clearSweptLevels. cbn [String.eqb Ascii.eqb Bool.eqb].
  split; [|split; [reflexivity | split; [|reflexivity]]].
  - intros y Hy. unfold getSweptHighs.
    cbn [swingHighPool sh_swept sh_count highestLevel].
    set (sw := filter (fun p => Qltb (price p) x) (swingHighPool s)).
    assert (filter (fun p => Qltb (price p) y)
              (filter (fun p => negb (sweptTimesHas sw (time p)))
                      (swingHighPool s)) = []) as E.
    { destruct (filter _ (filter _ _)) as [|p l] eqn:Ef; [reflexivity|].
      assert (In p (p :: l)) as Hp by (left; reflexivity).
      rewrite <- Ef in Hp. apply filter_In in Hp as [Hp Hlt].
      apply filter_In in Hp as [Hp Hkeep].
      apply Qltb_lt in Hlt.
      assert (In p sw) as Hs
        by (apply filter_In; split; [exact Hp | apply Qltb_lt; lra]).
      rewrite (sweptTimesHas_self _ _ Hs) in Hkeep. discriminate. }
    rewrite E. repeat split; reflexivity.
  - intros y Hy. unfold getSweptLows.
    cbn [swingLowPool sl_swept sl_count highestSweptLevel].
    set (sw := filter (fun p => Qltb x (price p)) (swingLowPool s)).
    assert (filter (fun p => Qltb y (price p))
              (filter (fun p => negb (sweptTimesHas sw (time p)))
                      (swingLowPool s)) = []) as E.
    { destruct (filter _ (filter _ _)) as [|p l] eqn:Ef; [reflexivity|].
      assert (In p (p :: l)) as Hp by (left; reflexivity).
      rewrite <- Ef in Hp. apply filter_In in Hp as [Hp Hlt].
      apply filter_In in Hp as [Hp Hkeep].
      apply Qltb_lt in Hlt.
      assert (In p sw) as Hs
        by (apply filter_In; split; [exact Hp | apply Qltb_lt; lra]).
      rewrite (sweptTimesHas_self _ _ Hs) in Hkeep. discriminate. }
    rewrite E. repeat split; reflexivity.
Qed.

Lemma NoDup_time_eq (pool : list Swing) (a b : Swing) :
  NoDup (map time pool) -> In a pool -> In b pool -> time a = time b ->
  a = b.
Proof.
  induction pool as [|x pool IH]; cbn [map]; intros Hnd Ha Hb E;
    [destruct Ha|].
  inversion Hnd as [|? ? Hnot Hnd']; subst.
  destruct Ha as [<- | Ha]; destruct Hb as [<- | Hb].
  - reflexivity.
  - exfalso. apply Hnot. rewrite E. apply in_map. exact Hb.
  - exfalso. apply Hnot. rewrite <- E. apply in_map. exact Ha.
  - apply IH; assumption.
Qed.

Lemma clear_exact (pool : list Swing) (f : Swing -> bool) :
  NoDup (map time pool) ->
  filter (fun p => negb (sweptTimesHas (filter f pool) (time p))) pool
  = filter (fun p => negb (f p)) pool.
Proof.
  intros Hnd. apply filter_ext_in. intros p Hp. f_equal.
  destruct (f p) eqn:E.
  - apply sweptTimesHas_self. apply filter_In. split; assumption.
  - destruct (sweptTimesHas (filter f pool) (time p)) eqn:Es; [|reflexivity].
    unfold sweptTimesHas in Es. apply existsb_exists in Es as (x & Hx & Et).
    apply Z.eqb_eq in Et. apply filter_In in Hx as [Hx Hfx].
    rewrite (NoDup_time_eq pool x p Hnd Hx Hp Et) in Hfx. congruence.
Qed.

(** X16. In every state of the swing detector, clearing the highs swept
    by a price leaves exactly the highs that price did not sweep, in their
    order, and clearing the lows swept by a price leaves exactly the lows
    it did not sweep. *)
Theorem clear_swept_exact (cfg : Config) (s : t) (x : Q) :
  reachable cfg s ->
  swingHighPool (clearSweptLevels s "high" (sh_swept (getSweptHighs s x)))
  = filter (fun p => Qle_bool x (price p)) (swingHighPool s) /\
  swingLowPool (clearSweptLevels s "low" (sl_swept (getSweptLows s x)))
  = filter (fun p => Qle_bool (price p) x) (swingLowPool s).
Proof.
  intros Hr. destruct (pools_invariant cfg s Hr) as (_ & _ & Hh & Hl & _).
  unfold clearSweptLevels. cbn [String.eqb Ascii.eqb Bool.eqb].
  cbn [swingHighPool swingLowPool]. unfold getSweptHighs, getSweptLows.
  cbn [sh_swept sl_swept]. split.
  - rewrite (clear_exact _ _ (ordered_NoDup _ Hh)).
    apply filter_ext. intros p. unfold Qltb. apply negb_involutive.
  - rewrite (clear_exact _ _ (ordered_NoDup _ Hl)).
    apply filter_ext. intros p. unfold Qltb. apply negb_involutive.
Qed.

(** X17. A pivot newer than all pivots of an ordered pool is appended to
    it and the oldest pivots beyond [maxPoolSize] are dropped: the pool
    becomes the last [maxPoolSize] pivots of the old pool followed by the
    new one. *)
Theorem addToPool_fifo (maxPool : nat) (pool : list Swing) (entry : Swing) :
  ordered pool ->
  (forall p, In p pool -> (time p < time entry)%Z) ->
  _addToPool maxPool pool entry = lastN maxPool (pool ++ [entry]) /\
  ((1 <= maxPool)%nat ->
   last (_addToPool maxPool pool entry) entry = entry /\
   In entry (_addToPool maxPool pool entry)).
Proof.
  intros Ho Hnew.
  assert (ordered (pool ++ [entry])) as Ho'.
  { clear -Ho Hnew. induction Ho as [|a l Hs IH Hall]; cbn [app].
    - constructor; constructor.
    - constructor.
      + apply IH. intros p Hp. apply Hnew. right. exact Hp.
      + apply Forall_app. split; [exact Hall|].
        constructor; [apply Hnew; left; reflexivity | constructor]. }
  assert (_addToPool maxPool pool entry = lastN maxPool (pool ++ [entry]))
    as E.
  { unfold _addToPool, lastN.
    rewrite (sortBy_fixed byTime _ (ordered_byTime _ Ho')). reflexivity. }
  split; [exact E|]. intros Hm. rewrite E. unfold lastN.
  rewrite length_app. cbn [length].
  rewrite skipn_app.
  replace (length pool + 1 - maxPool - length pool)%nat with 0%nat by lia.
  cbn [skipn]. split; [apply last_last | apply in_or_app; right; left; reflexivity].
Qed.


End SweepAndClear.

(** ** From the sweep to the signal *)
Section SignalPayload.
Context {ar : Rounding}.
Import AbsorptionDetector Candidacy.
Variable cfg : Config.

(** [updateStats] after [updateStats], one call per closed candle. *)
Lemma updates_pending (updates : list (Q * Q)) (d : t) :
  pending (fold_left (fun d x => updateStats d (fst x) (snd x)) updates d)
  = pending d /\
  minLevelsSwept
    (fold_left (fun d x => updateStats d (fst x) (snd x)) updates d)
  = minLevelsSwept d.
Proof.
  revert d. induction updates as [|x updates IH]; intros d; cbn [fold_left];
    [split; reflexivity|].
  destruct (IH (updateStats d (fst x) (snd x))) as [H1 H2].
  rewrite H1, H2. split; reflexivity.
Qed.

Lemma Qle_bool_total (a b : Q) : Qle_bool a b = false -> Qle_bool b a = true.
Proof.
  intros H. apply Qle_bool_iff.
  destruct (Qlt_le_dec a b) as [Hlt | Hle]; [|exact Hle].
  assert (Qle_bool a b = true) by (apply Qle_bool_iff; lra). congruence.
Qed.

Lemma Qle_bool_trans (a b c : Q) :
  Qle_bool a b = true -> Qle_bool b c = true -> Qle_bool a c = true.
Proof. rewrite !Qle_bool_iff. lra. Qed.

(** The sorted list of levels of a signal. *)
Lemma sweptLevels_sorted (l : list Q) :
  StronglySorted Qle (sortBy Qle_bool l) /\
  Permutation (sortBy Qle_bool l) l.
Proof.
  split; [|apply sortBy_perm].
  pose proof (sortBy_sorted Qle_bool Qle_bool_total Qle_bool_trans l) as H.
  induction H as [|a s Hs IH Hall]; constructor; [exact IH|].
  eapply Forall_impl; [|exact Hall]. intros x. apply Qle_bool_iff.
Qed.

Lemma isMaxOf_perm (l l' : list Q) (r : option Q) :
  Permutation l l' -> isMaxOf l r -> isMaxOf l' r.
Proof.
  intros Hp. destruct r as [m|]; cbn.
  - intros [Hin Hub]. split; [apply (Permutation_in _ Hp); exact Hin|].
    intros x Hx. apply Hub. apply (Permutation_in _ (Permutation_sym Hp)).
    exact Hx.
  - intros ->. apply Permutation_nil. exact Hp.
Qed.

(** X19. A SHORT candidate registered with the highs swept by the
    candle's high, and confirmed after any number of statistics updates,
    gives a SHORT signal: the confirming high is not above the candle's
    high, there are at least [minLevelsSwept] levels, listed in ascending
    order, all strictly below the sweep price, which is the candle's high;
    the swing level is the greatest of them; and the candle and footprint
    of the signal are the ones of the candidate. *)
Theorem short_signal_payload (d0 : t) (c0 : Candle) (fp0 : Footprint)
        (sl : SweptLows) (swings : SwingDetector.t)
        (updates : list (Q * Q)) (c : Candle) (fpo : option Footprint)
        (o : Outcome) (type : SignalType) (data : SignalData) :
  let sh := SwingDetector.getSweptHighs swings (high c0) in
  RollingStats.isReady (stats d0) = true ->
  upper cfg d0 c0 fp0 sh ->
  checkConfirmation
    (fold_left (fun d x => updateStats d (fst x) (snd x)) updates
               (det (checkCandle cfg d0 c0 (Some fp0) sl sh)))
    c fpo = Return o ->
  result o = Signal type data ->
  type = SHORT_SIGNAL /\
  high c <= high c0 /\
  (minLevelsSwept d0 <= sweptCount data)%nat /\
  sweptCount data = length (sweptLevels data) /\
  StronglySorted Qle (sweptLevels data) /\
  (forall l, In l (sweptLevels data) -> l < high c0) /\
  sd_sweepPrice data = Some (high c0) /\
  isMaxOf (sweptLevels data) (swingLevel data) /\
  sd_candle data = c0 /\ sd_footprint data = fp0 /\
  pending (det o) = _emptyPending.
Proof.
  intros sh Hready Hup Hconf Hres.
  set (d2 := fold_left _ updates _) in Hconf.
  assert (pending d2 = pendingUpper c0 fp0 sh (high c0) 0) as Hp.
  { subst d2. rewrite (proj1 (updates_pending updates _)).
    destruct (checkCandle_cases cfg d0 c0 fp0 sl sh Hready)
      as [(_ & Ho) | [(NU & _) | (NU & _)]]; [|tauto | tauto].
    rewrite Ho. reflexivity. }
  destruct (checkConfirmation_short d2 c fpo c0 fp0 sh (high c0) 0 Hp)
    as (o' & Ho' & Hd & Hcancel & Hconfirm).
  rewrite Hconf in Ho'. injection Ho' as <-.
  destruct (Qlt_le_dec (high c0) (high c)) as [Hlt | Hle].
  { destruct (Hcancel Hlt) as [Hr _]. congruence. }
  destruct (Hconfirm Hle)
    as (_ & data' & Hr & L1 & L2 & L3 & L4 & L5 & L6 & _).
  rewrite Hres in Hr. injection Hr as -> <-.
  destruct (sweptLevels_sorted (map price (sh_swept sh))) as [Hsorted Hperm].
  rewrite L1, L2, L3, L4, L5, L6, Hd.
  split; [reflexivity|]. split; [exact Hle|].
  split; [destruct Hup as (Hmin & _); exact Hmin|].
  split.
  { rewrite (Permutation_length Hperm), length_map. reflexivity. }
  split; [exact Hsorted|].
  split.
  { intros l Hl. apply (Permutation_in _ Hperm) in Hl.
    apply in_map_iff in Hl as (p & <- & Hp').
    unfold sh, SwingDetector.getSweptHighs in Hp'. cbn [sh_swept] in Hp'.
    apply filter_In in Hp' as [_ Hp']. apply Qltb_lt. exact Hp'. }
  split; [reflexivity|].
  split.
  { apply (isMaxOf_perm _ _ _ (Permutation_sym Hperm)). apply maxOf_spec. }
  repeat split; reflexivity.
Qed.

(** X20. A LONG candidate registered with the lows swept by the candle's
    low, and confirmed after any number of statistics updates, gives a
    LONG signal: the confirming low is not below the candle's low, there
    are at least [minLevelsSwept] levels, listed in ascending order, all
    strictly above the sweep price, which is the candle's low; the swing
    level is the greatest of them; and the candle and footprint of the
    signal are the ones of the candidate. *)
Theorem long_signal_payload (d0 : t) (c0 : Candle) (fp0 : Footprint)
        (sh : SweptHighs) (swings : SwingDetector.t)
        (updates : list (Q * Q)) (c : Candle) (fpo : option Footprint)
        (o : Outcome) (type : SignalType) (data : SignalData) :
  let sl := SwingDetector.getSweptLows swings (low c0) in
  RollingStats.isReady (stats d0) = true ->
  lower cfg d0 c0 fp0 sl ->
  checkConfirmation
    (fold_left (fun d x => updateStats d (fst x) (snd x)) updates
               (det (checkCandle cfg d0 c0 (Some fp0) sl sh)))
    c fpo = Return o ->
  result o = Signal type data ->
  type = LONG_SIGNAL /\
  low c0 <= low c /\
  (minLevelsSwept d0 <= sweptCount data)%nat /\
  sweptCount data = length (sweptLevels data) /\
  StronglySorted Qle (sweptLevels data) /\
  (forall l, In l (sweptLevels data) -> low c0 < l) /\
  sd_sweepPrice data = Some (low c0) /\
  isMaxOf (sweptLevels data) (swingLevel data) /\
  sd_candle data = c0 /\ sd_footprint data = fp0 /\
  pending (det o) = _emptyPending.
Proof.
  intros sl Hready Hlow Hconf Hres.
  set (d2 := fold_left _ updates _) in Hconf.
  assert (pending d2 = pendingLower c0 fp0 sl (low c0) 0) as Hp.
  { subst d2. rewrite (proj1 (updates_pending updates _)).
    destruct (checkCandle_cases cfg d0 c0 fp0 sl sh Hready)
      as [(HU & _) | [(_ & _ & Ho) | (_ & NL & _)]]; [| |tauto].
    - destruct (upper_lower_exclusive cfg _ _ _ _ _ HU Hlow).
    - rewrite Ho. reflexivity. }
  destruct (checkConfirmation_long d2 c fpo c0 fp0 sl (low c0) 0 Hp)
    as (o' & Ho' & Hd & Hcancel & Hconfirm).
  rewrite Hconf in Ho'. injection Ho' as <-.
  destruct (Qlt_le_dec (low c) (low c0)) as [Hlt | Hle].
  { destruct (Hcancel Hlt) as [Hr _]. congruence. }
  destruct (Hconfirm Hle)
    as (_ & data' & Hr & L1 & L2 & L3 & L4 & L5 & L6 & _).
  rewrite Hres in Hr. injection Hr as -> <-.
  destruct (sweptLevels_sorted (map price (sl_swept sl))) as [Hsorted Hperm].
  rewrite L1, L2, L3, L4, L5, L6, Hd.
  split; [reflexivity|]. split; [exact Hle|].
  split; [destruct Hlow as (Hmin & _); exact Hmin|].
  split.
  { rewrite (Permutation_length Hperm), length_map. reflexivity. }
  split; [exact Hsorted|].
  split.
  { intros l Hl. apply (Permutation_in _ Hperm) in Hl.
    apply in_map_iff in Hl as (p & <- & Hp').
    unfold sl, SwingDetector.getSweptLows in Hp'. cbn [sl_swept] in Hp'.
    apply filter_In in Hp' as [_ Hp']. apply Qltb_lt. exact Hp'. }
  split; [reflexivity|].
  split.
  { apply (isMaxOf_perm _ _ _ (Permutation_sym Hperm)). apply maxOf_spec. }
  repeat split; reflexivity.
Qed.

End SignalPayload.

(** ** AlertService: cooldown and duplicates *)
Section Alerts.
Import AlertService AlertSpec.
Variable numberToString : Q -> string.

Lemma has_false_iff (set : list string) (h : string) :
  has set h = false <-> ~ In h set.
Proof.
  unfold has. split.
  - intros H Hin.
    assert (existsb (String.eqb h) set = true) as T
      by (apply existsb_exists; exists h; split;
          [exact Hin | apply String.eqb_refl]).
    congruence.
  - intros H. destruct (existsb _ set) eqn:E; [|reflexivity].
    apply existsb_exists in E as (x & Hx & Ex).
    apply String.eqb_eq in Ex. subst x. destruct (H Hx).
Qed.

(** The two ends of a call. *)
Lemma sendAlert_cases (s : t) (c : Call) :
  let r := _sendAlert numberToString s (now c) (type c) (data c)
                      (delivered c) in
  (snd r = false /\ fst r = s) \/
  (snd r = true /\
   (cooldownMs s <= now c - lastAlertTime s)%Z /\
   ~ In (hashOf numberToString c) (recentAlertHashes s) /\
   delivered c = true /\
   lastAlertTime (fst r) = now c /\
   cooldownMs (fst r) = cooldownMs s /\
   maxRecentHashes (fst r) = maxRecentHashes s /\
   recentAlertHashes (fst r)
   = (let w := recentAlertHashes s ++ [hashOf numberToString c] in
      if (maxRecentHashes s <? length w)%nat then tl w else w)).
Proof.
  cbn zeta. unfold _sendAlert, _sendAlert_begin, _sendAlert_resume, hashOf.
  cbn zeta.
  destruct (now c - lastAlertTime s <? cooldownMs s)%Z eqn:Ec;
    [left; split; reflexivity|].
  destruct (has (recentAlertHashes s) (alertHash numberToString (type c)
                                                 (data c))) eqn:Eh;
    [left; split; reflexivity|].
  destruct (delivered c) eqn:Ed; [|left; split; reflexivity].
  right. cbn [fst snd lastAlertTime cooldownMs maxRecentHashes
              recentAlertHashes s_now s_hash].
  unfold add. rewrite Eh.
  apply Z.ltb_ge in Ec. apply has_false_iff in Eh.
  repeat split; assumption || reflexivity.
Qed.

Lemma run_cons (s : t) (c : Call) (calls : list Call) :
  let r := _sendAlert numberToString s (now c) (type c) (data c)
                      (delivered c) in
  run numberToString s (c :: calls)
  = (fst (run numberToString (fst r) calls),
     if snd r then c :: snd (run numberToString (fst r) calls)
     else snd (run numberToString (fst r) calls)).
Proof.
  cbn zeta. cbn [run].
  destruct (_sendAlert _ _ _ _ _ _) as [s1 sent]. cbn [fst snd].
  destruct (run numberToString s1 calls) as [s2 sents]. reflexivity.
Qed.

(** A schedule in which no two calls overlap is the calls one after the
    other. *)
Lemma exec_serial (s : t) (calls : list Call) :
  exec numberToString s [] (serial calls) = run numberToString s calls.
Proof.
  revert s. induction calls as [|c calls IH]; intros s; [reflexivity|].
  unfold serial. cbn [flat_map app]. fold (serial calls).
  cbn [exec run]. unfold _sendAlert.
  destruct (_sendAlert_begin numberToString s (now c) (type c) (data c))
    as [k|].
  - cbn [app nth_error firstn skipn].
    destruct (_sendAlert_resume s k (delivered c)) as [s1 sent].
    rewrite IH. reflexivity.
  - cbn [nth_error]. rewrite IH.
    destruct (run numberToString s calls) as [s2 sents]. reflexivity.
Qed.

Lemma run_spaced (s : t) (calls : list Call) :
  spaced (cooldownMs s) (lastAlertTime s)
         (map now (snd (run numberToString s calls))).
Proof.
  revert s. induction calls as [|c calls IH]; intros s; [exact I|].
  rewrite run_cons. cbn zeta. cbn [snd].
  destruct (sendAlert_cases s c)
    as [[Hr Hs] | (Hr & Hcd & _ & _ & Hl & Hc & _)]; rewrite Hr.
  - rewrite Hs. apply IH.
  - cbn [map spaced]. split; [exact Hcd|].
    pose proof (IH (fst (_sendAlert numberToString s (now c) (type c)
                                    (data c) (delivered c)))) as H.
    rewrite Hl, Hc in H. exact H.
Qed.

(** X21. When no call of [_sendAlert] enters while another awaits
    [sendMessage], each alert sent comes at least [cooldownMs] after the
    alert sent before it, by the times given to the calls, and the first
    at least [cooldownMs] after the time the service held at the
    start. *)
Theorem alerts_spaced (s : t) (calls : list Call) :
  spaced (cooldownMs s) (lastAlertTime s)
         (map now (snd (exec numberToString s [] (serial calls)))).
Proof. rewrite exec_serial. apply run_spaced. Qed.

Lemma run_recent (calls : list Call) (s : t) (past : list string) :
  recentAlertHashes s = lastN (maxRecentHashes s) past ->
  let sent := map (hashOf numberToString) (snd (run numberToString s calls)) in
  recentAlertHashes (fst (run numberToString s calls))
  = lastN (maxRecentHashes s) (past ++ sent) /\
  maxRecentHashes (fst (run numberToString s calls)) = maxRecentHashes s /\
  forall pre h post, sent = pre ++ h :: post ->
    ~ In h (lastN (maxRecentHashes s) (past ++ pre)).
Proof.
  revert s past. induction calls as [|c calls IH]; intros s past Hs.
  - cbn. rewrite app_nil_r. split; [exact Hs|]. split; [reflexivity|].
    intros pre h post E. destruct pre; discriminate E.
  - cbn zeta. rewrite run_cons. cbn zeta. cbn [fst snd].
    destruct (sendAlert_cases s c)
      as [[Hr Hsame] | (Hr & _ & Hnew & _ & _ & _ & Hm & Hrec)]; rewrite Hr.
    + rewrite Hsame. apply IH. exact Hs.
    + destruct (IH (fst (_sendAlert numberToString s (now c) (type c)
                                    (data c) (delivered c)))
                   (past ++ [hashOf numberToString c]))
        as (I1 & I2 & I3).
      { rewrite Hrec, Hm, Hs.
        apply (lastN_snoc (maxRecentHashes s) past). }
      rewrite Hm in I1, I2, I3. cbn [map].
      split; [rewrite I1, <- app_assoc; reflexivity|].
      split; [exact I2|].
      intros pre h post E. destruct pre as [|x pre]; cbn [app] in E.
      * injection E as <- _. rewrite app_nil_r, <- Hs. exact Hnew.
      * injection E as <- E. specialize (I3 pre h post E).
        rewrite <- app_assoc in I3. exact I3.
Qed.

(** X22. From the constructor on, when no call of [_sendAlert] enters
    while another awaits [sendMessage], the set of recent hashes is the
    hashes of the last 20 alerts sent, oldest first, and no alert is sent
    whose hash is the hash of one of the 20 alerts sent before it. *)
Theorem alerts_deduplicated (cooldown : Z) (calls : list Call) :
  let out := exec numberToString (new cooldown) [] (serial calls) in
  let sent := map (hashOf numberToString) (snd out) in
  recentAlertHashes (fst out) = lastN 20 sent /\
  (length (recentAlertHashes (fst out)) <= 20)%nat /\
  forall pre h post, sent = pre ++ h :: post -> ~ In h (lastN 20 pre).
Proof.
  cbn zeta. rewrite exec_serial.
  destruct (run_recent calls (new cooldown) []) as (H1 & _ & H3);
    [reflexivity|].
  cbn [new maxRecentHashes app] in H1, H3.
  split; [exact H1|]. split; [rewrite H1, lastN_length; lia | exact H3].
Qed.

(** X28. Two calls that overlap are not held apart: when the second
    enters while the first awaits [sendMessage], each passes the
    cooldown and duplicate tests on the service as the first found it,
    and with both messages delivered both alerts are sent, whatever
    their times and hashes; the service keeps the time of the second. *)
Theorem overlapping_alerts_both_sent (s : t) (c1 c2 : Call) :
  (cooldownMs s <= now c1 - lastAlertTime s)%Z ->
  (cooldownMs s <= now c2 - lastAlertTime s)%Z ->
  ~ In (hashOf numberToString c1) (recentAlertHashes s) ->
  ~ In (hashOf numberToString c2) (recentAlertHashes s) ->
  delivered c1 = true -> delivered c2 = true ->
  let out := exec numberToString s [] [Enter c1; Enter c2; Settle 0; Settle 0] in
  snd out = [c1; c2] /\
  lastAlertTime (fst out) = now c2.
Proof.
  intros T1 T2 H1 H2 D1 D2. cbn zeta. cbn [exec].
  unfold _sendAlert_begin. cbn zeta. unfold hashOf in H1, H2.
  apply Z.ltb_ge in T1, T2. apply has_false_iff in H1, H2.
  rewrite T1, T2, H1, H2.
  cbn [app nth_error firstn skipn].
  unfold _sendAlert_resume. rewrite D1, D2.
  cbn [fst snd lastAlertTime s_now].
  split; reflexivity.
Qed.

End Alerts.

(** ** Bot: the 15mClose listener *)
Section Pipeline.
Context {ar : Rounding}.
Import CandleBuilder SwingDetector CandlePipeline CandleSpec PivotSpec
       PipelineSpec.

Lemma feed_app (s : CandleBuilder.t) (a b : list Candle) :
  feed s (a ++ b)
  = (fst (feed (fst (feed s a)) b),
     snd (feed s a) ++ snd (feed (fst (feed s a)) b)).
Proof.
  revert s. induction a as [|c a IH]; intros s.
  - cbn [app feed fst snd]. destruct (feed s b). reflexivity.
  - cbn [app]. rewrite !feed_cons, IH. cbn [fst snd].
    rewrite app_assoc. reflexivity.
Qed.

Lemma runAll_app (p : CandlePipeline.t) (a b : list Candle) :
  runAll p (a ++ b)
  = match runAll p a with
    | None => None
    | Some (p1, calls1) =>
      match runAll p1 b with
      | None => None
      | Some (p2, calls2) => Some (p2, calls1 ++ calls2)
      end
    end.
Proof.
  revert p. induction a as [|c a IH]; intros p.
  - cbn [app runAll]. destruct (runAll p b) as [[p2 calls2]|]; reflexivity.
  - cbn [app runAll]. destruct (step p c) as [[p1 calls1]|]; [|reflexivity].
    rewrite IH. destruct (runAll p1 a) as [[p2 calls2]|]; [|reflexivity].
    destruct (runAll p2 b) as [[p3 calls3]|]; [|reflexivity].
    rewrite app_assoc. reflexivity.
Qed.

Lemma StronglySorted_app_l {A} (R : A -> A -> Prop) (l1 l2 : list A) :
  StronglySorted R (l1 ++ l2) -> StronglySorted R l1.
Proof.
  induction l1 as [|a l1 IH]; intros H; [constructor|].
  cbn [app] in H. inversion H as [|? ? Hs Hf]; subst.
  constructor; [apply IH; exact Hs|].
  apply Forall_app in Hf as [Hf _]. exact Hf.
Qed.

(** In a strictly sorted list, the element with more elements after it
    comes first. *)
Lemma sorted_positions {A} (R : A -> A -> Prop) (p1 p2 q1 q2 : list A)
      (a b : A) :
  StronglySorted R (p1 ++ a :: q1) ->
  p1 ++ a :: q1 = p2 ++ b :: q2 ->
  (length q2 < length q1)%nat ->
  R a b.
Proof.
  revert p2. induction p1 as [|x p1 IH]; intros p2 Hs He Hlen.
  - destruct p2 as [|y p2].
    + cbn [app] in He. injection He as _ He. subst q2. lia.
    + cbn [app] in He, Hs. injection He as _ He.
      inversion Hs as [|? ? _ Hf]; subst.
      rewrite Forall_forall in Hf. apply Hf.
      apply in_or_app. right. left. reflexivity.
  - destruct p2 as [|y p2].
    + cbn [app] in He. injection He as _ He. subst q2.
      rewrite length_app in Hlen. cbn [length] in Hlen. lia.
    + cbn [app] in He, Hs. injection He as _ He.
      inversion Hs; subst. eapply IH; eassumption.
Qed.

(** The outcome of [update] on a history long enough for a candidate. *)
Lemma update_outcome (s : SwingDetector.t) (candles15m : list Candle15m.t) :
  let L := lookback s in
  let idx := (length candles15m - 1 - L)%nat in
  (L * 2 + 1 <= length candles15m)%nat ->
  exists candidate rh rl,
    nth_error candles15m idx = Some candidate /\
    (rh = true <-> dominates candles15m Candle15m.high Qlt L idx candidate) /\
    (rl = true <->
     dominates candles15m Candle15m.low (fun a b => b < a) L idx candidate) /\
    update s candles15m
    = Some ({| lookback := L;
               maxPoolSize := maxPoolSize s;
               swingHighPool :=
                 if already (swingHighPool s) (Candle15m.openTime candidate)
                 then swingHighPool s
                 else if rh
                      then _addToPool (maxPoolSize s) (swingHighPool s)
                                      (highEntry candidate idx)
                      else swingHighPool s;
               swingLowPool :=
                 if already (swingLowPool s) (Candle15m.openTime candidate)
                 then swingLowPool s
                 else if rl
                      then _addToPool (maxPoolSize s) (swingLowPool s)
                                      (lowEntry candidate idx)
                      else swingLowPool s |},
            (if already (swingHighPool s) (Candle15m.openTime candidate)
             then []
             else if rh then [InfoSwingHigh (highEntry candidate idx)]
                  else []) ++
            (if already (swingLowPool s) (Candle15m.openTime candidate)
             then []
             else if rl then [InfoSwingLow (lowEntry candidate idx)]
                  else [])).
Proof.
  cbn zeta. intros Hlen.
  set (L := lookback s) in *.
  set (idx := (length candles15m - 1 - L)%nat).
  destruct (nth_error candles15m idx) as [candidate|] eqn:Ec;
    [|apply nth_error_None in Ec; unfold idx in Ec; lia].
  destruct (isSwing_spec candles15m Candle15m.high Qgeb Qlt L idx candidate
              Qgeb_false) as (rh & Hrh & Hh); [unfold idx; lia|].
  destruct (isSwing_spec candles15m Candle15m.low Qleb (fun a b => b < a)
              L idx candidate Qleb_false) as (rl & Hrl & Hl);
    [unfold idx; lia|].
  exists candidate, rh, rl.
  split; [reflexivity|]. split; [exact Hh|]. split; [exact Hl|].
  unfold update. fold L.
  destruct (length candles15m <? L * 2 + 1)%nat eqn:E1;
    [apply Nat.ltb_lt in E1; lia|].
  fold idx.
  destruct (idx <? L)%nat eqn:E2;
    [apply Nat.ltb_lt in E2; unfold idx in E2; lia|].
  rewrite Ec. unfold isSwingHigh, isSwingLow. rewrite Hrh, Hrl.
  destruct (already (swingHighPool s) (Candle15m.openTime candidate));
    destruct (already (swingLowPool s) (Candle15m.openTime candidate));
    destruct rh; destruct rl; reflexivity.
Qed.

Lemma addToPool_incl (maxPool : nat) (pool : list Swing) (entry x : Swing) :
  In x (_addToPool maxPool pool entry) -> In x pool \/ x = entry.
Proof.
  unfold _addToPool. intros H.
  assert (In x (pool ++ [entry])) as Hin.
  { apply (Permutation_in _ (sortBy_perm byTime (pool ++ [entry]))).
    revert H.
    generalize (length (sortBy byTime (pool ++ [entry])) - maxPool)%nat.
    generalize (sortBy byTime (pool ++ [entry])).
    intros l n. revert l. induction n as [|n IH]; intros l Hl; [exact Hl|].
    destruct l as [|a l]; [exact Hl|]. right. apply IH. exact Hl. }
  apply in_app_or in Hin as [Hin | [<- | []]]; [left | right]; auto.
Qed.

Lemma settled_snoc (L : nat) (E : list Candle15m.t) (b : Candle15m.t)
      (pool : list Swing) :
  settled L E pool -> settled (S L) (E ++ [b]) pool.
Proof.
  intros H s Hs. destruct (H s Hs) as (pre & x & post & He & Ht & Hl).
  exists pre, x, (post ++ [b]). subst E. rewrite <- app_assoc.
  split; [reflexivity|]. split; [exact Ht|].
  rewrite length_app. cbn [length]. lia.
Qed.

Lemma settled_weaken (L L' : nat) (E : list Candle15m.t) (pool : list Swing) :
  (L' <= L)%nat -> settled L E pool -> settled L' E pool.
Proof.
  intros Hle H s Hs. destruct (H s Hs) as (pre & x & post & He & Ht & Hl).
  exists pre, x, post. repeat split; [exact He | exact Ht | lia].
Qed.

(** The candidate of the last [n] of the emitted candles is the emitted
    candle with [L] candles after it. *)
Lemma candidate_position (n L : nat) (E : list Candle15m.t)
      (candidate : Candle15m.t) :
  (L + 1 <= length (lastN n E))%nat ->
  nth_error (lastN n E) (length (lastN n E) - 1 - L) = Some candidate ->
  exists pre post, E = pre ++ candidate :: post /\ length post = L.
Proof.
  intros Hlen Hn. unfold lastN in *. rewrite nth_error_skipn in Hn.
  rewrite length_skipn in Hn, Hlen.
  apply nth_error_split in Hn as (pre & post & He & Hpre).
  exists pre, post. split; [exact He|].
  assert (length E = length pre + S (length post))%nat as Hl
    by (rewrite He at 1; rewrite length_app; reflexivity).
  lia.
Qed.

(** The candidate of the listener's call is in neither pool. *)
Lemma candidate_fresh (n L : nat) (E : list Candle15m.t)
      (candidate : Candle15m.t) (pool : list Swing) :
  byOpenTime E ->
  settled (S L) E pool ->
  (L + 1 <= length (lastN n E))%nat ->
  nth_error (lastN n E) (length (lastN n E) - 1 - L) = Some candidate ->
  already pool (Candle15m.openTime candidate) = false.
Proof.
  intros Hs Hp Hlen Hn.
  destruct (candidate_position n L E candidate Hlen Hn)
    as (pre & post & He & Hpost).
  apply already_false. intros Hin.
  apply in_map_iff in Hin as (s & Ht & Hin).
  destruct (Hp s Hin) as (pre2 & x & post2 & He2 & Hx & Hl2).
  assert (Candle15m.openTime x < Candle15m.openTime candidate)%Z as Hlt.
  { apply (sorted_positions
             (fun a b => (Candle15m.openTime a < Candle15m.openTime b)%Z)
             pre2 pre post2 post x candidate).
    - rewrite <- He2. exact Hs.
    - rewrite <- He2. exact He.
    - lia. }
  lia.
Qed.

Lemma settled_add (n L maxPool idx : nat) (E : list Candle15m.t)
      (candidate : Candle15m.t) (pool : list Swing) (entry : Swing) :
  time entry = Candle15m.openTime candidate ->
  settled L E pool ->
  (L + 1 <= length (lastN n E))%nat ->
  nth_error (lastN n E) (length (lastN n E) - 1 - L) = Some candidate ->
  settled L E (_addToPool maxPool pool entry).
Proof.
  intros Ht Hp Hlen Hn s Hs.
  apply addToPool_incl in Hs as [Hs | ->]; [apply Hp; exact Hs|].
  destruct (candidate_position n L E candidate Hlen Hn)
    as (pre & post & He & Hpost).
  exists pre, candidate, post. repeat split; [exact He | auto | lia].
Qed.

(** One call of [update] by the listener, on the last [n] of the emitted
    candles. *)
Lemma listener_update (n : nat) (E : list Candle15m.t) (b : Candle15m.t)
      (sd : SwingDetector.t) :
  let L := lookback sd in
  byOpenTime (E ++ [b]) ->
  settled L E (swingHighPool sd) ->
  settled L E (swingLowPool sd) ->
  exists sd' lg,
    update sd (lastN n (E ++ [b])) = Some (sd', lg) /\
    lookback sd' = L /\ maxPoolSize sd' = maxPoolSize sd /\
    settled L (E ++ [b]) (swingHighPool sd') /\
    settled L (E ++ [b]) (swingLowPool sd') /\
    fresh L (mkUpdateCall sd (lastN n (E ++ [b])) sd' lg).
Proof.
  cbn zeta. intros Hs Hh Hl.
  set (L := lookback sd) in *. set (H := lastN n (E ++ [b])).
  apply settled_snoc with (b := b) in Hh, Hl.
  destruct (Nat.lt_ge_cases (length H) (L * 2 + 1)) as [Hshort | Hlong].
  - exists sd, []. split; [apply update_short_history; exact Hshort|].
    split; [reflexivity|]. split; [reflexivity|].
    split; [apply (settled_weaken (S L)); [lia | exact Hh]|].
    split; [apply (settled_weaken (S L)); [lia | exact Hl]|].
    unfold fresh. cbn [before candles after log].
    split; [reflexivity|].
    split; [apply update_short_history; exact Hshort|].
    intros Hge. fold H in Hge. lia.
  - destruct (update_outcome sd H Hlong)
      as (candidate & rh & rl & Hc & _ & _ & Hu).
    fold L in Hc, Hu.
    assert (L + 1 <= length H)%nat as Hlen by lia.
    pose proof (candidate_fresh n L _ candidate _ Hs Hh Hlen Hc) as Fh.
    pose proof (candidate_fresh n L _ candidate _ Hs Hl Hlen Hc) as Fl.
    eexists _, _. split; [exact Hu|].
    cbn [lookback maxPoolSize swingHighPool swingLowPool].
    split; [reflexivity|]. split; [reflexivity|].
    rewrite Fh, Fl.
    split; [|split].
    + destruct rh.
      * apply (settled_add n L _ (length H - 1 - L) _ candidate);
          [reflexivity | apply (settled_weaken (S L)); [lia | exact Hh]
           | exact Hlen | exact Hc].
      * apply (settled_weaken (S L)); [lia | exact Hh].
    + destruct rl.
      * apply (settled_add n L _ (length H - 1 - L) _ candidate);
          [reflexivity | apply (settled_weaken (S L)); [lia | exact Hl]
           | exact Hlen | exact Hc].
      * apply (settled_weaken (S L)); [lia | exact Hl].
    + unfold fresh. cbn [before candles after log].
      split; [reflexivity|]. split; [rewrite Hu, Fh, Fl; reflexivity|].
      intros _. exists candidate. fold H. fold L.
      split; [exact Hc|]. split; [exact Fh | exact Fl].
Qed.

End Pipeline.

Section PipelineRun.
Context {ar : Rounding}.
Import CandleBuilder SwingDetector CandlePipeline CandleSpec PivotSpec
       PipelineSpec.

Lemma step_cases (p : CandlePipeline.t) (c : Candle) :
  let r := _on1mClose (candleBuilder p) c in
  (closes15m (snd r) = [] /\
   step p c = Some ({| candleBuilder := fst r;
                       swingDetector := swingDetector p |}, [])) \/
  (exists b, closes15m (snd r) = [b] /\
     step p c
     = match update (swingDetector p) (closed15m (fst r)) with
       | None => None
       | Some (sd1, lg) =>
         Some ({| candleBuilder := fst r; swingDetector := sd1 |},
               [mkUpdateCall (swingDetector p) (closed15m (fst r)) sd1 lg])
       end).
Proof.
  cbn zeta. unfold step.
  destruct (on1mClose_cases (candleBuilder p) c) as (_ & _ & Hcases).
  destruct (_on1mClose (candleBuilder p) c) as [cb ev].
  cbn [fst snd] in *.
  destruct Hcases as [(_ & _ & _ & ->) | [(b & _ & _ & _ & _ & ->)
                                         | (b & _ & _ & _ & _ & ->)]].
  - left. split; reflexivity.
  - left. split; reflexivity.
  - right. exists b. split; [reflexivity|].
    cbn [listen]. unfold getClosed15m.
    destruct (update (swingDetector p) (closed15m cb)) as [[sd1 lg]|];
      reflexivity.
Qed.

Lemma feed_snoc (s : CandleBuilder.t) (cs : list Candle) (c : Candle) :
  fst (feed s (cs ++ [c])) = fst (_on1mClose (fst (feed s cs)) c) /\
  closes15m (snd (feed s (cs ++ [c])))
  = closes15m (snd (feed s cs))
    ++ closes15m (snd (_on1mClose (fst (feed s cs)) c)).
Proof.
  rewrite feed_app. cbn [fst snd]. rewrite feed_cons. cbn [feed fst snd].
  rewrite app_nil_r, closes15m_app. split; reflexivity.
Qed.

Lemma runAll_snoc (p : CandlePipeline.t) (cs : list Candle) (c : Candle) :
  runAll p (cs ++ [c])
  = match runAll p cs with
    | None => None
    | Some (p1, calls1) =>
      match step p1 c with
      | None => None
      | Some (p2, calls2) => Some (p2, calls1 ++ calls2)
      end
    end.
Proof.
  rewrite runAll_app. destruct (runAll p cs) as [[p1 calls1]|]; [|reflexivity].
  cbn [runAll]. destruct (step p1 c) as [[p2 calls2]|]; [|reflexivity].
  rewrite app_nil_r. reflexivity.
Qed.

Lemma emitted_byOpenTime (cs : list Candle) :
  chronological cs ->
  byOpenTime (closes15m (snd (feed CandleBuilder.new cs))).
Proof.
  intros Hch. destruct (feed_new_ascending cs Hch) as (Hasc & Hal & _).
  exact (StronglySorted_weaken _ _ aligned _ aligned_openTime_lt Hal Hasc).
Qed.

Lemma histories_snoc (n : nat) (E : list Candle15m.t) (b : Candle15m.t) :
  map (fun k => lastN n (firstn k (E ++ [b]))) (seq 1 (length (E ++ [b])))
  = map (fun k => lastN n (firstn k E)) (seq 1 (length E))
    ++ [lastN n (E ++ [b])].
Proof.
  rewrite length_app. cbn [length]. rewrite seq_app, map_app.
  cbn [seq map]. f_equal.
  - apply map_ext_in. intros k Hk. apply in_seq in Hk.
    rewrite firstn_app.
    replace (k - length E)%nat with 0%nat by lia.
    cbn [firstn]. rewrite app_nil_r. reflexivity.
  - replace (1 + length E)%nat with (length (E ++ [b]))
      by (rewrite length_app; cbn [length]; lia).
    rewrite firstn_all. reflexivity.
Qed.

(** The bot's builder and detector along a chronological stream of closed
    1m candles. *)
Lemma runAll_invariant (cfg : Config) (cs : list Candle) :
  chronological cs ->
  let L := swing_lookback cfg in
  let E := closes15m (snd (feed CandleBuilder.new cs)) in
  exists p calls,
    runAll (CandlePipeline.new cfg) cs = Some (p, calls) /\
    candleBuilder p = fst (feed CandleBuilder.new cs) /\
    lookback (swingDetector p) = L /\
    settled L E (swingHighPool (swingDetector p)) /\
    settled L E (swingLowPool (swingDetector p)) /\
    Forall (fresh L) calls /\
    map candles calls
    = map (fun k => lastN 60 (firstn k E)) (seq 1 (length E)).
Proof.
  cbn zeta. induction cs as [|c cs IH] using rev_ind; intros Hch.
  - exists (CandlePipeline.new cfg), []. cbn.
    repeat split; try (intros s []); constructor.
  - assert (chronological cs) as Hch' by (eapply StronglySorted_app_l, Hch).
    destruct (IH Hch') as (p & calls & Hrun & Hcb & HL & Hh & Hl & Hf & Hm).
    clear IH.
    pose proof (emitted_byOpenTime _ Hch) as Hs.
    destruct (feed_history (cs ++ [c]) CandleBuilder.new [])
      as [_ Hhist]; [reflexivity|].
    cbn [app max15mHistory CandleBuilder.new] in Hhist.
    destruct (feed_snoc CandleBuilder.new cs c) as [F1 F2].
    rewrite F1 in Hhist. rewrite F2 in Hhist, Hs |- *. rewrite F1.
    set (E := closes15m (snd (feed CandleBuilder.new cs))) in *.
    rewrite runAll_snoc, Hrun.
    destruct (step_cases p c) as [(He & Hstep) | (b & He & Hstep)];
      rewrite Hcb in He, Hstep; rewrite He in *; rewrite Hstep.
    + rewrite !app_nil_r in *. eexists _, _. split; [reflexivity|].
      cbn [candleBuilder swingDetector].
      repeat split; assumption.
    + rewrite Hhist.
      destruct (listener_update 60 E b (swingDetector p))
        as (sd' & lg & Hu & HL' & _ & Hh' & Hl' & Hfr);
        [exact Hs | rewrite HL; exact Hh | rewrite HL; exact Hl |].
      rewrite Hu. eexists _, _. split; [reflexivity|].
      cbn [candleBuilder swingDetector]. rewrite HL in *.
      split; [reflexivity|]. split; [exact HL'|].
      split; [exact Hh'|]. split; [exact Hl'|].
      split.
      * apply Forall_app. split; [exact Hf|].
        constructor; [exact Hfr | constructor].
      * rewrite map_app, Hm, histories_snoc. reflexivity.
Qed.

(** X23. In the bot, fed the closed 1m candles in the order of their open
    times: [swingDetector.update] never throws; it is called once for
    each emitted 15m candle, on the last 60 of the 15m candles emitted so
    far; and in each call on at least [2L+1] candles the open time of the
    candidate is in neither pool, so that the candidate is confirmed as a
    high pivot exactly when its high is strictly greater than the high of
    each of the [L] candles on either side, and as a low pivot exactly
    when its low is strictly less than their lows. *)
Theorem listener_confirms_dominant (cfg : Config) (cs : list Candle) :
  chronological cs ->
  let L := swing_lookback cfg in
  let E := closes15m (snd (feed CandleBuilder.new cs)) in
  exists p calls,
    runAll (CandlePipeline.new cfg) cs = Some (p, calls) /\
    candleBuilder p = fst (feed CandleBuilder.new cs) /\
    map candles calls
    = map (fun k => lastN 60 (firstn k E)) (seq 1 (length E)) /\
    forall u, In u calls ->
      let idx := (length (candles u) - 1 - L)%nat in
      update (before u) (candles u) = Some (after u, log u) /\
      ((L * 2 + 1 <= length (candles u))%nat ->
       exists candidate,
         nth_error (candles u) idx = Some candidate /\
         already (swingHighPool (before u)) (Candle15m.openTime candidate)
         = false /\
         already (swingLowPool (before u)) (Candle15m.openTime candidate)
         = false /\
         (confirmsHigh (log u) (highEntry candidate idx) <->
          dominates (candles u) Candle15m.high Qlt L idx candidate) /\
         (confirmsLow (log u) (lowEntry candidate idx) <->
          dominates (candles u) Candle15m.low (fun a b => b < a) L idx
                    candidate)).
Proof.
  intros Hch. cbn zeta.
  destruct (runAll_invariant cfg cs Hch)
    as (p & calls & Hrun & Hcb & _ & _ & _ & Hf & Hm).
  exists p, calls. split; [exact Hrun|]. split; [exact Hcb|].
  split; [exact Hm|].
  intros u Hu. rewrite Forall_forall in Hf.
  destruct (Hf u Hu) as (HL & Hup & Hfresh).
  split; [exact Hup|]. intros Hlen.
  destruct (Hfresh Hlen) as (candidate & Hc & Fh & Fl).
  exists candidate. split; [exact Hc|]. split; [exact Fh|].
  split; [exact Fl|].
  destruct (update_outcome (before u) (candles u))
    as (cand' & rh & rl & Hc' & Hrh & Hrl & Hu');
    [rewrite HL; exact Hlen|].
  rewrite HL in *. rewrite Hc in Hc'. injection Hc' as <-.
  rewrite Fh, Fl, Hup in Hu'. injection Hu' as _ Hlog.
  unfold confirmsHigh, confirmsLow. rewrite Hlog, <- Hrh, <- Hrl.
  destruct rh; destruct rl; cbn [app In]; split; split;
    intros H; try reflexivity; try discriminate;
    try (left; reflexivity); try (right; left; reflexivity);
    try contradiction;
    repeat (destruct H as [H | H]; try discriminate H; try contradiction).
Qed.


End PipelineRun.

(** ** WebSocketManager: reconnection *)
Section Reconnect.
Import WebSocketManager ReconnectSpec.
Variable cfg : WsConfig.

Lemma timers_app (ev1 ev2 : list Event) :
  timers (ev1 ++ ev2) = timers ev1 ++ timers ev2.
Proof.
  induction ev1 as [|[| | |d] ev1 IH]; cbn [app timers]; rewrite ?IH;
    reflexivity.
Qed.

Lemma givenUp_app (ev1 ev2 : list Event) :
  givenUp (ev1 ++ ev2) = (givenUp ev1 + givenUp ev2)%nat.
Proof.
  induction ev1 as [|[| | |d] ev1 IH]; cbn [app givenUp]; rewrite ?IH;
    reflexivity.
Qed.

Lemma run_cons_ws (s : t) (c : Call) (cs : list Call) :
  run cfg s (c :: cs)
  = (fst (run cfg (fst (handle cfg s c)) cs),
     snd (handle cfg s c) ++ snd (run cfg (fst (handle cfg s c)) cs)).
Proof.
  cbn [run]. destruct (handle cfg s c) as [s1 ev1]. cbn [fst snd].
  destruct (run cfg s1 cs) as [s2 ev2]. reflexivity.
Qed.

Lemma scheduleReconnect_cases (s : t) :
  ((maxReconnectAttempts cfg <= Z.of_nat (reconnectAttempts s))%Z /\
   _scheduleReconnect cfg s = (s, [MaxReconnectReached])) \/
  ((Z.of_nat (reconnectAttempts s) < maxReconnectAttempts cfg)%Z /\
   _scheduleReconnect cfg s
   = ({| isConnected := isConnected s;
         reconnectAttempts := S (reconnectAttempts s);
         shouldReconnect := shouldReconnect s |},
      [SetTimeout (backoff cfg (reconnectAttempts s))])).
Proof.
  unfold _scheduleReconnect, backoff.
  destruct (maxReconnectAttempts cfg <=? Z.of_nat (reconnectAttempts s))%Z
    eqn:E; [left; apply Z.leb_le in E | right; apply Z.leb_gt in E];
    split; [exact E | reflexivity | exact E | reflexivity].
Qed.

(** Closes in a row, from [a] attempts. *)
Lemma closes_from (n : nat) (s : t) :
  shouldReconnect s = true ->
  let M := Z.to_nat (maxReconnectAttempts cfg) in
  let a := reconnectAttempts s in
  let out := run cfg s (repeat CallOnClose n) in
  timers (snd out) = map (backoff cfg) (seq a (Nat.min n (M - a))) /\
  givenUp (snd out) = (n - (M - a))%nat /\
  reconnectAttempts (fst out) = (a + Nat.min n (M - a))%nat /\
  shouldReconnect (fst out) = true.
Proof.
  cbn zeta. revert s. induction n as [|n IH]; intros s Hs.
  - cbn [repeat run fst snd timers givenUp Nat.min seq map].
    split; [reflexivity|]. split; [reflexivity|]. split; [lia | exact Hs].
  - cbn [repeat]. rewrite run_cons_ws. cbn [fst snd handle].
    rewrite timers_app, givenUp_app.
    unfold _onClose. rewrite Hs.
    destruct (scheduleReconnect_cases
                {| isConnected := false;
                   reconnectAttempts := reconnectAttempts s;
                   shouldReconnect := true |})
      as [[Hge ->] | [Hlt ->]];
      cbn [reconnectAttempts shouldReconnect isConnected] in *;
      cbn [fst snd timers givenUp app].
    + destruct (IH {| isConnected := false;
                      reconnectAttempts := reconnectAttempts s;
                      shouldReconnect := true |} eq_refl)
        as (I1 & I2 & I3 & I4).
      cbn [reconnectAttempts] in I1, I2, I3.
      rewrite I1, I2, I3.
      replace (Z.to_nat (maxReconnectAttempts cfg) - reconnectAttempts s)%nat
        with 0%nat by lia.
      rewrite !Nat.min_0_r. cbn [seq map].
      split; [reflexivity|]. split; [lia|]. split; [lia | exact I4].
    + destruct (IH {| isConnected := false;
                      reconnectAttempts := S (reconnectAttempts s);
                      shouldReconnect := true |} eq_refl)
        as (I1 & I2 & I3 & I4).
      cbn [reconnectAttempts] in I1, I2, I3.
      rewrite I1, I2, I3.
      set (M := Z.to_nat (maxReconnectAttempts cfg)) in *.
      set (a := reconnectAttempts s) in *.
      assert (a < M)%nat as Ha by (unfold M, a; lia).
      replace (M - a)%nat with (S (M - S a)) by lia.
      rewrite <- Nat.succ_min_distr. cbn [seq map givenUp Nat.add].
      split; [reflexivity|]. split; [lia|]. split; [lia | exact I4].
Qed.

(** X24. After a successful open (or from the constructor), while
    reconnection is wanted, [n] closes in a row set the timers of delays
    [base], [2 base], [4 base], ... each capped at one minute, for the
    first [maxReconnectAttempts] of them; every later close emits
    maxReconnectReached and sets no timer. *)
Theorem backoff_schedule (n : nat) (s : t) :
  reconnectAttempts s = 0%nat -> shouldReconnect s = true ->
  let M := Z.to_nat (maxReconnectAttempts cfg) in
  let out := run cfg s (repeat CallOnClose n) in
  timers (snd out) = map (backoff cfg) (seq 0 (Nat.min n M)) /\
  givenUp (snd out) = (n - M)%nat /\
  reconnectAttempts (fst out) = Nat.min n M.
Proof.
  intros Ha Hs. cbn zeta.
  destruct (closes_from n s Hs) as (H1 & H2 & H3 & _).
  rewrite Ha, Nat.sub_0_r in *. cbn [Nat.add] in H3.
  split; [exact H1|]. split; [exact H2 | exact H3].
Qed.

Lemma handle_bounded (s : t) (c : Call) :
  (Z.of_nat (reconnectAttempts s) <= Z.max 0 (maxReconnectAttempts cfg))%Z ->
  (Z.of_nat (reconnectAttempts (fst (handle cfg s c)))
   <= Z.max 0 (maxReconnectAttempts cfg))%Z /\
  Forall (fun d => (d <= 60000)%Z) (timers (snd (handle cfg s c))) /\
  (shouldReconnect s = false ->
   shouldReconnect (fst (handle cfg s c)) = false /\
   (fromSocket c ->
    timers (snd (handle cfg s c)) = [] /\
    givenUp (snd (handle cfg s c)) = 0%nat)).
Proof.
  intros Hb.
  assert (forall s0, reconnectAttempts s0 = reconnectAttempts s ->
            (Z.of_nat (reconnectAttempts (fst (_scheduleReconnect cfg s0)))
             <= Z.max 0 (maxReconnectAttempts cfg))%Z /\
            Forall (fun d => (d <= 60000)%Z)
                   (timers (snd (_scheduleReconnect cfg s0))) /\
            shouldReconnect (fst (_scheduleReconnect cfg s0))
            = shouldReconnect s0) as Hsched.
  { intros s0 Ha.
    destruct (scheduleReconnect_cases s0) as [[Hge ->] | [Hlt ->]];
      cbn [fst snd timers reconnectAttempts shouldReconnect].
    - rewrite Ha. split; [exact Hb|]. split; [constructor | reflexivity].
    - split; [lia|]. split; [|reflexivity].
      constructor; [unfold backoff; lia | constructor]. }
  destruct c as [[|] | | | | [|]]; cbn [handle].
  - unfold connect. destruct (Hsched s eq_refl) as (H1 & H2 & H3).
    split; [exact H1|]. split; [exact H2|]. intros Hf.
    split; [rewrite H3; exact Hf|]. intros Hc. exfalso. apply Hc. reflexivity.
  - cbn. split; [exact Hb|]. split; [constructor|]. intros Hf.
    split; [exact Hf|]. intros _. split; reflexivity.
  - cbn. split; [exact Hb|]. split; [constructor|]. intros _.
    split; [reflexivity|]. intros _. split; reflexivity.
  - cbn. split; [lia|]. split; [constructor|]. intros Hf.
    split; [exact Hf|]. intros _. split; reflexivity.
  - unfold _onClose. destruct (shouldReconnect s) eqn:Es.
    + destruct (Hsched {| isConnected := false;
                          reconnectAttempts := reconnectAttempts s;
                          shouldReconnect := true |} eq_refl)
        as (H1 & H2 & H3).
      destruct (_scheduleReconnect cfg _) as [s2 ev].
      cbn [fst snd timers] in *.
      split; [exact H1|]. split; [exact H2|]. intros Hf. discriminate Hf.
    + cbn. split; [exact Hb|]. split; [constructor|]. intros _.
      split; [reflexivity|]. intros _. split; reflexivity.
  - unfold timerFires, connect. destruct (shouldReconnect s) eqn:Es.
    + destruct (Hsched s eq_refl) as (H1 & H2 & H3).
      split; [exact H1|]. split; [exact H2|]. intros Hf. discriminate Hf.
    + cbn. split; [exact Hb|]. split; [constructor|]. intros _.
      split; [exact Es|]. intros _. split; reflexivity.
  - unfold timerFires, connect. destruct (shouldReconnect s) eqn:Es.
    + cbn. split; [exact Hb|]. split; [constructor|]. intros Hf.
      discriminate Hf.
    + cbn. split; [exact Hb|]. split; [constructor|]. intros _.
      split; [exact Es|]. intros _. split; reflexivity.
Qed.

(** X25. Whatever the calls, from the constructor: the count of attempts
    never exceeds [maxReconnectAttempts] (nor 0 when that is negative),
    and no timer is set for more than one minute. *)
Theorem reconnect_bounded (cs : list Call) :
  let out := run cfg new cs in
  (Z.of_nat (reconnectAttempts (fst out))
   <= Z.max 0 (maxReconnectAttempts cfg))%Z /\
  Forall (fun d => (d <= 60000)%Z) (timers (snd out)).
Proof.
  cbn zeta.
  assert (Z.of_nat (reconnectAttempts new)
          <= Z.max 0 (maxReconnectAttempts cfg))%Z as Hb by (cbn; lia).
  revert Hb. generalize new. induction cs as [|c cs IH]; intros s Hb.
  - cbn. split; [exact Hb | constructor].
  - rewrite run_cons_ws. cbn [fst snd]. rewrite timers_app.
    destruct (handle_bounded s c Hb) as (H1 & H2 & _).
    destruct (IH _ H1) as [I1 I2].
    split; [exact I1 | apply Forall_app; split; assumption].
Qed.

(** X26. [disconnect] is final: no later call sets [shouldReconnect]
    again, and as long as [connect] itself does not throw, no timer is
    set and maxReconnectReached is not emitted, whatever the socket and
    the pending timers do. *)
Theorem disconnect_final (s : t) (cs : list Call) :
  Forall fromSocket cs ->
  let out := run cfg (fst (disconnect s)) cs in
  shouldReconnect (fst out) = false /\
  timers (snd out) = [] /\
  givenUp (snd out) = 0%nat.
Proof.
  intros Hcs. cbn zeta.
  assert (shouldReconnect (fst (disconnect s)) = false) as Hf by reflexivity.
  revert Hf. generalize (fst (disconnect s)). clear s.
  induction Hcs as [|c cs Hc Hcs IH]; intros s Hf.
  - cbn. repeat split. exact Hf.
  - rewrite run_cons_ws. cbn [fst snd]. rewrite timers_app, givenUp_app.
    assert (forall s0 c0, shouldReconnect s0 = false ->
              shouldReconnect (fst (handle cfg s0 c0)) = false /\
              (fromSocket c0 ->
               timers (snd (handle cfg s0 c0)) = [] /\
               givenUp (snd (handle cfg s0 c0)) = 0%nat)) as Hh.
    { clear. intros s0 c0 Hf0.
      unfold fromSocket.
      destruct c0 as [[|] | | | | [|]]; cbn [handle];
        unfold connect, timerFires, _onClose, _onOpen, disconnect;
        rewrite ?Hf0; cbn [fst snd timers givenUp shouldReconnect];
        try (split; [first [exact Hf0 | reflexivity]
                    | intros _; split; reflexivity]).
      split.
      - unfold _scheduleReconnect.
        destruct (_ <=? _)%Z; cbn [fst shouldReconnect]; exact Hf0.
      - intros Hc0. exfalso. apply Hc0. reflexivity. }
    destruct (Hh s c Hf) as [H1 H2]. destruct (H2 Hc) as [H3 H4].
    destruct (IH _ H1) as (I1 & I2 & I3).
    rewrite H3, H4, I2, I3. repeat split. exact I1.
Qed.

End Reconnect.

(** ** Scenarios for the further properties *)
Section RollingScenarios.
#[local] Existing Instance binary64.
Import RollingStats RollingSpec.

Lemma scenario_oneSample : reachable 2 Examples.oneSample.
Proof. apply reach_push, reach_new. Defined.

(** One sample fits a window of two. *)
Lemma window_invariant_witness :
  (length (volumes Examples.oneSample) <= 2)%nat /\
  absDeltaValues Examples.oneSample = map Qabs (deltaValues Examples.oneSample).
Proof.
  destruct (window_invariant 2 Examples.oneSample scenario_oneSample)
    as (_ & H1 & _ & H2).
  split; [exact H1 | exact H2].
Defined.

(** One sample, of volume 10 and delta 2: the means are the sample's. *)
Lemma window_means_witness :
  avgVolume Examples.oneSample = 10 /\
  avgAbsDelta Examples.oneSample = 2 /\
  0 <= avgAbsDelta Examples.oneSample.
Proof.
  destruct (window_means 2 Examples.oneSample scenario_oneSample)
    as (_ & Hm & Hn).
  destruct Hm as (Hv & Ha & _); [discriminate|].
  destruct (Hn rnd64_nonneg) as [H0 _].
  split; [rewrite Hv; vm_compute; reflexivity|].
  split; [rewrite Ha; vm_compute; reflexivity | exact H0].
Defined.

End RollingScenarios.

Section FootprintScenarios.
#[local] Existing Instance binary64.
Import FootprintEngine EngineSpec.

Lemma calculate_top_bottom_witness :
  exists fp bottom top,
    calculate Scenario.engine = Some fp /\
    hd_error (clusters fp) = Some bottom /\
    last (clusters fp) bottom = top /\
    cl_price bottom <= cl_price top.
Proof.
  destruct (calculate Scenario.engine) as [fp|] eqn:E;
    [|vm_compute in E; discriminate].
  destruct (calculate_top_bottom Scenario.engine fp E)
    as (b & t & _ & Ht & Hh & Hl & _ & _ & Hall).
  exists fp, b, t. split; [reflexivity|]. split; [exact Hh|].
  split; [exact Hl | exact (proj1 (Hall t Ht))].
Defined.

(** The three buys of 0.1, 0.1 and 0.4: the buy volume is
    0.6000000000000001, nothing was sold, and no volume is negative. *)
Lemma calculate_flows_witness :
  exists fp,
    calculate (fed Scenario.cfg Examples.roundedTrades) = Some fp /\
    totalBuyVolume fp = double (6000000000000001 # 10000000000000000) /\
    totalSellVolume fp = 0 /\
    0 <= totalVolume fp /\
    0 <= pocVolume fp.
Proof.
  destruct (calculate (fed Scenario.cfg Examples.roundedTrades))
    as [fp|] eqn:E; [|vm_compute in E; discriminate].
  destruct (calculate_flows Scenario.cfg Examples.roundedTrades fp E)
    as (Hb & Hs & _ & _ & Hnn).
  destruct Hnn as (_ & _ & Ht & _ & Hp).
  - exact rnd64_nonneg.
  - intros msg Hm.
    repeat (destruct Hm as [<- | Hm]; [vm_compute; discriminate|]).
    destruct Hm.
  - exists fp. split; [reflexivity|].
    split; [rewrite Hb; vm_compute; reflexivity|].
    split; [rewrite Hs; vm_compute; reflexivity|].
    split; [exact Ht | exact Hp].
Defined.

End FootprintScenarios.

Section BuilderScenarios.
#[local] Existing Instance binary64.
Import CandleBuilder CandleSpec.

Lemma scenario_wellFormed : Forall wellFormed Scenario.stream.
Proof.
  unfold Scenario.stream.
  repeat (apply Forall_cons;
          [unfold wellFormed; cbn; repeat split; apply Qle_bool_iff;
           reflexivity|]).
  apply Forall_nil.
Defined.

Lemma coarse_wellFormed_witness :
  Forall wellFormed15m (closes15m (snd (feed new Scenario.stream))).
Proof.
  exact (proj1 (coarse_wellFormed Scenario.stream scenario_wellFormed)).
Defined.

Lemma scenario_chronological : chronological Examples.pivotStream.
Proof.
  unfold chronological, Examples.pivotStream.
  repeat (apply SSorted_cons;
          [|repeat (apply Forall_cons; [cbn; lia|]); apply Forall_nil]).
  apply SSorted_nil.
Defined.

Lemma coarse_ascending_witness :
  ascending (closes15m (snd (feed new Examples.pivotStream))) /\
  ascending (getClosed15m (fst (feed new Examples.pivotStream))).
Proof.
  destruct (coarse_ascending Examples.pivotStream scenario_chronological)
    as (H1 & _ & _ & H2 & _).
  split; [exact H1 | exact H2].
Defined.

End BuilderScenarios.

Section PoolScenarios.
#[local] Existing Instance binary64.
Import SwingDetector PoolSpec.

Lemma scenario_afterFirstUpdate :
  reachable Scenario.cfg Scenario.afterFirstUpdate.
Proof.
  apply (reach_update Scenario.cfg (SwingDetector.new Scenario.cfg)
           Scenario.history Scenario.afterFirstUpdate
           [InfoSwingHigh (highEntry (Scenario.coarse 2 110 92) 2)]);
    [apply reach_new | vm_compute; reflexivity].
Defined.

Lemma pools_bounded_ordered_witness :
  ordered (swingHighPool Scenario.afterFirstUpdate) /\
  (length (swingHighPool Scenario.afterFirstUpdate) <= 8)%nat.
Proof.
  destruct (pools_bounded_ordered Scenario.cfg Scenario.afterFirstUpdate
              scenario_afterFirstUpdate) as (H1 & _ & _ & _ & H2 & _).
  split; [exact H1 | exact H2].
Defined.

Lemma clear_swept_exact_witness :
  swingHighPool
    (clearSweptLevels Scenario.afterFirstUpdate "high"
       (sh_swept (getSweptHighs Scenario.afterFirstUpdate 120)))
  = filter (fun p => Qle_bool 120 (price p))
           (swingHighPool Scenario.afterFirstUpdate).
Proof.
  exact (proj1 (clear_swept_exact Scenario.cfg Scenario.afterFirstUpdate 120
                                  scenario_afterFirstUpdate)).
Defined.

Lemma scenario_highPool_ordered : ordered Scenario.highPool.
Proof.
  unfold ordered, Scenario.highPool.
  repeat (apply SSorted_cons;
          [|repeat (apply Forall_cons; [cbn; lia|]); apply Forall_nil]).
  apply SSorted_nil.
Defined.

Lemma scenario_newerHigh :
  forall p, In p Scenario.highPool -> (time p < time Examples.newerHigh)%Z.
Proof.
  intros p H. unfold Scenario.highPool in H. cbn [In] in H.
  repeat (destruct H as [<- | H]; [reflexivity|]).
  destruct H.
Defined.

(** With room for two, the oldest pivot goes. *)
Lemma addToPool_fifo_witness :
  _addToPool 2 Scenario.highPool Examples.newerHigh
  = lastN 2 (Scenario.highPool ++ [Examples.newerHigh]).
Proof.
  exact (proj1 (addToPool_fifo 2 Scenario.highPool Examples.newerHigh
                               scenario_highPool_ordered
                               scenario_newerHigh)).
Defined.

End PoolScenarios.

Section SignalScenarios.
#[local] Existing Instance binary64.
Import AbsorptionDetector Candidacy.

(** Scenario D: the signal of the confirmed SHORT candidate. *)
Lemma short_signal_payload_witness :
  exists o data,
    checkConfirmation Scenario.pendingShort Scenario.candleTie None
    = Return o /\
    result o = Signal SHORT_SIGNAL data /\
    StronglySorted Qle (sweptLevels data) /\
    sd_sweepPrice data = Some (high Scenario.candleUp).
Proof.
  destruct (checkConfirmation Scenario.pendingShort Scenario.candleTie None)
    as [o|d] eqn:E; [|vm_compute in E; discriminate].
  destruct (result o) as [|type data] eqn:Er.
  - exfalso. vm_compute in E. injection E as <-. discriminate Er.
  - destruct (short_signal_payload Scenario.cfg Scenario.detector
                Scenario.candleUp Scenario.footprintUp
                (fst (Scenario.sweptBy Scenario.candleUp)) Scenario.swings
                [] Scenario.candleTie None o type data
                eq_refl scenario_upper E Er)
      as (Ht & _ & _ & _ & Hs & _ & Hp & _).
    exists o, data. split; [reflexivity|].
    split; [rewrite Er, Ht; reflexivity|]. split; [exact Hs | exact Hp].
Defined.

(** The signal of a confirmed LONG candidate. *)
Lemma long_signal_payload_witness :
  exists o data,
    checkConfirmation
      (det (Scenario.check Scenario.pendingShort Scenario.candleDown
                           Scenario.footprintDown))
      Scenario.candleTie None
    = Return o /\
    result o = Signal LONG_SIGNAL data /\
    StronglySorted Qle (sweptLevels data) /\
    sd_sweepPrice data = Some (low Scenario.candleDown).
Proof.
  destruct (checkConfirmation
              (det (Scenario.check Scenario.pendingShort Scenario.candleDown
                                   Scenario.footprintDown))
              Scenario.candleTie None)
    as [o|d] eqn:E; [|vm_compute in E; discriminate].
  destruct (result o) as [|type data] eqn:Er.
  - exfalso. vm_compute in E. injection E as <-. discriminate Er.
  - destruct (long_signal_payload Scenario.cfg Scenario.pendingShort
                Scenario.candleDown Scenario.footprintDown
                (snd (Scenario.sweptBy Scenario.candleDown)) Scenario.swings
                [] Scenario.candleTie None o type data
                eq_refl scenario_lower E Er)
      as (Ht & _ & _ & _ & Hs & _ & Hp & _).
    exists o, data. split; [reflexivity|].
    split; [rewrite Er, Ht; reflexivity|]. split; [exact Hs | exact Hp].
Defined.

End SignalScenarios.

Section PipelineScenarios.
#[local] Existing Instance binary64.
Import CandleBuilder SwingDetector CandlePipeline.

(** Five coarse candles emitted, five calls of [update], none throws. *)
Lemma listener_confirms_dominant_witness :
  exists p calls,
    runAll (CandlePipeline.new Scenario.cfg) Examples.pivotStream
    = Some (p, calls) /\
    candleBuilder p = fst (feed CandleBuilder.new Examples.pivotStream) /\
    forall u, In u calls ->
      update (before u) (candles u) = Some (after u, log u).
Proof.
  destruct (listener_confirms_dominant Scenario.cfg Examples.pivotStream
              scenario_chronological) as (p & calls & H1 & H2 & _ & H3).
  exists p, calls. split; [exact H1|]. split; [exact H2|].
  intros u Hu. exact (proj1 (H3 u Hu)).
Defined.


(** The fifth call confirms the third coarse candle as a high pivot. *)
Example scenario_pipeline :
  option_map (fun r => (map price (swingHighPool (swingDetector (fst r))),
                        map price (swingLowPool (swingDetector (fst r))),
                        length (snd r)))
             (runAll (CandlePipeline.new Scenario.cfg) Examples.pivotStream)
  = Some ([110], [], 5%nat).
Proof. vm_compute. reflexivity. Qed.

End PipelineScenarios.

Section AlertScenarios.
Import AlertService AlertSpec.

Example scenario_hash :
  hashOf Examples.wholeToString Examples.firstCall = "SHORT_103_104"%string.
Proof. vm_compute. reflexivity. Qed.

(** Entered one after the other, the second call is refused. *)
Example scenario_serial :
  snd (exec Examples.wholeToString (new 60000) []
            (serial [Examples.firstCall; Examples.secondCall]))
  = [Examples.firstCall].
Proof. vm_compute. reflexivity. Qed.

(** Entered while the first awaits, the second call sends as well: two
    alerts with the same hash, one millisecond apart. *)
Lemma overlapping_alerts_both_sent_witness :
  let out := exec Examples.wholeToString (new 60000) []
                  [Enter Examples.firstCall; Enter Examples.secondCall;
                   Settle 0; Settle 0] in
  snd out = [Examples.firstCall; Examples.secondCall] /\
  lastAlertTime (fst out) = 1700000000001%Z /\
  hashOf Examples.wholeToString Examples.firstCall
  = hashOf Examples.wholeToString Examples.secondCall.
Proof.
  cbn zeta.
  destruct (overlapping_alerts_both_sent Examples.wholeToString (new 60000)
              Examples.firstCall Examples.secondCall) as [H1 H2].
  - vm_compute. discriminate.
  - vm_compute. discriminate.
  - intros [].
  - intros [].
  - reflexivity.
  - reflexivity.
  - split; [exact H1|]. split; [exact H2|]. reflexivity.
Defined.

End AlertScenarios.

Section ReconnectScenarios.
#[local] Existing Instance binary64.
Import WebSocketManager ReconnectSpec.

(** Twelve closes in a row with the default settings: ten timers, then
    two refusals. *)
Lemma backoff_schedule_witness :
  timers (snd (run Examples.wsConfig new (repeat CallOnClose 12)))
  = map (backoff Examples.wsConfig) (seq 0 10) /\
  givenUp (snd (run Examples.wsConfig new (repeat CallOnClose 12))) = 2%nat.
Proof.
  destruct (backoff_schedule Examples.wsConfig 12 new eq_refl eq_refl)
    as (H1 & H2 & _).
  split; [exact H1 | exact H2].
Defined.

Example scenario_backoff :
  map (backoff Examples.wsConfig) (seq 0 10)
  = [3000; 6000; 12000; 24000; 48000; 60000; 60000; 60000; 60000; 60000]%Z.
Proof. vm_compute. reflexivity. Qed.

Lemma scenario_afterDisconnect : Forall fromSocket Examples.afterDisconnect.
Proof.
  unfold Examples.afterDisconnect, fromSocket.
  repeat (apply Forall_cons; [intros H; discriminate H|]).
  apply Forall_nil.
Defined.

Lemma disconnect_final_witness :
  timers (snd (run Examples.wsConfig (fst (disconnect new))
                   Examples.afterDisconnect)) = [].
Proof.
  exact (proj1 (proj2 (disconnect_final Examples.wsConfig new
                         Examples.afterDisconnect
                         scenario_afterDisconnect))).
Defined.

End ReconnectScenarios.
